(** * Risque-16 assembler: a shallow embedding and its properties

    The repository keeps two revisions of [ast.go], [instructions.go] and
    [parser.go] next to one revision of [lexer.go] and [state.go]:

    - revision B (the second half of each file) is the one that builds
      against [lexer.go] and [state.go]: its [LabelUse.Evaluate] takes the
      three results of [AssemblyState.lookup], its parser knows no [BANG]
      token, and its encoder follows the five-format instruction table;
    - revision A (the first half of each file) has expressions that are
      only constants and names, calls a two-result [lookup] that is not in
      the tree, and encodes the thirteen-format Thumb-like table.

    The state, the scanner and the pass driver are shared.  Revision B is
    embedded in full (scanner, parser, expressions, statements, encoder,
    driver); revision A is embedded in [Module RevA] as far as the
    properties below need it. *)

From Stdlib Require Import ZArith Lia Bool Ascii String.
From stdpp Require Import gmap strings list fin_maps pretty.

Local Open Scope string_scope.
Local Open Scope Z_scope.

(** ** 16-bit unsigned arithmetic ([uint16]) *)

Definition u16 (z : Z) : Z := z mod 65536.

Definition is_u16 (z : Z) : Prop := 0 <= z < 65536.

(** ** Failures

    The Go code stops in three ways: [asmError] prints a located message
    and calls [os.Exit(1)]; [panic(fmt.Sprintf(...))] raises an explicit
    panic; and the runtime panics on its own (division by zero, nil
    dereference, index out of range).  The format string and its arguments
    are kept apart instead of being rendered. *)

Inductive fmt_arg :=
| FInt (n : Z)
| FStr (s : string).

Inductive failure :=
| AsmError (loc : string) (msg : string) (args : list fmt_arg)
| GoPanic (msg : string) (args : list fmt_arg)
| RuntimePanic (what : string).

(** ** Assembly state ([state.go]) *)

Record LabelRef := mkLabelRef { value : Z; defined : bool }.

(** [rom] is the array [[65536]uint16]; it is zero-initialised, so a key
    that is absent from the map reads as 0.  [used] is a [map[uint16]bool]
    whose missing keys read as [false]. *)
Record AssemblyState := mkState {
  labels : gmap string LabelRef;
  symbols : gmap string LabelRef;
  resolved : bool;
  dirty : bool;
  rom : gmap Z Z;
  index : Z;
  used : gmap Z bool
}.

Definition rom_at (s : AssemblyState) (a : Z) : Z := default 0 (rom s !! a).
Definition used_at (s : AssemblyState) (a : Z) : bool := default false (used s !! a).

Definition set_labels (m : gmap string LabelRef) (s : AssemblyState) :=
  mkState m (symbols s) (resolved s) (dirty s) (rom s) (index s) (used s).
Definition set_symbols (m : gmap string LabelRef) (s : AssemblyState) :=
  mkState (labels s) m (resolved s) (dirty s) (rom s) (index s) (used s).
Definition set_resolved (b : bool) (s : AssemblyState) :=
  mkState (labels s) (symbols s) b (dirty s) (rom s) (index s) (used s).
Definition set_dirty (b : bool) (s : AssemblyState) :=
  mkState (labels s) (symbols s) (resolved s) b (rom s) (index s) (used s).
Definition set_index (i : Z) (s : AssemblyState) :=
  mkState (labels s) (symbols s) (resolved s) (dirty s) (rom s) i (used s).

(** The result of running a piece of the assembler on a state. *)
Inductive outcome (A : Type) :=
| Done (a : A) (s : AssemblyState)
| Abort (f : failure).
Arguments Done {A} a s.
Arguments Abort {A} f.

Definition Asm (A : Type) : Type := AssemblyState -> outcome A.

Definition aret {A} (a : A) : Asm A := fun s => Done a s.
Definition abind {A B} (m : Asm A) (k : A -> Asm B) : Asm B :=
  fun s => match m s with
           | Done a s' => k a s'
           | Abort f => Abort f
           end.
Definition afail {A} (f : failure) : Asm A := fun _ => Abort f.
Definition aget : Asm AssemblyState := fun s => Done s s.
Definition amodify (f : AssemblyState -> AssemblyState) : Asm unit :=
  fun s => Done tt (f s).

Notation "'do' x <- m ; k" := (abind m (fun x => k))
  (at level 10, x name, m at level 99, k at level 200).
Notation "'run' m ; k" := (abind m (fun _ => k))
  (at level 10, m at level 99, k at level 200).

(** [asmError(loc, msg, args...)]: print and exit with status 1. *)
Definition asmError {A} (loc msg : string) (args : list fmt_arg) : Asm A :=
  afail (AsmError loc msg args).

(** [func (s *AssemblyState) lookup(key string) (uint16, bool, bool)] *)
Definition lookup_name (s : AssemblyState) (key : string) : Z * bool * bool :=
  match labels s !! key with
  | Some lr => (value lr, defined lr, true)
  | None =>
      match symbols s !! key with
      | Some lr => (value lr, defined lr, true)
      | None => (0, false, false)
      end
  end.

(** [func (s *AssemblyState) addLabel(l string)] *)
Definition addLabel (l : string) (s : AssemblyState) : AssemblyState :=
  set_labels (<[l := mkLabelRef 0 false]> (labels s)) s.

(** [func (s *AssemblyState) updateLabel(l string, loc uint16)] *)
Definition updateLabel (l : string) (loc : Z) : Asm unit :=
  fun s =>
    match labels s !! l with
    | Some lr =>
        let s1 := if negb (defined lr) || negb (value lr =? loc)
                  then set_dirty true s else s in
        Done tt (set_labels (<[l := mkLabelRef loc true]> (labels s1)) s1)
    | None => Abort (GoPanic "unknown label: '%s'" [FStr l])
    end.

(** [func (s *AssemblyState) updateSymbol(l string, val uint16)] *)
Definition updateSymbol (l : string) (val : Z) : Asm unit :=
  amodify (fun s => set_symbols (<[l := mkLabelRef val true]> (symbols s)) s).

(** [func (s *AssemblyState) reset()] *)
Definition reset (s : AssemblyState) : AssemblyState :=
  mkState (labels s) ∅ true false (rom s) 0 ∅.

(** [func (s *AssemblyState) push(x uint16)] *)
Definition push (x : Z) : Asm unit :=
  fun s =>
    if used_at s (index s)
    then Abort (GoPanic "overlapping regions at $%04x" [FInt (index s)])
    else Done tt (mkState (labels s) (symbols s) (resolved s) (dirty s)
                    (<[index s := x]> (rom s))
                    (u16 (index s + 1))
                    (<[index s := true]> (used s))).

(** [new(AssemblyState)] followed by [s.labels = make(...)]. *)
Definition new_state : AssemblyState := mkState ∅ ∅ false false ∅ 0 ∅.

(** ** Tokens and scanner ([lexer.go])

    The input is modelled as ASCII text, one character per rune. *)

Inductive Token :=
| ILLEGAL | EOF | WS | NEWLINE
| REGISTER | PC | SP | LR | NUMBER | IDENT | STRING
| DOT | HASH | COLON | COMMA | LBRAC | RBRAC | LPAREN | RPAREN | LBRACE | RBRACE
| PLUS | MINUS | TIMES | DIVIDE | LANGLES | RANGLES | AND | OR | XOR | NOT.

Definition Token_eqb (a b : Token) : bool :=
  match a, b with
  | ILLEGAL, ILLEGAL | EOF, EOF | WS, WS | NEWLINE, NEWLINE
  | REGISTER, REGISTER | PC, PC | SP, SP | LR, LR | NUMBER, NUMBER
  | IDENT, IDENT | STRING, STRING
  | DOT, DOT | HASH, HASH | COLON, COLON | COMMA, COMMA | LBRAC, LBRAC
  | RBRAC, RBRAC | LPAREN, LPAREN | RPAREN, RPAREN | LBRACE, LBRACE
  | RBRACE, RBRACE
  | PLUS, PLUS | MINUS, MINUS | TIMES, TIMES | DIVIDE, DIVIDE
  | LANGLES, LANGLES | RANGLES, RANGLES | AND, AND | OR, OR | XOR, XOR
  | NOT, NOT => true
  | _, _ => false
  end.

Definition tokenNames (t : Token) : string :=
  match t with
  | ILLEGAL => "<ILLEGAL>" | EOF => "EOF" | WS => "whitespace"
  | NEWLINE => "newline" | REGISTER => "register" | PC => "PC" | SP => "SP"
  | LR => "LR" | NUMBER => "number" | IDENT => "identifier"
  | STRING => "string literal" | DOT => "dot" | HASH => "#" | COLON => ":"
  | COMMA => "," | LBRAC => "[" | RBRAC => "]" | LBRACE => "{"
  | RBRACE => "}" | LPAREN => "(" | RPAREN => ")" | PLUS => "+"
  | MINUS => "-" | TIMES => "*" | DIVIDE => "/" | LANGLES => "<<"
  | RANGLES => ">>" | AND => "&" | OR => "|" | XOR => "^" | NOT => "~"
  end.

(** [var eof = rune(0)] *)
Definition eof : ascii := Ascii.zero.

Definition rune_between (lo hi ch : ascii) : bool :=
  (N_of_ascii lo <=? N_of_ascii ch)%N && (N_of_ascii ch <=? N_of_ascii hi)%N.

Definition rune_eqb (a b : ascii) : bool := (N_of_ascii a =? N_of_ascii b)%N.

Definition isWhitespace (ch : ascii) : bool :=
  rune_eqb ch " " || rune_eqb ch "009".
Definition isLetter (ch : ascii) : bool :=
  rune_between "A" "Z" ch || rune_between "a" "z" ch.
Definition isDigit (ch : ascii) : bool := rune_between "0" "9" ch.
Definition isHexDigit (ch : ascii) : bool :=
  rune_between "0" "9" ch || rune_between "a" "f" ch || rune_between "A" "F" ch.

(** The [bufio.Reader] is the text not yet read plus the rune that
    [UnreadRune] may give back: after a read that failed, or after one
    [UnreadRune], there is none. *)
Record Scanner := mkScanner {
  r_rest : string;
  r_last : option ascii;
  file : string;
  line : N;
  col : N;
  noCount : N
}.

Definition NewScanner (filename : string) (text : string) : Scanner :=
  mkScanner text None filename 1 0 0.

(** [func (s *Scanner) read() rune] *)
Definition read (s : Scanner) : ascii * Scanner :=
  match r_rest s with
  | EmptyString =>
      (eof, mkScanner EmptyString None (file s) (line s) (col s) (noCount s))
  | String ch rest =>
      if (noCount s =? 0)%N
      then
        if rune_eqb ch "010"
        then (ch, mkScanner rest (Some ch) (file s) (line s + 1)%N 0%N (noCount s))
        else (ch, mkScanner rest (Some ch) (file s) (line s) (col s + 1)%N (noCount s))
      else (ch, mkScanner rest (Some ch) (file s) (line s) (col s) (noCount s - 1)%N)
  end.

(** [func (s *Scanner) unread()] *)
Definition unread (s : Scanner) : Scanner :=
  match r_last s with
  | Some ch =>
      mkScanner (String ch (r_rest s)) None (file s) (line s) (col s) (noCount s + 1)%N
  | None =>
      mkScanner (r_rest s) None (file s) (line s) (col s) (noCount s + 1)%N
  end.

(** [func (s *Scanner) Location() string] *)
Definition Location (s : Scanner) : string :=
  file s +:+ ":" +:+ pretty (line s) +:+ ":" +:+ pretty (col s).

Definition snoc (buf : string) (ch : ascii) : string := buf +:+ String ch EmptyString.

(** The loops of the scanner read one rune per round, so the length of
    the unread text bounds their number of rounds; [None] stands for a
    bound that did not suffice. *)
Fixpoint scanWhile_loop (n : nat) (p : ascii -> bool) (buf : string) (s : Scanner)
  : option (string * Scanner) :=
  match n with
  | O => None
  | S n' =>
      let '(ch, s1) := read s in
      if rune_eqb ch eof then Some (buf, s1)
      else if negb (p ch) then Some (buf, unread s1)
      else scanWhile_loop n' p (snoc buf ch) s1
  end.

Definition rounds (s : Scanner) : nat := S (String.length (r_rest s)).

(** [func (s *Scanner) scanWhile(p func(rune) bool, t Token) (Token, string)] *)
Definition scanWhile (p : ascii -> bool) (t : Token) (s : Scanner)
  : option (Token * string * Scanner) :=
  let '(ch, s1) := read s in
  match scanWhile_loop (rounds s1) p (String ch EmptyString) s1 with
  | Some (buf, s2) => Some (t, buf, s2)
  | None => None
  end.

Definition keywords : list (string * Token) :=
  [("PC", PC); ("SP", SP); ("LR", LR);
   ("R0", REGISTER); ("R1", REGISTER); ("R2", REGISTER); ("R3", REGISTER);
   ("R4", REGISTER); ("R5", REGISTER); ("R6", REGISTER); ("R7", REGISTER)].

(** A Go map with constant contents, looked up by key. *)
Fixpoint table_get {V} (tbl : list (string * V)) (k : string) : option V :=
  match tbl with
  | [] => None
  | (k', v) :: rest => if String.eqb k' k then Some v else table_get rest k
  end.

(** [strings.ToUpper] on ASCII text. *)
Definition rune_upper (ch : ascii) : ascii :=
  if rune_between "a" "z" ch then ascii_of_N (N_of_ascii ch - 32) else ch.
Fixpoint ToUpper (t : string) : string :=
  match t with
  | EmptyString => EmptyString
  | String ch rest => String (rune_upper ch) (ToUpper rest)
  end.

Fixpoint scanIdent_loop (n : nat) (buf : string) (s : Scanner)
  : option (string * Scanner) :=
  match n with
  | O => None
  | S n' =>
      let '(ch, s1) := read s in
      if rune_eqb ch eof then Some (buf, s1)
      else if negb (isLetter ch) && negb (isDigit ch) && negb (rune_eqb ch "_")
      then Some (buf, unread s1)
      else scanIdent_loop n' (snoc buf ch) s1
  end.

(** [func (s *Scanner) scanIdent() (tok Token, lit string)] *)
Definition scanIdent (s : Scanner) : option (Token * string * Scanner) :=
  let '(ch, s1) := read s in
  match scanIdent_loop (rounds s1) (String ch EmptyString) s1 with
  | Some (st, s2) =>
      match table_get keywords (ToUpper st) with
      | Some t => Some (t, st, s2)
      | None => Some (IDENT, st, s2)
      end
  | None => None
  end.

Fixpoint scanNumber_loop (n : nat) (firstZero : bool) (count : Z) (buf : string)
  (s : Scanner) : option (string * Scanner) :=
  match n with
  | O => None
  | S n' =>
      let '(ch, s1) := read s in
      if isHexDigit ch || (firstZero && (count =? 1) && rune_eqb ch "x")
      then scanNumber_loop n' firstZero (count + 1) (snoc buf ch) s1
      else Some (buf, unread s1)
  end.

(** [func (s *Scanner) scanNumber() (tok Token, lit string)] *)
Definition scanNumber (s : Scanner) : option (Token * string * Scanner) :=
  let '(ch, s1) := read s in
  match scanNumber_loop (rounds s1) (rune_eqb ch "0") 1 (String ch EmptyString) s1 with
  | Some (buf, s2) => Some (NUMBER, buf, s2)
  | None => None
  end.

Fixpoint scanStringLiteral_loop (n : nat) (buf : string) (s : Scanner)
  : option (Token * string * Scanner) :=
  match n with
  | O => None
  | S n' =>
      let '(ch, s1) := read s in
      if rune_eqb ch "034" then Some (STRING, buf, s1)
      else if rune_eqb ch eof then Some (ILLEGAL, buf, s1)
      else scanStringLiteral_loop n' (snoc buf ch) s1
  end.

(** [func (s *Scanner) scanStringLiteral() (tok Token, lit string)] *)
Definition scanStringLiteral (s : Scanner) : option (Token * string * Scanner) :=
  scanStringLiteral_loop (rounds s) EmptyString s.

Definition rune_string (ch : ascii) : string := String ch EmptyString.

(** [func (s *Scanner) innerScan() (tok Token, lit string)] *)
Definition innerScan (s : Scanner) : option (Token * string * Scanner) :=
  let '(ch, s1) := read s in
  if isWhitespace ch then scanWhile isWhitespace WS (unread s1)
  else if isLetter ch || rune_eqb ch "_" then scanIdent (unread s1)
  else if isDigit ch then scanNumber (unread s1)
  else if rune_eqb ch eof then Some (EOF, EmptyString, s1)
  else if rune_eqb ch "." then Some (DOT, rune_string ch, s1)
  else if rune_eqb ch "#" then Some (HASH, rune_string ch, s1)
  else if rune_eqb ch ":" then Some (COLON, rune_string ch, s1)
  else if rune_eqb ch "," then Some (COMMA, rune_string ch, s1)
  else if rune_eqb ch "[" then Some (LBRAC, rune_string ch, s1)
  else if rune_eqb ch "]" then Some (RBRAC, rune_string ch, s1)
  else if rune_eqb ch "{" then Some (LBRACE, rune_string ch, s1)
  else if rune_eqb ch "}" then Some (RBRACE, rune_string ch, s1)
  else if rune_eqb ch "(" then Some (LPAREN, rune_string ch, s1)
  else if rune_eqb ch ")" then Some (RPAREN, rune_string ch, s1)
  else if rune_eqb ch "010" then Some (NEWLINE, rune_string ch, s1)
  else if rune_eqb ch "+" then Some (PLUS, rune_string ch, s1)
  else if rune_eqb ch "-" then Some (MINUS, rune_string ch, s1)
  else if rune_eqb ch "*" then Some (TIMES, rune_string ch, s1)
  else if rune_eqb ch "/" then Some (DIVIDE, rune_string ch, s1)
  else if rune_eqb ch "&" then Some (AND, rune_string ch, s1)
  else if rune_eqb ch "|" then Some (OR, rune_string ch, s1)
  else if rune_eqb ch "^" then Some (XOR, rune_string ch, s1)
  else if rune_eqb ch "~" then Some (NOT, rune_string ch, s1)
  else if rune_eqb ch "<" then
    let '(next, s2) := read s1 in
    if rune_eqb next "<" then Some (LANGLES, "<<", s2)
    else Some (ILLEGAL, rune_string ch +:+ rune_string next, s2)
  else if rune_eqb ch ">" then
    let '(next, s2) := read s1 in
    if rune_eqb next ">" then Some (RANGLES, ">>", s2)
    else Some (ILLEGAL, rune_string ch +:+ rune_string next, s2)
  else if rune_eqb ch ";" then
    scanWhile (fun c => negb (rune_eqb c "010")) WS s1
  else if rune_eqb ch "034" then scanStringLiteral s1
  else Some (ILLEGAL, rune_string ch, s1).

(** [func (s *Scanner) Scan() (Token, string)]; its trace output is left out. *)
Definition Scan (s : Scanner) : option (Token * string * Scanner) := innerScan s.

(** ** Expressions and statements (revision B of [ast.go]) *)

Inductive Expression :=
| LabelUse (label : string) (loc : string)
| Constant (cvalue : Z) (loc : string)
| BinExpr (lhs : Expression) (operator : Token) (rhs : Expression)
| UnaryExpr (operator : Token) (expr : Expression).

(** [Evaluate]: the value is a [uint16]; the state is threaded because an
    evaluation may stop the program. *)
Fixpoint Evaluate (e : Expression) : Asm Z :=
  match e with
  | LabelUse label loc =>
      do s <- aget;
      let '(v, _, known) := lookup_name s label in
      if negb known
      then asmError loc "Unknown label '%s'" [FStr label]
      else aret v
  | Constant v _ => aret v
  | BinExpr lhs op rhs =>
      do l <- Evaluate lhs;
      do r <- Evaluate rhs;
      match op with
      | PLUS => aret (u16 (l + r))
      | MINUS => aret (u16 (l - r))
      | TIMES => aret (u16 (l * r))
      | DIVIDE =>
          if r =? 0
          then afail (RuntimePanic "runtime error: integer divide by zero")
          else aret (l / r)
      | AND => aret (Z.land l r)
      | OR => aret (Z.lor l r)
      | XOR => aret (Z.lxor l r)
      | _ => afail (GoPanic "unknown binary operation %s" [FStr (tokenNames op)])
      end
  | UnaryExpr op e' =>
      do v <- Evaluate e';
      match op with
      | PLUS => aret v
      | MINUS => aret (u16 (- v))
      | NOT => aret (Z.lxor 65535 v)
      | _ => afail (GoPanic "unknown unary operation %s" [FStr (tokenNames op)])
      end
  end.

(** [Location()] of an expression. *)
Fixpoint ExprLocation (e : Expression) : string :=
  match e with
  | LabelUse _ loc => loc
  | Constant _ loc => loc
  | BinExpr lhs _ _ => ExprLocation lhs
  | UnaryExpr _ e' => ExprLocation e'
  end.

(** The Go interface [Expression]: both revisions check literals and
    build arguments through it. *)
Class ExpressionI (E : Type) := {
  evaluate : E -> Asm Z;
  location : E -> string
}.

#[export] Instance Expression_I : ExpressionI Expression :=
  {| evaluate := Evaluate; location := ExprLocation |}.

(** [checkLiteral]; the two revisions have the same text.  In
    [value < (1 << width)] and [uint16((1 << width) - 1)] the constant 1
    takes the type [uint16], so the shift is cut to 16 bits. *)
Definition checkLiteral {E} `{ExpressionI E} (expr : E) (signed : bool) (width : Z)
  : Asm Z :=
  do v <- evaluate expr;
  let loc := location expr in
  if negb signed then
    if v <? u16 (Z.shiftl 1 width) then aret v
    else asmError loc "Unsigned literal %d (0x%x) is too big for %d-bit literal"
           [FInt v; FInt v; FInt width]
  else
    let mask := u16 (u16 (Z.shiftl 1 width) - 1) in
    if (Z.lor v mask =? mask) || (Z.lor v mask =? 65535) then aret v
    else asmError loc "Signed literal %d (0x%x) doesn't fit in %d-bit literal"
           [FInt v; FInt v; FInt width].

Inductive ArgKind := AT_REG | AT_PC | AT_SP | AT_RLIST | AT_LABEL | AT_LITERAL.

Definition ArgKind_eqb (a b : ArgKind) : bool :=
  match a, b with
  | AT_REG, AT_REG | AT_PC, AT_PC | AT_SP, AT_SP | AT_RLIST, AT_RLIST
  | AT_LABEL, AT_LABEL | AT_LITERAL, AT_LITERAL => true
  | _, _ => false
  end.

(** [type Arg struct]; the two [Expression] fields may be nil. *)
Record Arg (E : Type) := mkArg {
  kind : ArgKind;
  reg : Z;
  lrpc : bool;
  lit : option E;
  label : option E
}.
Arguments mkArg {E}.
Arguments kind {E}.
Arguments reg {E}.
Arguments lrpc {E}.
Arguments lit {E}.
Arguments label {E}.

(** [uint16] operators as the encoder uses them. *)
Definition shl16 (a n : Z) : Z := u16 (Z.shiftl a n).
Definition neg16 (a : Z) : Z := u16 (- a).
Infix ".|" := Z.lor (at level 50, left associativity).

(** [args[i]]: the Go runtime panics when [i] is out of range. *)
Definition arg_at {E} (args : list (Arg E)) (i : nat) : Asm (Arg E) :=
  match args !! i with
  | Some a => aret a
  | None => afail (RuntimePanic "runtime error: index out of range")
  end.

(** A method call on an interface value that is nil panics. *)
Definition non_nil {E A} (e : option E) (k : E -> Asm A) : Asm A :=
  match e with
  | Some e' => k e'
  | None =>
      afail (RuntimePanic "runtime error: invalid memory address or nil pointer dereference")
  end.

(** [len(args) == n && args[0].kind == k0 && ...] *)
Fixpoint kinds_are {E} (args : list (Arg E)) (ks : list ArgKind) : bool :=
  match args, ks with
  | [], [] => true
  | a :: args', k :: ks' => ArgKind_eqb (kind a) k && kinds_are args' ks'
  | _, _ => false
  end.

(** [func showArg(arg *Arg) string] and [func showArgs(args []*Arg) string] *)
Definition showArg {E} (arg : Arg E) : string :=
  match kind arg with
  | AT_PC => "PC"
  | AT_SP => "SP"
  | AT_REG => "r" +:+ pretty (reg arg)
  | AT_LITERAL => "literal"
  | AT_LABEL => "label"
  | AT_RLIST => "unknown"
  end.

Fixpoint join_with (sep : string) (l : list string) : string :=
  match l with
  | [] => EmptyString
  | [x] => x
  | x :: rest => x +:+ sep +:+ join_with sep rest
  end.

Definition showArgs {E} (args : list (Arg E)) : string :=
  join_with ", " (map showArg args).

(** ** Statements and encoder, revision B *)

Inductive Assembled :=
| Include (filename : string)
| Org (loc : Expression)
| SymbolDef (name : string) (val : Expression)
| DatBlock (values : list Expression)
| FillBlock (length : Expression) (val : Expression)
| LabelDef (label : string)
| Instruction (opcode : string) (args : list (Arg Expression)) (loc : string)
| LoadStore (storing : bool) (dest : Z) (base : Z)
    (preLit : option Expression) (preReg : Z) (postLit : option Expression)
| StackOp (regs : Z) (storing : bool) (lrpc : bool) (base : Z).

Definition riInstructions : list (string * Z) :=
  [("MOV", 1); ("NEG", 2); ("CMP", 3); ("ADD", 4); ("SUB", 5); ("MUL", 6);
   ("LSL", 7); ("LSR", 8); ("ASR", 9); ("AND", 10); ("ORR", 11); ("XOR", 12);
   ("MVH", 15)].
Definition rrrInstructions : list (string * Z) :=
  [("ADD", 1); ("ADC", 2); ("SUB", 3); ("SBC", 4); ("MUL", 5); ("LSL", 6);
   ("LSR", 7); ("ASR", 8); ("AND", 9); ("ORR", 10); ("XOR", 11)].
Definition rrInstructions : list (string * Z) :=
  [("MOV", 1); ("CMP", 2); ("CMN", 3); ("ROR", 4); ("NEG", 5); ("TST", 6);
   ("MVN", 7)].
Definition rInstructions : list (string * Z) :=
  [("BX", 1); ("BLX", 2); ("SWI", 3); ("HWN", 4); ("HWQ", 5); ("HWI", 6);
   ("XSR", 7)].
Definition voidInstructions : list (string * Z) :=
  [("RFI", 0); ("IFS", 1); ("IFC", 2); ("RET", 3); ("POPSP", 4); ("BRK", 5)].
Definition branchInstructions : list (string * Z) :=
  [("B", 0); ("BL", 1); ("BEQ", 2); ("BNE", 3); ("BCS", 4); ("BCC", 5);
   ("BMI", 6); ("BPL", 7); ("BVS", 8); ("BVC", 9); ("BHI", 10); ("BLS", 11);
   ("BGE", 12); ("BLT", 13); ("BGT", 14); ("BLE", 15)].

Definition opRI (loc mnemonic : string) (opcode : Z) (args : list (Arg Expression))
  : Asm unit :=
  if String.eqb mnemonic "MOV" then
    do a1 <- arg_at args 1;
    do v <- non_nil (lit a1) Evaluate;
    if v <=? 255 then
      do a0 <- arg_at args 0;
      push (shl16 opcode 11 .| shl16 (reg a0) 8 .| v)
    else if v >? 65280 then
      do a0 <- arg_at args 0;
      push (4096 .| shl16 (reg a0) 8 .| neg16 v)
    else
      do a0 <- arg_at args 0;
      run push (2048 .| shl16 (reg a0) 8 .| Z.land v 255);
      push (30720 .| shl16 (reg a0) 8 .| Z.shiftr v 8)
  else
    do a1 <- arg_at args 1;
    do v <- non_nil (lit a1) (fun e => checkLiteral e false 8);
    do a0 <- arg_at args 0;
    push (shl16 opcode 11 .| shl16 (reg a0) 8 .| v).

Definition opRRR (loc mnemonic : string) (opcode : Z) (args : list (Arg Expression))
  : Asm unit :=
  do a2 <- arg_at args 2;
  do a1 <- arg_at args 1;
  do a0 <- arg_at args 0;
  push (32768 .| shl16 opcode 9 .| shl16 (reg a2) 6 .| shl16 (reg a1) 3 .| reg a0).

Definition opRR (loc mnemonic : string) (opcode : Z) (args : list (Arg Expression))
  : Asm unit :=
  do a1 <- arg_at args 1;
  do a0 <- arg_at args 0;
  push (32768 .| shl16 opcode 6 .| shl16 (reg a1) 3 .| reg a0).

Definition opR (loc mnemonic : string) (opcode : Z) (args : list (Arg Expression))
  : Asm unit :=
  do a0 <- arg_at args 0;
  push (32768 .| shl16 opcode 3 .| reg a0).

Definition opVoid (loc mnemonic : string) (opcode : Z) : Asm unit :=
  push (32768 .| opcode).

Definition opBranch (loc mnemonic : string) (opcode : Z) (args : list (Arg Expression))
  : Asm unit :=
  do a0 <- arg_at args 0;
  do target <- non_nil (label a0) Evaluate;
  do s <- aget;
  let diff := u16 (target - u16 (index s + 1)) in
  if negb (diff =? 65535) && ((diff <? 256) || (neg16 diff <=? 256)) then
    push (40960 .| shl16 opcode 9 .| Z.land diff 511)
  else
    run push (40960 .| shl16 opcode 9 .| 511);
    push target.

Definition opAddSub (loc mnemonic : string) (args : list (Arg Expression)) : Asm unit :=
  if kinds_are args [AT_REG; AT_LITERAL] then
    let opcode := if String.eqb mnemonic "SUB" then 5 else 4 in
    opRI loc mnemonic opcode args
  else if kinds_are args [AT_REG; AT_REG; AT_REG] then
    let opcode := if String.eqb mnemonic "SUB" then 3 else 1 in
    opRRR loc mnemonic opcode args
  else if String.eqb mnemonic "ADD" && kinds_are args [AT_REG; AT_PC; AT_LITERAL] then
    do a2 <- arg_at args 2;
    do v <- non_nil (lit a2) (fun e => checkLiteral e false 8);
    do a0 <- arg_at args 0;
    push (shl16 13 11 .| shl16 (reg a0) 8 .| v)
  else if String.eqb mnemonic "ADD" && kinds_are args [AT_REG; AT_SP; AT_LITERAL] then
    do a2 <- arg_at args 2;
    do v <- non_nil (lit a2) (fun e => checkLiteral e false 8);
    do a0 <- arg_at args 0;
    push (shl16 14 11 .| shl16 (reg a0) 8 .| v)
  else if kinds_are args [AT_SP; AT_LITERAL] then
    do a1 <- arg_at args 1;
    do v <- non_nil (lit a1) (fun e => checkLiteral e false 8);
    let opcode := if String.eqb mnemonic "SUB" then 1 else 0 in
    push (shl16 opcode 8 .| v)
  else
    asmError loc "Unrecognized arguments to %s: %s" [FStr mnemonic; FStr (showArgs args)].

Definition opSWI (loc mnemonic : string) (args : list (Arg Expression)) : Asm unit :=
  if kinds_are args [AT_REG] then
    do a0 <- arg_at args 0;
    push (32792 .| reg a0)
  else if kinds_are args [AT_LITERAL] then
    do a0 <- arg_at args 0;
    do v <- non_nil (lit a0) (fun e => checkLiteral e false 8);
    push (512 .| v)
  else
    asmError loc "Invalid arguments to SWI: %s" [FStr (showArgs args)].

Definition specialInstructions
  : list (string * (string -> string -> list (Arg Expression) -> Asm unit)) :=
  [("ADD", opAddSub); ("SUB", opAddSub); ("SWI", opSWI)].

(** One arm of the dispatch: [if n, ok := table[opcode]; ok && <shape>]. *)
Definition table_arm {V} (tbl : list (string * V)) (opcode : string)
  (args : list (Arg Expression)) (ks : list ArgKind) (k : V -> Asm unit)
  : option (Asm unit) :=
  match table_get tbl opcode with
  | Some n => if kinds_are args ks then Some (k n) else None
  | None => None
  end.

(** [func (op *Instruction) Assemble(s *AssemblyState)] *)
Definition Instruction_Assemble (opcode : string) (args : list (Arg Expression))
  (loc : string) : Asm unit :=
  match table_arm rrrInstructions opcode args [AT_REG; AT_REG; AT_REG]
          (fun n => opRRR loc opcode n args) with
  | Some m => m
  | None =>
  match table_arm rrInstructions opcode args [AT_REG; AT_REG]
          (fun n => opRR loc opcode n args) with
  | Some m => m
  | None =>
  match table_arm rInstructions opcode args [AT_REG]
          (fun n => opR loc opcode n args) with
  | Some m => m
  | None =>
  match table_arm voidInstructions opcode args []
          (fun n => opVoid loc opcode n) with
  | Some m => m
  | None =>
  match table_arm riInstructions opcode args [AT_REG; AT_LITERAL]
          (fun n => opRI loc opcode n args) with
  | Some m => m
  | None =>
  match table_arm branchInstructions opcode args [AT_LABEL]
          (fun n => opBranch loc opcode n args) with
  | Some m => m
  | None =>
  match table_get specialInstructions opcode with
  | Some f => f loc opcode args
  | None => asmError loc "Unrecognized opcode: %s" [FStr opcode]
  end end end end end end end.

(** [func (op *LoadStore) Assemble(s *AssemblyState)] *)
Definition LoadStore_Assemble (storing : bool) (dest base : Z)
  (preLit : option Expression) (preReg : Z) (postLit : option Expression)
  : Asm unit :=
  if base =? 65535 then
    do off <- match preLit with
              | Some e => checkLiteral e false 4
              | None => aret 0
              end;
    let opcode := if storing then 7 else 6 in
    push (49152 .| shl16 opcode 10 .| shl16 dest 7 .| off)
  else if negb (preReg =? 65535) then
    let opcode := if storing then 5 else 4 in
    push (49152 .| shl16 opcode 10 .| shl16 dest 7 .| shl16 base 4 .| preReg)
  else
    match preLit with
    | Some e =>
        let opcode := if storing then 3 else 2 in
        do v <- checkLiteral e false 4;
        push (49152 .| shl16 opcode 10 .| shl16 dest 7 .| shl16 base 4 .| v)
    | None =>
        let opcode := if storing then 1 else 0 in
        do v <- match postLit with
                | Some e => checkLiteral e false 4
                | None => aret 0
                end;
        push (49152 .| shl16 opcode 10 .| shl16 dest 7 .| shl16 base 4 .| v)
    end.

(** [func (op *StackOp) Assemble(s *AssemblyState)] *)
Definition StackOp_Assemble (regs : Z) (storing lrpc : bool) (base : Z) : Asm unit :=
  if base =? 65535 then
    let opcode := if storing then 1 else 0 in
    let lrpcBit := if negb lrpc then 0 else 256 in
    push (57344 .| shl16 opcode 11 .| lrpcBit .| regs)
  else
    let opcode := if storing then 3 else 2 in
    push (57344 .| shl16 opcode 11 .| regs .| shl16 base 8).

(** [for i := uint16(0); i < len; i++ { s.push(val) }] *)
Fixpoint push_times (n : nat) (val : Z) : Asm unit :=
  match n with
  | O => aret tt
  | S n' => run push val; push_times n' val
  end.

(** [for _, v := range b.values { s.push(v.Evaluate(s)) }] *)
Fixpoint push_values (values : list Expression) : Asm unit :=
  match values with
  | [] => aret tt
  | v :: rest => do x <- Evaluate v; run push x; push_values rest
  end.

(** [Assemble], the one method of the Go interface [Assembled]. *)
Definition Assemble (l : Assembled) : Asm unit :=
  match l with
  | Include _ => afail (GoPanic "can't happen! Include survived to assembly time" [])
  | Org loc => do a <- Evaluate loc; amodify (set_index a)
  | SymbolDef name val => do v <- Evaluate val; updateSymbol name v
  | DatBlock values => push_values values
  | FillBlock length val =>
      do len <- Evaluate length;
      do v <- Evaluate val;
      push_times (Z.to_nat len) v
  | LabelDef label => do s <- aget; updateLabel label (index s)
  | Instruction opcode args loc => Instruction_Assemble opcode args loc
  | LoadStore storing dest base preLit preReg postLit =>
      LoadStore_Assemble storing dest base preLit preReg postLit
  | StackOp regs storing lrpc base => StackOp_Assemble regs storing lrpc base
  end.

(** [for _, l := range ast.Lines { l.Assemble(s) }] *)
Fixpoint assemble_lines (lines : list Assembled) : Asm unit :=
  match lines with
  | [] => aret tt
  | l :: rest => run Assemble l; assemble_lines rest
  end.

(** ** The pass driver ([main.go]) *)

(** The label pre-collection: [s.addLabel] for every [*LabelDef]. *)
Fixpoint collect_labels (lines : list Assembled) (s : AssemblyState) : AssemblyState :=
  match lines with
  | [] => s
  | LabelDef l :: rest => collect_labels rest (addLabel l s)
  | _ :: rest => collect_labels rest s
  end.

(** One round of [for s.dirty || !s.resolved { s.reset(); ... }]. *)
Definition one_pass (lines : list Assembled) (s : AssemblyState) : outcome unit :=
  assemble_lines lines (reset s).

Inductive run_result :=
| Finished (s : AssemblyState)
| Failed (f : failure)
| StillRunning (s : AssemblyState).

(** The loop itself has no bound; [fuel] is the number of times its
    condition is tested before the model gives up with [StillRunning]. *)
Fixpoint main_loop (fuel : nat) (lines : list Assembled) (s : AssemblyState)
  : run_result :=
  match fuel with
  | O => StillRunning s
  | S fuel' =>
      if dirty s || negb (resolved s) then
        match one_pass lines s with
        | Done _ s' => main_loop fuel' lines s'
        | Abort f => Failed f
        end
      else Finished s
  end.

(** The state on entry to the loop: a new state with an empty label map,
    reset, the labels collected, and [dirty] set. *)
Definition initial_state (lines : list Assembled) : AssemblyState :=
  set_dirty true (collect_labels lines (reset new_state)).

Definition assemble_program (fuel : nat) (lines : list Assembled) : run_result :=
  main_loop fuel lines (initial_state lines).

(** The state after [n] passes that all completed. *)
Fixpoint after_passes (n : nat) (lines : list Assembled) (s : AssemblyState)
  : option AssemblyState :=
  match n with
  | O => Some s
  | S n' =>
      match one_pass lines s with
      | Done _ s' => after_passes n' lines s'
      | Abort _ => None
      end
  end.

(** ** Parser, revision B of [parser.go] *)

Inductive perror :=
| Errorf (msg : string) (args : list perr_arg)
with perr_arg :=
| PStr (s : string)
| PInt (n : Z)
| PErr (e : perror).

Record Parser := mkParser {
  sc : Scanner;
  buf_tok : Token;
  buf_lit : string;
  buf_n : Z
}.

(** [func NewParser(filename string, r io.Reader) *Parser] *)
Definition NewParser (filename text : string) : Parser :=
  mkParser (NewScanner filename text) ILLEGAL EmptyString 0.

(** A parser action returns a value or an [error] and leaves the parser
    changed either way; [Timeout] is the model running out of fuel. *)
Inductive res (A : Type) :=
| Ret (a : A)
| Raise (e : perror)
| Timeout.
Arguments Ret {A} a.
Arguments Raise {A} e.
Arguments Timeout {A}.

Definition PM (A : Type) : Type := Parser -> res A * Parser.

Definition pret {A} (a : A) : PM A := fun p => (Ret a, p).
Definition praise {A} (e : perror) : PM A := fun p => (Raise e, p).
Definition ptimeout {A} : PM A := fun p => (Timeout, p).
Definition pbind {A B} (m : PM A) (k : A -> PM B) : PM B :=
  fun p => match m p with
           | (Ret a, p') => k a p'
           | (Raise e, p') => (Raise e, p')
           | (Timeout, p') => (Timeout, p')
           end.
(** [x, err := m(); if err != nil { ... } else { ... }] *)
Definition ptry {A B} (m : PM A) (k : perror + A -> PM B) : PM B :=
  fun p => match m p with
           | (Ret a, p') => k (inr a) p'
           | (Raise e, p') => k (inl e) p'
           | (Timeout, p') => (Timeout, p')
           end.
Definition pget : PM Parser := fun p => (Ret p, p).

Notation "'dop' x <- m ; k" := (pbind m (fun x => k))
  (at level 10, x name, m at level 99, k at level 200).
Notation "'dop' ' pat <- m ; k" := (pbind m (fun x => match x with pat => k end))
  (at level 10, pat pattern, m at level 99, k at level 200).
Notation "'runp' m ; k" := (pbind m (fun _ => k))
  (at level 10, m at level 99, k at level 200).

(** [func (p *Parser) scan() (Token, string)] *)
Definition scan : PM (Token * string) :=
  fun p =>
    if negb (buf_n p =? 0)
    then (Ret (buf_tok p, buf_lit p), mkParser (sc p) (buf_tok p) (buf_lit p) 0)
    else
      match Scan (sc p) with
      | Some (tok, lit, s') => (Ret (tok, lit), mkParser s' tok lit (buf_n p))
      | None => (Timeout, p)
      end.

(** [func (p *Parser) unscan()] *)
Definition unscan : PM unit :=
  fun p => (Ret tt, mkParser (sc p) (buf_tok p) (buf_lit p) 1).

Fixpoint skip_ws (n : nat) (tok : Token) (lit : string) : PM (Token * string) :=
  match n with
  | O => ptimeout
  | S n' =>
      if Token_eqb tok WS
      then dop '(tok', lit') <- scan; skip_ws n' tok' lit'
      else pret (tok, lit)
  end.

(** [func (p *Parser) scanIgnoreWhitespace() (Token, string)]: every
    round of [for tok == WS] has read at least one rune. *)
Definition scanIgnoreWhitespace : PM (Token * string) :=
  dop '(tok, lit) <- scan;
  dop p <- pget;
  skip_ws (S (rounds (sc p))) tok lit.

(** [p.s.Location()] *)
Definition here : PM string := fun p => (Ret (Location (sc p)), p).

(** [func (p *Parser) wrapError(e error) error] *)
Definition wrapError {A} (e : perror) : PM A :=
  dop loc <- here;
  praise (Errorf "Parse error at %s   %v" [PStr loc; PErr e]).

(** [func (p *Parser) consume(t Token) bool] *)
Definition consume (t : Token) : PM bool :=
  dop '(tok, _) <- scanIgnoreWhitespace;
  if negb (Token_eqb tok t)
  then runp unscan; pret false
  else pret true.

(** [func (p *Parser) consumeComma() bool] *)
Definition consumeComma : PM bool := consume COMMA.

(** *** Number conversion ([strconv])

    [strconv.ParseInt(lit, 0, 0)] and [strconv.Atoi] on the texts the
    scanner hands over: no sign and no underscore.  With base 0 the
    prefix picks the base ([0x] 16, [0b] 2, [0o] 8, a leading [0] 8, else
    10); [int] has 64 bits. *)

Definition rune_lower (ch : ascii) : ascii :=
  if rune_between "A" "Z" ch then ascii_of_N (N_of_ascii ch + 32) else ch.

Definition digit_value (ch : ascii) : option Z :=
  if rune_between "0" "9" ch then Some (Z.of_N (N_of_ascii ch) - 48)
  else if rune_between "a" "z" (rune_lower ch)
  then Some (Z.of_N (N_of_ascii (rune_lower ch)) - 97 + 10)
  else None.

Inductive num_error := ErrSyntax | ErrRange.

Fixpoint parse_digits (base : Z) (t : string) (n : Z) : num_error + Z :=
  match t with
  | EmptyString => inr n
  | String ch rest =>
      match digit_value ch with
      | Some d =>
          if base <=? d then inl ErrSyntax
          else if 18446744073709551615 <? n * base + d then inl ErrRange
          else parse_digits base rest (n * base + d)
      | None => inl ErrSyntax
      end
  end.

Definition ParseUint0 (t : string) : num_error + Z :=
  match t with
  | EmptyString => inl ErrSyntax
  | String c0 rest =>
      if rune_eqb c0 "0" then
        match rest with
        | String c1 (String c2 rest2) =>
            if rune_eqb (rune_lower c1) "b" then parse_digits 2 (String c2 rest2) 0
            else if rune_eqb (rune_lower c1) "o" then parse_digits 8 (String c2 rest2) 0
            else if rune_eqb (rune_lower c1) "x" then parse_digits 16 (String c2 rest2) 0
            else parse_digits 8 rest 0
        | _ => parse_digits 8 rest 0
        end
      else parse_digits 10 t 0
  end.

Definition num_error_text (e : num_error) : string :=
  match e with
  | ErrSyntax => "invalid syntax"
  | ErrRange => "value out of range"
  end.

Definition ParseInt0 (t : string) : perror + Z :=
  match ParseUint0 t with
  | inl e =>
      inl (Errorf "strconv.ParseInt: parsing %q: %s" [PStr t; PStr (num_error_text e)])
  | inr n =>
      if 9223372036854775808 <=? n
      then inl (Errorf "strconv.ParseInt: parsing %q: %s"
                  [PStr t; PStr (num_error_text ErrRange)])
      else inr n
  end.

Definition Atoi (t : string) : perror + Z :=
  match t with
  | EmptyString =>
      inl (Errorf "strconv.Atoi: parsing %q: %s" [PStr t; PStr (num_error_text ErrSyntax)])
  | _ =>
      match parse_digits 10 t 0 with
      | inr n =>
          if 9223372036854775808 <=? n
          then inl (Errorf "strconv.Atoi: parsing %q: %s"
                      [PStr t; PStr (num_error_text ErrRange)])
          else inr n
      | inl e =>
          inl (Errorf "strconv.Atoi: parsing %q: %s" [PStr t; PStr (num_error_text e)])
      end
  end.

(** *** Expressions *)

Fixpoint chain_loop (fuel : nat) (parseSubExpr : PM Expression)
  (parseOperator : PM Token) (exprs : list Expression) (ops : list Token)
  : PM (list Expression * list Token) :=
  match fuel with
  | O => ptimeout
  | S fuel' =>
      ptry parseSubExpr (fun r =>
        match r with
        | inl _ => pret (exprs, ops)
        | inr e =>
            ptry parseOperator (fun r' =>
              match r' with
              | inl _ => pret ((exprs ++ [e])%list, ops)
              | inr op => chain_loop fuel' parseSubExpr parseOperator
                            (exprs ++ [e])%list (ops ++ [op])%list
              end)
        end)
  end.

(** [final := exprs[0]; for i, op := range ops { final = &BinExpr{final, op, exprs[i+1]} }] *)
Fixpoint reduce_left (final : Expression) (ops : list Token) (rest : list Expression)
  : Expression :=
  match ops, rest with
  | op :: ops', e :: rest' => reduce_left (BinExpr final op e) ops' rest'
  | _, _ => final
  end.

(** [func (p *Parser) parseOperatorChain(parseSubExpr, parseOperator)] *)
Definition parseOperatorChain (fuel : nat) (parseSubExpr : PM Expression)
  (parseOperator : PM Token) : PM Expression :=
  dop '(exprs, ops) <- chain_loop fuel parseSubExpr parseOperator [] [];
  match exprs with
  | e0 :: rest =>
      if (length rest =? length ops)%nat then pret (reduce_left e0 ops rest)
      else
        dop loc <- here;
        praise (Errorf "Mismatched operation chain: %d expressions and %d operations; at %s"
                  [PInt (Z.of_nat (length exprs)); PInt (Z.of_nat (length ops)); PStr loc])
  | [] =>
      dop loc <- here;
      praise (Errorf "Mismatched operation chain: %d expressions and %d operations; at %s"
                [PInt 0; PInt (Z.of_nat (length ops)); PStr loc])
  end.

(** [func parseAddOp(p *Parser) (Token, error)] *)
Definition parseAddOp : PM Token :=
  dop '(tok, _) <- scanIgnoreWhitespace;
  match tok with
  | PLUS | MINUS | OR | XOR => pret tok
  | _ =>
      runp unscan;
      dop loc <- here;
      praise (Errorf "Found non-additive operator %s at %s" [PStr (tokenNames tok); PStr loc])
  end.

(** [func parseMulOp(p *Parser) (Token, error)] *)
Definition parseMulOp : PM Token :=
  dop '(tok, _) <- scanIgnoreWhitespace;
  match tok with
  | TIMES | DIVIDE | AND => pret tok
  | _ =>
      runp unscan;
      dop loc <- here;
      praise (Errorf "Found non-multiplicative operator %s at %s"
                [PStr (tokenNames tok); PStr loc])
  end.

Fixpoint unary_ops (fuel : nat) (ops : list Token) : PM (list Token) :=
  match fuel with
  | O => ptimeout
  | S fuel' =>
      dop '(tok, _) <- scanIgnoreWhitespace;
      match tok with
      | PLUS | MINUS | NOT => unary_ops fuel' (ops ++ [tok])%list
      | _ => runp unscan; pret ops
      end
  end.

Section Bracketed.
(** The call of [parseSimpleExpr] for a bracketed subexpression. *)
Variable parseBracketed : PM Expression.

Definition parseTerm_in : PM Expression :=
  dop loc <- here;
  dop '(tok, lit) <- scanIgnoreWhitespace;
  match tok with
  | IDENT => pret (LabelUse lit loc)
  | NUMBER =>
      match ParseInt0 lit with
      | inl err => praise err
      | inr n => pret (Constant (u16 n) loc)
      end
  | LPAREN =>
      ptry parseBracketed (fun r =>
        match r with
        | inl err =>
            praise (Errorf "Error parsing bracketed subexpression: %v" [PErr err])
        | inr subexpr =>
            dop '(tok', lit') <- scanIgnoreWhitespace;
            if negb (Token_eqb tok' RPAREN)
            then praise (Errorf
                   "Failed to parse bracketed subexpression: expected ) but found %s '%s'"
                   [PStr (tokenNames tok'); PStr lit'])
            else pret subexpr
        end)
  | _ =>
      runp unscan;
      praise (Errorf "Found %s while parsing expression" [PStr (tokenNames tok)])
  end.

Definition parseUnaryExpr_in (fuel : nat) : PM Expression :=
  dop ops <- unary_ops fuel [];
  dop e <- parseTerm_in;
  pret (fold_right UnaryExpr e ops).

Definition parseMulExpr_in (fuel : nat) : PM Expression :=
  parseOperatorChain fuel (parseUnaryExpr_in fuel) parseMulOp.
End Bracketed.

(** [func (p *Parser) parseSimpleExpr() (Expression, error)]; the fuel
    bounds the nesting of brackets and the rounds of every loop. *)
Fixpoint parseSimpleExpr (fuel : nat) : PM Expression :=
  match fuel with
  | O => ptimeout
  | S fuel' =>
      parseOperatorChain fuel (parseMulExpr_in (parseSimpleExpr fuel') fuel) parseAddOp
  end.

(** [func (p *Parser) parseTerm() (Expression, error)] *)
Definition parseTerm (fuel : nat) : PM Expression := parseTerm_in (parseSimpleExpr fuel).
(** [func parseUnaryExpr(p *Parser) (Expression, error)] *)
Definition parseUnaryExpr (fuel : nat) : PM Expression :=
  parseUnaryExpr_in (parseSimpleExpr fuel) fuel.
(** [func parseMulExpr(p *Parser) (Expression, error)] *)
Definition parseMulExpr (fuel : nat) : PM Expression :=
  parseMulExpr_in (parseSimpleExpr fuel) fuel.

(** *** Expression lists and directives *)

Fixpoint string_constants (t : string) (loc : string) : list Expression :=
  match t with
  | EmptyString => []
  | String ch rest => Constant (u16 (Z.of_N (N_of_ascii ch))) loc :: string_constants rest loc
  end.

(** [func (p *Parser) parseExpr() ([]Expression, error)] *)
Definition parseExpr (fuel : nat) : PM (list Expression) :=
  dop loc <- here;
  dop '(tok, lit) <- scanIgnoreWhitespace;
  if Token_eqb tok STRING then pret (string_constants lit loc)
  else
    runp unscan;
    dop expr <- parseSimpleExpr fuel;
    pret [expr].

Fixpoint exprList_loop (fuel : nat) (allowStringLiterals : bool) (buf : list Expression)
  : PM (list Expression) :=
  match fuel with
  | O => ptimeout
  | S fuel' =>
      dop buf' <- (if allowStringLiterals
                   then dop exprs <- parseExpr fuel; pret (buf ++ exprs)%list
                   else dop expr <- parseSimpleExpr fuel; pret (buf ++ [expr])%list);
      dop more <- consumeComma;
      if negb more then pret buf' else exprList_loop fuel' allowStringLiterals buf'
  end.

(** [func (p *Parser) parseExprList(allowStringLiterals bool) ([]Expression, error)] *)
Definition parseExprList (fuel : nat) (allowStringLiterals : bool) : PM (list Expression) :=
  dop buf <- exprList_loop fuel allowStringLiterals [];
  match buf with
  | [] => praise (Errorf "Empty expression list" [])
  | _ => pret buf
  end.

(** [if !p.consume(NEWLINE) { ...; return nil, fmt.Errorf(msg, ...) }] *)
Definition expect_newline (msg : string) : PM unit :=
  dop ok <- consume NEWLINE;
  if negb ok then
    dop '(t, lit) <- scanIgnoreWhitespace;
    praise (Errorf msg [PStr (tokenNames t); PStr lit])
  else pret tt.

(** [x, err := m(); if err != nil { return nil, fmt.Errorf(msg, err) }] *)
Definition or_wrap {A} (m : PM A) (msg : string) : PM A :=
  ptry m (fun r =>
    match r with
    | inl err => praise (Errorf msg [PErr err])
    | inr a => pret a
    end).

(** [func (p *Parser) parseDirective() (Assembled, error)] *)
Definition parseDirective (fuel : nat) : PM Assembled :=
  dop '(dir, lit) <- scan;
  if negb (Token_eqb dir IDENT) then
    praise (Errorf "Expected directive command after dot, but found %s"
              [PStr (tokenNames dir)])
  else
    let name := ToUpper lit in
    if String.eqb name "DAT" then
      dop args <- or_wrap (parseExprList fuel true) "Failed to parse .DAT values: %v";
      runp expect_newline "Unexpected %s '%s' at end of DAT";
      pret (DatBlock args)
    else if String.eqb name "ORG" then
      dop expr <- or_wrap (parseSimpleExpr fuel) "Bad expression for .ORG: %v";
      runp expect_newline "Unexpected %s '%s' at end of ORG";
      pret (Org expr)
    else if String.eqb name "FILL" then
      dop values <- or_wrap (parseExprList fuel false) "Failed to parse .FILL arguments: %v";
      match values with
      | [v0; v1] =>
          runp expect_newline "Unexpected %s '%s' at end of FILL";
          pret (FillBlock v1 v0)
      | _ =>
          praise (Errorf ".FILL requires two arguments, found %d"
                    [PInt (Z.of_nat (length values))])
      end
    else if String.eqb name "RESERVE" then
      dop loc <- here;
      dop expr <- or_wrap (parseSimpleExpr fuel) "Bad expression for .RESERVE: %v";
      runp expect_newline "Unexpected %s '%s' at end of RESERVE";
      pret (FillBlock (Constant 0 loc) expr)
    else if String.eqb name "DEFINE" then
      dop '(t, lit') <- scanIgnoreWhitespace;
      if negb (Token_eqb t IDENT) then
        praise (Errorf ".DEFINE's first argument must be an identifier; found %s"
                  [PStr (tokenNames t)])
      else
        dop comma <- consumeComma;
        if negb comma then praise (Errorf "No comma after .DEFINE identifier" [])
        else
          dop expr <- or_wrap (parseSimpleExpr fuel) "Bad expression for .DEFINE: %v";
          runp expect_newline "Unexpected %s '%s' at end of DEFINE";
          pret (SymbolDef lit' expr)
    else praise (Errorf "Unknown directive: %s" [PStr lit]).

(** *** Instructions *)

(** [func (p *Parser) parseReg() (uint16, error)] *)
Definition parseReg : PM Z :=
  dop '(t, lit) <- scanIgnoreWhitespace;
  if Token_eqb t REGISTER then
    match Atoi (match lit with String _ rest => rest | EmptyString => EmptyString end) with
    | inl _ => praise (Errorf "Failed to parse number in register: %s" [PStr lit])
    | inr r => pret (u16 r)
    end
  else
    runp unscan;
    praise (Errorf "Expected register, but found %s" [PStr (tokenNames t)]).

(** [func (p *Parser) parseLiteral() (Expression, error)] *)
Definition parseLiteral (fuel : nat) : PM Expression :=
  dop ok <- consume HASH;
  if negb ok then praise (Errorf "Failed to parse # for literal" [])
  else parseSimpleExpr fuel.

Definition reg_arg (r : Z) : Arg Expression := mkArg AT_REG r false None None.
Definition lit_arg (e : Expression) : Arg Expression := mkArg AT_LITERAL 0 false (Some e) None.
Definition label_arg (e : Expression) : Arg Expression := mkArg AT_LABEL 0 false None (Some e).
Definition kind_arg (k : ArgKind) : Arg Expression := mkArg k 0 false None None.

(** The first three attempts of a round of [parseArgList]: a register,
    a literal, an expression; [None] when all three failed. *)
Definition parseArg_attempts (fuel : nat) : PM (option (Arg Expression)) :=
  ptry parseReg (fun r =>
    match r with
    | inr n => pret (Some (reg_arg n))
    | inl _ =>
        ptry (parseLiteral fuel) (fun r' =>
          match r' with
          | inr e => pret (Some (lit_arg e))
          | inl _ =>
              ptry (parseSimpleExpr fuel) (fun r'' =>
                match r'' with
                | inr e => pret (Some (label_arg e))
                | inl _ => pret None
                end)
          end)
    end).

Fixpoint argList_loop (fuel : nat) (args : list (Arg Expression))
  : PM (list (Arg Expression)) :=
  match fuel with
  | O => ptimeout
  | S fuel' =>
      (* the separator after an argument *)
      let after (args' : list (Arg Expression)) : PM (list (Arg Expression)) :=
        dop '(t, _) <- scanIgnoreWhitespace;
        if Token_eqb t NEWLINE || Token_eqb t EOF then pret args'
        else if negb (Token_eqb t COMMA) then
          praise (Errorf "Expected comma or end of arg list, but found %s"
                    [PStr (tokenNames t)])
        else argList_loop fuel' args' in
      dop found <- parseArg_attempts fuel;
      match found with
      | Some a => after (args ++ [a])%list
      | None =>
          dop '(t, _) <- scanIgnoreWhitespace;
          if Token_eqb t PC then after (args ++ [kind_arg AT_PC])%list
          else if Token_eqb t SP then after (args ++ [kind_arg AT_SP])%list
          else if Token_eqb t NEWLINE || Token_eqb t EOF then pret args
          else praise (Errorf "Expected argument, but found %s" [PStr (tokenNames t)])
      end
  end.

(** [func (p *Parser) parseArgList(opcode string) ([]*Arg, error)] *)
Definition parseArgList (fuel : nat) (opcode : string) : PM (list (Arg Expression)) :=
  argList_loop fuel [].

Fixpoint rlist_loop (fuel : nat) (opcode : string) (pclrAllowed : bool)
  (regs : Z) (pclr : bool) : PM (Z * bool) :=
  match fuel with
  | O => ptimeout
  | S fuel' =>
      (* the comma or closing brace after an entry *)
      let after (regs' : Z) (pclr' : bool) : PM (Z * bool) :=
        dop '(t, lit) <- scanIgnoreWhitespace;
        if Token_eqb t RBRACE then pret (regs', pclr')
        else if Token_eqb t COMMA then rlist_loop fuel' opcode pclrAllowed regs' pclr'
        else praise (Errorf "Expected comma or } in register list, but found %s '%s'"
                       [PStr (tokenNames t); PStr lit]) in
      dop '(t, _) <- scanIgnoreWhitespace;
      match t with
      | REGISTER =>
          runp unscan;
          ptry parseReg (fun r =>
            match r with
            | inr n => if (0 <=? n) && (n <? 8)
                       then after (regs .| shl16 1 n) pclr
                       else after regs pclr
            | inl _ => after regs pclr
            end)
      | PC =>
          if negb pclrAllowed || negb (String.eqb opcode "POP")
          then praise (Errorf "Found PC, but PC is only allowed on POP" [])
          else after regs true
      | LR =>
          if negb pclrAllowed || negb (String.eqb opcode "PUSH")
          then praise (Errorf "Found LR, but LR is only allowed on POP" [])
          else after regs true
      | _ => after regs pclr
      end
  end.

(** [func (p *Parser) parseRlist(opcode string, pclrAllowed bool) (uint16, bool, error)] *)
Definition parseRlist (fuel : nat) (opcode : string) (pclrAllowed : bool) : PM (Z * bool) :=
  dop ok <- consume LBRACE;
  if negb ok then praise (Errorf "Could not parse Rlist" [])
  else rlist_loop fuel opcode pclrAllowed 0 false.

(** [func (p *Parser) parsePushPop(opcode string) (Assembled, error)] *)
Definition parsePushPop (fuel : nat) (opcode : string) : PM Assembled :=
  ptry (parseRlist fuel opcode true) (fun r =>
    match r with
    | inl err =>
        praise (Errorf "Error parsing register list for %s: %v" [PStr opcode; PErr err])
    | inr (regs, lrpc) =>
        dop '(t, _) <- scanIgnoreWhitespace;
        if negb (Token_eqb t NEWLINE)
        then praise (Errorf "Unexpected %s at end of %s" [PStr (tokenNames t); PStr opcode])
        else pret (StackOp regs (String.eqb opcode "PUSH") lrpc 65535)
    end).

(** [func (p *Parser) parseMultiStoreLoad(opcode string) (Assembled, error)] *)
Definition parseMultiStoreLoad (fuel : nat) (opcode : string) : PM Assembled :=
  ptry parseReg (fun r =>
    match r with
    | inl err =>
        praise (Errorf "Failed to parse base register of %s: %v" [PStr opcode; PErr err])
    | inr base =>
        dop comma <- consumeComma;
        if negb comma then
          dop '(t, _) <- scanIgnoreWhitespace;
          praise (Errorf "Expected comma and register list for %s, but found %s"
                    [PStr opcode; PStr (tokenNames t)])
        else
          ptry (parseRlist fuel opcode false) (fun r' =>
            match r' with
            | inl err =>
                praise (Errorf "Error parsing register list for %s: %v"
                          [PStr opcode; PErr err])
            | inr (regs, lrpc) =>
                if lrpc then
                  praise (Errorf "LR and PC not allowed in register list for %s"
                            [PStr opcode])
                else
                  dop '(t, _) <- scanIgnoreWhitespace;
                  if negb (Token_eqb t NEWLINE)
                  then praise (Errorf "Unexpected %s at end of line"
                                 [PStr (tokenNames t); PStr opcode])
                  else pret (StackOp regs (String.eqb opcode "STMIA") false base)
            end)
    end).

(** [func (p *Parser) parseLoadStore(opcode string) (Assembled, error)] *)
Definition parseLoadStore (fuel : nat) (opcode : string) : PM Assembled :=
  ptry parseReg (fun r =>
    match r with
    | inl err =>
        praise (Errorf "Expected source/destination register for %s: %v"
                  [PStr opcode; PErr err])
    | inr dest =>
        dop comma <- consumeComma;
        if negb comma then
          dop '(t, _) <- scanIgnoreWhitespace;
          praise (Errorf "Couldn't find comma in %s, found %s"
                    [PStr opcode; PStr (tokenNames t)])
        else
        dop lbrac <- consume LBRAC;
        if negb lbrac then
          dop '(t, _) <- scanIgnoreWhitespace;
          praise (Errorf "Expected [ in %s, but found %s" [PStr opcode; PStr (tokenNames t)])
        else
        dop '(t, _) <- scanIgnoreWhitespace;
        if Token_eqb t PC || Token_eqb t SP then
          dop comma' <- consumeComma;
          if negb comma' then
            dop '(t', _) <- scanIgnoreWhitespace;
            praise (Errorf "Expected comma in %s, but found %s"
                      [PStr opcode; PStr (tokenNames t')])
          else
          ptry (parseLiteral fuel) (fun r' =>
            match r' with
            | inl err =>
                praise (Errorf "Error parsing literal offset in %s: %v"
                          [PStr opcode; PErr err])
            | inr lit =>
                dop rbrac <- consume RBRAC;
                if negb rbrac then
                  dop '(t', _) <- scanIgnoreWhitespace;
                  praise (Errorf "Expected ] in %s, but found %s"
                            [PStr opcode; PStr (tokenNames t')])
                else
                dop nl <- consume NEWLINE;
                if negb nl then
                  dop '(t', _) <- scanIgnoreWhitespace;
                  praise (Errorf "Unexpected %s at end of %s"
                            [PStr (tokenNames t'); PStr opcode])
                else
                pret (LoadStore (String.eqb opcode "STR") dest 65535 (Some lit) 65535 None)
            end)
        else
          runp unscan;
          ptry parseReg (fun rb =>
            let base := match rb with inr b => b | inl _ => 0 end in
            (* what follows the closing bracket *)
            let tail (preLit : option Expression) (preReg : Z) : PM Assembled :=
              dop '(t2, _) <- scanIgnoreWhitespace;
              dop postLit <-
                (if Token_eqb t2 COMMA then
                   ptry (parseLiteral fuel) (fun rp =>
                     match rp with
                     | inl err =>
                         praise (Errorf "Expected literal for post-increment: %v" [PErr err])
                     | inr e => pret (Some e)
                     end)
                 else runp unscan; pret None);
              dop '(t3, _) <- scanIgnoreWhitespace;
              if negb (Token_eqb t3 NEWLINE)
              then praise (Errorf "Unexpected %s at end of %s"
                             [PStr (tokenNames t3); PStr opcode])
              else pret (LoadStore (String.eqb opcode "STR") dest base preLit preReg postLit) in
            dop '(t1, _) <- scanIgnoreWhitespace;
            if Token_eqb t1 COMMA then
              ptry (parseLiteral fuel) (fun rl =>
                (* [if !p.consume(RBRAC)] after the pre-indexed value *)
                let close (preLit : option Expression) (preReg : Z) : PM Assembled :=
                  dop rbrac <- consume RBRAC;
                  if negb rbrac
                  then praise (Errorf "Expected closing ] after base register" [])
                  else tail preLit preReg in
                match rl with
                | inr e => close (Some e) 65535
                | inl _ =>
                    ptry parseReg (fun rr =>
                      match rr with
                      | inr n => close None n
                      | inl _ =>
                          praise (Errorf "Expected pre-indexed value, but failed to parse." [])
                      end)
                end)
            else if negb (Token_eqb t1 RBRAC)
            then praise (Errorf "Expected comma or ] after base register" [])
            else tail None 65535)
    end).

(** [func (p *Parser) parseInstruction(opcode string) (Assembled, error)] *)
Definition parseInstruction (fuel : nat) (opcode : string) : PM Assembled :=
  if String.eqb opcode "PUSH" || String.eqb opcode "POP" then parsePushPop fuel opcode
  else if String.eqb opcode "LDMIA" || String.eqb opcode "STMIA"
  then parseMultiStoreLoad fuel opcode
  else if String.eqb opcode "LDR" || String.eqb opcode "STR" then parseLoadStore fuel opcode
  else
    ptry (parseArgList fuel opcode) (fun r =>
      match r with
      | inl err => praise (Errorf "Failed to parse argument list: %v" [PErr err])
      | inr args => dop loc <- here; pret (Instruction opcode args loc)
      end).

Fixpoint Parse_loop (fuel : nat) (lines : list Assembled) : PM (list Assembled) :=
  match fuel with
  | O => ptimeout
  | S fuel' =>
      dop '(tok, lit) <- scanIgnoreWhitespace;
      match tok with
      | DOT =>
          ptry (parseDirective fuel) (fun r =>
            match r with
            | inl err => wrapError err
            | inr l => Parse_loop fuel' (lines ++ [l])%list
            end)
      | IDENT =>
          ptry (parseInstruction fuel (ToUpper lit)) (fun r =>
            match r with
            | inl err => wrapError err
            | inr l => Parse_loop fuel' (lines ++ [l])%list
            end)
      | COLON =>
          dop '(tok', lit') <- scan;
          if Token_eqb tok' IDENT then Parse_loop fuel' (lines ++ [LabelDef lit'])%list
          else wrapError (Errorf "Bad label: '%s'" [PStr lit'])
      | NEWLINE => Parse_loop fuel' lines
      | EOF => pret lines
      | _ => wrapError (Errorf "Unexpected %s" [PStr (tokenNames tok)])
      end
  end.

(** [func (p *Parser) Parse()], returning the lines of the AST or an error. *)
Definition Parse (fuel : nat) : PM (list Assembled) := Parse_loop fuel [].

(** Parsing a source text from its start. *)
Definition parse_text (fuel : nat) (filename text : string) : res (list Assembled) :=
  fst (Parse fuel (NewParser filename text)).

Definition parse_expr_text (fuel : nat) (text : string) : res Expression :=
  fst (parseSimpleExpr fuel (NewParser "expr" text)).

(** ** Revision A

    The first half of [ast.go] and [instructions.go], and the directive
    part of the first half of [parser.go].  Its [LabelUse.Evaluate] calls a
    [lookup] with two results, [(value, defined)], which the tree does not
    hold; it is a parameter here. *)

Module RevA.

Inductive Expression :=
| LabelUse (label : string) (loc : string)
| Constant (cvalue : Z) (loc : string).

Definition ExprLocation (e : Expression) : string :=
  match e with
  | LabelUse _ loc => loc
  | Constant _ loc => loc
  end.

Inductive Assembled :=
| Include (filename : string)
| Org (loc : Expression)
| SymbolDef (name : string) (val : Expression)
| DatBlock (values : list Expression)
| FillBlock (length : Expression) (val : Expression)
| LabelDef (label : string)
| Instruction (opcode : string) (args : list (Arg Expression)) (loc : string)
| LoadStore (storing : bool) (dest : Z) (base : Z)
    (preLit : option Expression) (preReg : Z)
    (postLit : option Expression) (postReg : Z) (baseSP : bool)
| StackOp (regs : Z) (storing : bool) (lrpc : bool) (base : Z).

Definition mathOps : list (string * Z) :=
  [("AND", 0); ("EOR", 1); ("LSL", 2); ("LSR", 3); ("ASR", 4); ("ADC", 5);
   ("SBC", 6); ("ROR", 7); ("TST", 8); ("NEG", 9); ("CMP", 10); ("CMN", 11);
   ("ORR", 12); ("MUL", 13); ("BIC", 14); ("MVN", 15)].

Definition format2Ops : list (string * Z) :=
  [("MOV", 0); ("CMP", 1); ("ADD", 2); ("SUB", 3)].

Definition conditions : list (string * Z) :=
  [("BEQ", 0); ("BNE", 1); ("BCS", 2); ("BCC", 3); ("BMI", 4); ("BPL", 5);
   ("BVS", 6); ("BVC", 7); ("BHI", 8); ("BLS", 9); ("BGE", 10); ("BLT", 11);
   ("BGT", 12); ("BLE", 13)].

(** A Go map read without the [ok] result gives the zero value for a
    missing key. *)
Definition table_or_zero (tbl : list (string * Z)) (k : string) : Z :=
  default 0 (table_get tbl k).

Section WithLookup.
Variable lookup2 : AssemblyState -> string -> Z * bool.

(** [func (l *LabelUse) Evaluate(s *AssemblyState) uint16] and
    [func (c *Constant) Evaluate(s *AssemblyState) uint16] *)
Definition Evaluate (e : Expression) : Asm Z :=
  match e with
  | LabelUse label _ =>
      do s <- aget;
      let '(v, isdef) := lookup2 s label in
      if negb isdef
      then run amodify (set_resolved false); aret 0
      else aret v
  | Constant v _ => aret v
  end.

#[local] Instance Expression_I : ExpressionI Expression :=
  {| evaluate := Evaluate; location := ExprLocation |}.

Definition opMathRR (loc opcode : string) (args : list (Arg Expression)) : Asm unit :=
  match table_get mathOps opcode with
  | None => asmError loc "%s is not a 2-register math op (format 3)" [FStr opcode]
  | Some code =>
      if negb (kinds_are args [AT_REG; AT_REG]) then
        asmError loc "%s requires 2 register arguments, but found %s"
          [FStr opcode; FStr (showArgs args)]
      else
        do a1 <- arg_at args 1;
        do a0 <- arg_at args 0;
        push (16384 .| shl16 code 6 .| shl16 (reg a1) 3 .| reg a0)
  end.

Definition opAddSub5 (loc : string) (args : list (Arg Expression)) : Asm unit :=
  do a2 <- arg_at args 2;
  do offset <- non_nil (lit a2) (fun e => checkLiteral e false 8);
  do a1 <- arg_at args 1;
  let sourceBit := if ArgKind_eqb (kind a1) AT_PC then 0 else 2048 in
  do a0 <- arg_at args 0;
  push (20480 .| offset .| sourceBit .| shl16 (reg a0) 8).

Definition opAddSub4 (loc opcode : string) (args : list (Arg Expression)) : Asm unit :=
  let opBit := if String.eqb opcode "ADD" then 0 else 512 in
  do a2 <- arg_at args 2;
  do bi <- (if ArgKind_eqb (kind a2) AT_LITERAL
            then do v <- non_nil (lit a2) (fun e => checkLiteral e false 3);
                 aret (v, 1024)
            else aret (reg a2, 0));
  do a0 <- arg_at args 0;
  do a1 <- arg_at args 1;
  push (6144 .| opBit .| snd bi .| reg a0 .| shl16 (reg a1) 3 .| shl16 (fst bi) 6).

Definition opAddSubSP (loc opcode : string) (args : list (Arg Expression)) : Asm unit :=
  do a1 <- arg_at args 1;
  do offset <- non_nil (lit a1) (fun e => checkLiteral e false 7);
  let subBit := if String.eqb opcode "ADD" then 0 else 128 in
  push (43008 .| subBit .| offset).

Definition opFormat2 (loc opcode : string) (args : list (Arg Expression)) : Asm unit :=
  do a1 <- arg_at args 1;
  do offset <- non_nil (lit a1) (fun e => checkLiteral e false 8);
  let op := table_or_zero format2Ops opcode in
  do a0 <- arg_at args 0;
  push (8192 .| shl16 (reg a0) 8 .| shl16 op 11 .| offset).

Definition opAddSub (loc opcode : string) (args : list (Arg Expression)) : Asm unit :=
  let bad := asmError loc "Bad arguments to %s: %s" [FStr opcode; FStr (showArgs args)] in
  match args with
  | [a0; a1; a2] =>
      if String.eqb opcode "ADD"
         && (ArgKind_eqb (kind a1) AT_PC || ArgKind_eqb (kind a1) AT_SP)
      then opAddSub5 loc args
      else if ArgKind_eqb (kind a0) AT_REG && ArgKind_eqb (kind a1) AT_REG
              && (ArgKind_eqb (kind a2) AT_REG || ArgKind_eqb (kind a2) AT_LITERAL)
      then opAddSub4 loc opcode args
      else bad
  | [a0; a1] =>
      if ArgKind_eqb (kind a0) AT_SP && ArgKind_eqb (kind a1) AT_LITERAL
      then opAddSubSP loc opcode args
      else if ArgKind_eqb (kind a0) AT_REG && ArgKind_eqb (kind a1) AT_LITERAL
      then opFormat2 loc opcode args
      else bad
  | _ => bad
  end.

Definition opCmp (loc opcode : string) (args : list (Arg Expression)) : Asm unit :=
  do a0 <- arg_at args 0;
  if negb (ArgKind_eqb (kind a0) AT_REG) then
    asmError loc "First argument to CMP must be register; found %s" [FStr (showArg a0)]
  else
    do a1 <- arg_at args 1;
    if ArgKind_eqb (kind a1) AT_REG then opMathRR loc opcode args
    else opFormat2 loc opcode args.

Definition opShift (loc opcode : string) (args : list (Arg Expression)) : Asm unit :=
  if kinds_are args [AT_REG; AT_REG; AT_LITERAL] then
    do a2 <- arg_at args 2;
    do v <- non_nil (lit a2) (fun e => checkLiteral e false 5);
    if String.eqb opcode "LSL" || String.eqb opcode "LSR" || String.eqb opcode "ASR" then
      let op := if String.eqb opcode "LSL" then 0
                else if String.eqb opcode "LSR" then 1 else 2 in
      do a1 <- arg_at args 1;
      do a0 <- arg_at args 0;
      push (shl16 op 11 .| shl16 v 6 .| shl16 (reg a1) 3 .| reg a0)
    else asmError loc "Can't happen: shift is not shift" []
  else if kinds_are args [AT_REG; AT_REG] then opMathRR loc opcode args
  else asmError loc "Bad arguments to %s: %s" [FStr opcode; FStr (showArgs args)].

Definition opMov (loc opcode : string) (args : list (Arg Expression)) : Asm unit :=
  if kinds_are args [AT_REG; AT_REG] then
    do a1 <- arg_at args 1;
    do a0 <- arg_at args 0;
    push (shl16 (reg a1) 3 .| reg a0)
  else if kinds_are args [AT_REG; AT_LITERAL] then
    do a1 <- arg_at args 1;
    do v <- non_nil (lit a1) (fun e => checkLiteral e false 8);
    do a0 <- arg_at args 0;
    push (8192 .| shl16 (reg a0) 8 .| v)
  else asmError loc "Bad arguments to MOV: %s" [FStr opcode; FStr (showArgs args)].

Definition opBranch (loc opcode : string) (args : list (Arg Expression)) : Asm unit :=
  if kinds_are args [AT_REG] && (String.eqb opcode "BX" || String.eqb opcode "BLX") then
    let linkBit := if String.eqb opcode "BX" then 0 else 1024 in
    do a0 <- arg_at args 0;
    push (34816 .| linkBit .| reg a0)
  else if kinds_are args [AT_LABEL] && (String.eqb opcode "B" || String.eqb opcode "BL") then
    let linkBit := if String.eqb opcode "B" then 0 else 1024 in
    do a0 <- arg_at args 0;
    do target <- non_nil (label a0) Evaluate;
    do s <- aget;
    let diff := u16 (target - u16 (index s + 1)) in
    if (diff <? 512) || (65024 <=? diff) then
      push (28672 .| linkBit .| u16 (diff * 1023))
    else
      run push (30720 .| linkBit);
      push target
  else asmError loc "Bad arguments to %s: %s" [FStr opcode; FStr (showArgs args)].

Definition opCondBranch (loc opcode : string) (args : list (Arg Expression)) : Asm unit :=
  if kinds_are args [AT_LABEL] then
    let op := table_or_zero conditions opcode in
    do a0 <- arg_at args 0;
    do target <- non_nil (label a0) Evaluate;
    do s <- aget;
    let diff := u16 (target - u16 (index s + 1)) in
    if (diff <? 128) || (65408 <=? diff) then
      push (24576 .| shl16 op 8 .| diff)
    else asmError loc "Conditional branch target is out of range" []
  else
    do a0 <- arg_at args 0;
    asmError loc "Bad arguments for %s: %s" [FStr opcode; FStr (showArg a0)].

Definition opHardware (loc opcode : string) (args : list (Arg Expression)) : Asm unit :=
  if String.eqb opcode "HWN" || String.eqb opcode "HWQ" || String.eqb opcode "HWI" then
    let op := if String.eqb opcode "HWN" then 0
              else if String.eqb opcode "HWQ" then 1 else 2 in
    if kinds_are args [AT_REG] then
      do a0 <- arg_at args 0;
      push (32768 .| shl16 op 6 .| reg a0)
    else asmError loc "Bad arguments for %s: %s" [FStr opcode; FStr (showArgs args)]
  else asmError loc "Can't happen: unknown hardware instruction" [].

Definition opSWI (loc opcode : string) (args : list (Arg Expression)) : Asm unit :=
  if kinds_are args [AT_REG] then
    do a0 <- arg_at args 0;
    push (33792 .| reg a0)
  else if kinds_are args [AT_LITERAL] then
    do a0 <- arg_at args 0;
    do v <- non_nil (lit a0) (fun e => checkLiteral e false 8);
    push (33536 .| v)
  else asmError loc "Bad arguments for %s: %s" [FStr opcode; FStr (showArgs args)].

Definition opInterrupts (loc opcode : string) (args : list (Arg Expression)) : Asm unit :=
  if String.eqb opcode "RFI" || String.eqb opcode "IFC" || String.eqb opcode "IFS" then
    let op := if String.eqb opcode "RFI" then 0
              else if String.eqb opcode "IFC" then 1 else 2 in
    push (33280 .| op)
  else asmError loc "Can't happen: %s is not a legal interrupt instruction" [FStr opcode].

Definition opMRSR (loc opcode : string) (args : list (Arg Expression)) : Asm unit :=
  let opBit := if String.eqb opcode "MSR" then 0 else 128 in
  if kinds_are args [AT_REG] then
    do a0 <- arg_at args 0;
    push (33024 .| opBit .| reg a0)
  else asmError loc "Bad arguments for %s: %s" [FStr opcode; FStr (showArgs args)].

Definition opIllegal (loc opcode : string) (args : list (Arg Expression)) : Asm unit :=
  asmError loc "Illegal opcode that shouldn't reach this point: %s" [FStr opcode].

Definition instructions
  : list (string * (string -> string -> list (Arg Expression) -> Asm unit)) :=
  [("ADC", opMathRR); ("ADD", opAddSub); ("AND", opMathRR); ("ASR", opShift);
   ("BIC", opMathRR); ("CMN", opMathRR); ("CMP", opCmp); ("EOR", opMathRR);
   ("LSL", opShift); ("LSR", opShift); ("MOV", opMov); ("MUL", opMathRR);
   ("MVN", opMathRR); ("NEG", opMathRR); ("ORR", opMathRR); ("ROR", opMathRR);
   ("SBC", opMathRR); ("SUB", opAddSub); ("TST", opMathRR);
   ("B", opBranch); ("BL", opBranch); ("BX", opBranch); ("BLX", opBranch);
   ("BEQ", opCondBranch); ("BNE", opCondBranch); ("BCS", opCondBranch);
   ("BCC", opCondBranch); ("BMI", opCondBranch); ("BPL", opCondBranch);
   ("BVS", opCondBranch); ("BVC", opCondBranch); ("BHI", opCondBranch);
   ("BLS", opCondBranch); ("BGE", opCondBranch); ("BLT", opCondBranch);
   ("BGT", opCondBranch); ("BLE", opCondBranch);
   ("HWN", opHardware); ("HWI", opHardware); ("HWQ", opHardware);
   ("SWI", opSWI); ("RFI", opInterrupts); ("IFS", opInterrupts);
   ("IFC", opInterrupts); ("MRS", opMRSR); ("MSR", opMRSR);
   ("LDR", opIllegal); ("STR", opIllegal); ("PUSH", opIllegal);
   ("POP", opIllegal); ("STMIA", opIllegal); ("LDMIA", opIllegal)].

(** [func (op *Instruction) Assemble(s *AssemblyState)] *)
Definition Instruction_Assemble (opcode : string) (args : list (Arg Expression))
  (loc : string) : Asm unit :=
  match table_get instructions opcode with
  | Some f => f loc opcode args
  | None => asmError loc "Unrecognized opcode: %s" [FStr opcode]
  end.

(** [func (op *LoadStore) Assemble(s *AssemblyState)] *)
Definition LoadStore_Assemble (storing : bool) (dest base : Z)
  (preLit : option Expression) (preReg : Z)
  (postLit : option Expression) (postReg : Z) (baseSP : bool) : Asm unit :=
  if base =? 65535 then
    do off <- match preLit with
              | Some e => checkLiteral e false 8
              | None => aret 0
              end;
    if negb baseSP && negb storing then
      push (59392 .| shl16 dest 8 .| off)
    else if negb baseSP && storing then
      asmError "" "Can't do PC-relative STR" []
    else
      let storeBit := if storing then 0 else 2048 in
      push (61440 .| shl16 dest 8 .| off .| storeBit)
  else if negb (preReg =? 65535) || negb (postReg =? 65535) then
    let loadBit := if storing then 0 else 1024 in
    let postBit := if negb (preReg =? 65535) then 0 else 512 in
    let offset := if negb (preReg =? 65535) then shl16 preReg 6 else shl16 postReg 6 in
    push (61440 .| offset .| loadBit .| postBit .| shl16 base 3 .| dest)
  else
    let loadBit := if storing then 0 else 4096 in
    do po <- match preLit with
             | Some e => do v <- checkLiteral e false 5; aret (0, v)
             | None =>
                 match postLit with
                 | Some e => do v <- checkLiteral e false 5; aret (2048, v)
                 | None => aret (2048, 0)
                 end
             end;
    push (49152 .| loadBit .| fst po .| shl16 (snd po) 6 .| shl16 base 3 .| dest).

(** [func (op *StackOp) Assemble(s *AssemblyState)] *)
Definition StackOp_Assemble (regs : Z) (storing lrpc : bool) (base : Z) : Asm unit :=
  if base =? 65535 then
    let loadBit := if storing then 0 else 512 in
    let lrpcBit := if negb lrpc then 0 else 256 in
    push (40960 .| loadBit .| lrpcBit .| regs)
  else
    let loadBit := if storing then 0 else 2048 in
    push (45056 .| loadBit .| regs .| shl16 base 8).

Fixpoint push_values (values : list Expression) : Asm unit :=
  match values with
  | [] => aret tt
  | v :: rest => do x <- Evaluate v; run push x; push_values rest
  end.

(** [Assemble] of every statement kind. *)
Definition Assemble (l : Assembled) : Asm unit :=
  match l with
  | Include _ => afail (GoPanic "can't happen! Include survived to assembly time" [])
  | Org loc => do a <- Evaluate loc; amodify (set_index a)
  | SymbolDef name val => do v <- Evaluate val; updateSymbol name v
  | DatBlock values => push_values values
  | FillBlock length val =>
      do len <- Evaluate length;
      do v <- Evaluate val;
      push_times (Z.to_nat len) v
  | LabelDef label => do s <- aget; updateLabel label (index s)
  | Instruction opcode args loc => Instruction_Assemble opcode args loc
  | LoadStore storing dest base preLit preReg postLit postReg baseSP =>
      LoadStore_Assemble storing dest base preLit preReg postLit postReg baseSP
  | StackOp regs storing lrpc base => StackOp_Assemble regs storing lrpc base
  end.

Fixpoint assemble_lines (lines : list Assembled) : Asm unit :=
  match lines with
  | [] => aret tt
  | l :: rest => run Assemble l; assemble_lines rest
  end.
End WithLookup.

(** *** Directives of revision A

    [scanIgnoreWhitespace] skips one whitespace token ([if tok == WS]), and
    an expression is a single name or a decimal number. *)

Definition scanIgnoreWhitespace : PM (Token * string) :=
  dop '(tok, lit) <- scan;
  if Token_eqb tok WS then scan else pret (tok, lit).

Definition consume (t : Token) : PM bool :=
  dop '(tok, _) <- scanIgnoreWhitespace;
  if negb (Token_eqb tok t)
  then runp unscan; pret false
  else pret true.

Definition consumeComma : PM bool := consume COMMA.

(** [func (p *Parser) parseSimpleExpr() (Expression, error)] *)
Definition parseSimpleExpr : PM Expression :=
  dop loc <- here;
  dop '(tok, lit) <- scanIgnoreWhitespace;
  match tok with
  | IDENT => pret (LabelUse lit loc)
  | NUMBER =>
      match Atoi lit with
      | inl err => praise err
      | inr n => pret (Constant (u16 n) loc)
      end
  | _ => praise (Errorf "Found %s while parsing expression" [PStr (tokenNames tok)])
  end.

Fixpoint string_constants (t : string) (loc : string) : list Expression :=
  match t with
  | EmptyString => []
  | String ch rest => Constant (u16 (Z.of_N (N_of_ascii ch))) loc :: string_constants rest loc
  end.

Definition parseExpr : PM (list Expression) :=
  dop loc <- here;
  dop '(tok, lit) <- scanIgnoreWhitespace;
  if Token_eqb tok STRING then pret (string_constants lit loc)
  else
    runp unscan;
    dop expr <- parseSimpleExpr;
    pret [expr].

Fixpoint exprList_loop (fuel : nat) (allowStringLiterals : bool) (buf : list Expression)
  : PM (list Expression) :=
  match fuel with
  | O => ptimeout
  | S fuel' =>
      dop buf' <- (if allowStringLiterals
                   then dop exprs <- parseExpr; pret (buf ++ exprs)%list
                   else dop expr <- parseSimpleExpr; pret (buf ++ [expr])%list);
      dop more <- consumeComma;
      if negb more then pret buf' else exprList_loop fuel' allowStringLiterals buf'
  end.

Definition parseExprList (fuel : nat) (allowStringLiterals : bool) : PM (list Expression) :=
  dop buf <- exprList_loop fuel allowStringLiterals [];
  match buf with
  | [] => praise (Errorf "Empty expression list" [])
  | _ => pret buf
  end.

Definition expect_newline : PM unit :=
  dop ok <- consume NEWLINE;
  if negb ok then
    dop '(t, lit) <- scanIgnoreWhitespace;
    praise (Errorf "Unexpected %s '%s' at end of line" [PStr (tokenNames t); PStr lit])
  else pret tt.

(** [func (p *Parser) parseDirective() (Assembled, error)] *)
Definition parseDirective (fuel : nat) : PM Assembled :=
  dop '(dir, lit) <- scan;
  if negb (Token_eqb dir IDENT) then
    praise (Errorf "Expected directive command after dot, but found %s"
              [PStr (tokenNames dir)])
  else
    let name := ToUpper lit in
    if String.eqb name "DAT" then
      dop args <- or_wrap (parseExprList fuel true) "Failed to parse .DAT values: %v";
      runp expect_newline;
      pret (DatBlock args)
    else if String.eqb name "ORG" then
      dop expr <- or_wrap parseSimpleExpr "Bad expression for .ORG: %v";
      runp expect_newline;
      pret (Org expr)
    else if String.eqb name "FILL" then
      dop values <- or_wrap (parseExprList fuel false) "Failed to parse .FILL arguments: %v";
      match values with
      | [v0; v1] => runp expect_newline; pret (FillBlock v1 v0)
      | _ =>
          praise (Errorf ".FILL requires two arguments, found %d"
                    [PInt (Z.of_nat (length values))])
      end
    else if String.eqb name "RESERVE" then
      dop loc <- here;
      dop expr <- or_wrap parseSimpleExpr "Bad expression for .RESERVE: %v";
      runp expect_newline;
      pret (FillBlock (Constant 0 loc) expr)
    else if String.eqb name "DEFINE" then
      dop '(t, lit') <- scanIgnoreWhitespace;
      if negb (Token_eqb t IDENT) then
        praise (Errorf ".DEFINE's first argument must be an identifier; found %s"
                  [PStr (tokenNames t)])
      else
        dop comma <- consumeComma;
        if negb comma then praise (Errorf "No comma after .DEFINE identifier" [])
        else
          dop expr <- or_wrap parseSimpleExpr "Bad expression for .DEFINE: %v";
          runp expect_newline;
          pret (SymbolDef lit' expr)
    else praise (Errorf "Unknown directive: %s" [PStr lit]).

End RevA.

(** ** Notions used to state the properties *)



(** The upper [n] bits of the 16-bit value [v] are all 0 or all 1. *)
Definition upper_bits_uniform (n v : Z) : Prop :=
  Z.shiftr v (16 - n) = 0 \/ Z.shiftr v (16 - n) = 2 ^ n - 1.



(** Parsing a text as an expression and evaluating the result. *)
Definition evaluate_text (fuel : nat) (text : string) (s : AssemblyState)
  : option (outcome Z) :=
  match parse_expr_text fuel text with
  | Ret e => Some (Evaluate e s)
  | _ => None
  end.

(** The names an expression refers to. *)
Fixpoint mentions (name : string) (e : Expression) : Prop :=
  match e with
  | LabelUse l _ => l = name
  | Constant _ _ => False
  | BinExpr lhs _ rhs => mentions name lhs \/ mentions name rhs
  | UnaryExpr _ e' => mentions name e'
  end.

(** A name that is in neither table. *)
Definition unknown (s : AssemblyState) (name : string) : Prop :=
  labels s !! name = None /\ symbols s !! name = None.

(** A relation between the state before and after holds whenever the
    action completes. *)
Definition keeps {A} (R : AssemblyState -> AssemblyState -> Prop) (m : Asm A) : Prop :=
  forall s a s', m s = Done a s' -> R s s'.

(** The label table has the same names before and after. *)
Definition same_names (s s' : AssemblyState) : Prop :=
  dom (labels s') = dom (labels s).


(** Revision A: the directive that follows the dot at the start of [text],
    as the top-level loop calls [parseDirective] after it has read [DOT]. *)
Definition revA_directive_text (fuel : nat) (text : string) : res RevA.Assembled :=
  fst (pbind RevA.scanIgnoreWhitespace (fun _ => RevA.parseDirective fuel)
         (NewParser "f" text)).

(** The program [.fill 0, 1 - b] followed by [:b], as the parser of
    revision B returns it, and the two states its passes alternate between:
    [b] at 1 after a pass that emitted one word, [b] at 0 after a pass that
    emitted none. *)
Definition oscillating : list Assembled :=
  [FillBlock (BinExpr (Constant 1 "f:1:11") MINUS (LabelUse "b" "f:2:0"))
     (Constant 0 "f:1:8");
   LabelDef "b"].

Definition osc_at_1 : AssemblyState :=
  mkState {["b" := mkLabelRef 1 true]} ∅ true true {[0 := 0]} 1 {[0 := true]}.
Definition osc_at_0 : AssemblyState :=
  mkState {["b" := mkLabelRef 0 true]} ∅ true true {[0 := 0]} 0 ∅.

(** The line feed, and a source text given line by line. *)
Definition LF : string := String "010" EmptyString.
Fixpoint source (lines : list string) : string :=
  match lines with
  | [] => EmptyString
  | l :: rest => l +:+ LF +:+ source rest
  end.

(** ** Further notions *)

(** Emitting the words of a list one after the other. *)
Fixpoint push_list (ws : list Z) : Asm unit :=
  match ws with
  | [] => aret tt
  | w :: rest => run push w; push_list rest
  end.

(** The addresses from [a] up to [a + n], the last excluded, are free. *)
Definition free_from (s : AssemblyState) (a n : Z) : Prop :=
  forall k, a <= k < a + n -> used_at s k = false.

(** Some line of the program defines the label [l]. *)
Fixpoint defines (l : string) (lines : list Assembled) : bool :=
  match lines with
  | [] => false
  | LabelDef l' :: rest => String.eqb l' l || defines l rest
  | _ :: rest => defines l rest
  end.

(** Two states agree on the label and the symbol table. *)
Definition same_tables (s1 s2 : AssemblyState) : Prop :=
  labels s1 = labels s2 /\ symbols s1 = symbols s2.

(** The outcome of an evaluation without the state it returns. *)
Definition result_of {A} (o : outcome A) : failure + A :=
  match o with
  | Done a _ => inr a
  | Abort f => inl f
  end.


(** An action that leaves the state as it is whenever it completes. *)
Definition pure {A} (m : Asm A) : Prop := keeps (fun s s' => s' = s) m.

(** Whenever the action completes, what it did to the state is to emit
    between [lo] and [hi] words. *)
Definition emits_in {A} (lo hi : nat) (m : Asm A) : Prop :=
  forall s a s', m s = Done a s' ->
    exists ws, (lo <= length ws <= hi)%nat /\ push_list ws s = Done tt s'.

(** The statements that stand for one machine instruction. *)
Definition is_instruction (l : Assembled) : bool :=
  match l with
  | Instruction _ _ _ | LoadStore _ _ _ _ _ _ | StackOp _ _ _ _ => true
  | _ => false
  end.

(** Every constant of the expression is a 16-bit value. *)
Fixpoint wf_expr (e : Expression) : Prop :=
  match e with
  | LabelUse _ _ => True
  | Constant v _ => is_u16 v
  | BinExpr lhs _ rhs => wf_expr lhs /\ wf_expr rhs
  | UnaryExpr _ e' => wf_expr e'
  end.

(** Every value in the label and symbol tables is a 16-bit value. *)
Definition wf_tables (s : AssemblyState) : Prop :=
  (forall l lr, labels s !! l = Some lr -> is_u16 (value lr)) /\
  (forall l lr, symbols s !! l = Some lr -> is_u16 (value lr)).

(** The statement is a label definition. *)
Definition is_label_def (l : Assembled) : bool :=
  match l with
  | LabelDef _ => true
  | _ => false
  end.

(** Every failure of the action satisfies [P]. *)
Definition fails_only {A} (P : failure -> Prop) (m : Asm A) : Prop :=
  forall s f, m s = Abort f -> P f.

(** The panic of [updateLabel] on a name that was never registered. *)
Definition unknown_label_panic (f : failure) : Prop :=
  exists l, f = GoPanic "unknown label: '%s'" [FStr l].

(** [byte(x)] of a [uint16]. *)
Definition u8 (z : Z) : Z := z mod 256.

(** What the driver writes to [out.bin]:
    [for i := uint16(0); i < s.index; i++ { out.Write([]byte{byte(s.rom[i] >> 8), byte(s.rom[i] & 0xff)}) }] *)
Definition output_bytes (s : AssemblyState) : list Z :=
  flat_map (fun i => [u8 (Z.shiftr (rom_at s i) 8); u8 (Z.land (rom_at s i) 255)])
    (seqZ 0 (index s)).

(** Every character of the text satisfies [p]. *)
Fixpoint all_chars (p : ascii -> bool) (t : string) : bool :=
  match t with
  | EmptyString => true
  | String c rest => p c && all_chars p rest
  end.

(** The text is at its end or goes on with a character, other than the
    one the scanner takes for the end of the input, that fails [p]. *)
Definition stops (p : ascii -> bool) (t : string) : bool :=
  match t with
  | EmptyString => true
  | String c _ => negb (p c) && negb (rune_eqb c eof)
  end.

(** The characters that continue an identifier. *)
Definition isIdentChar (ch : ascii) : bool :=
  isLetter ch || isDigit ch || rune_eqb ch "_".









(** The program [.org x + 1], [.dat 7], [.org 4], [:x], [.dat 9]: its
    first pass, with [x] still at 0, places the 7 at address 1; every
    later pass places it at address 5. *)
Definition moving_block : list Assembled :=
  [Org (BinExpr (LabelUse "x" "f:1:6") PLUS (Constant 1 "f:1:10"));
   DatBlock [Constant 7 "f:2:6"];
   Org (Constant 4 "f:3:6");
   LabelDef "x";
   DatBlock [Constant 9 "f:5:6"]].

(** ** Properties *)

(** *** The state *)

Lemma u16_range z : is_u16 (u16 z).
Proof. unfold is_u16, u16. apply Z.mod_pos_bound. lia. Qed.

Lemma u16_small z : is_u16 z -> u16 z = z.
Proof. unfold is_u16, u16. intros. apply Z.mod_small. lia. Qed.

Lemma used_at_empty (s : AssemblyState) a : used s = ∅ -> used_at s a = false.
Proof. unfold used_at. intros ->. by rewrite lookup_empty. Qed.

(** *** The scanner always returns a token *)









(** *** A frame rule for statements

    A reflexive and transitive relation that the four state updates keep
    is kept by every expression, every encoder and every statement of
    revision B. *)

Section Frame.
Variable R : AssemblyState -> AssemblyState -> Prop.
Hypothesis R_refl : forall s, R s s.
Hypothesis R_trans : forall s1 s2 s3, R s1 s2 -> R s2 s3 -> R s1 s3.
Hypothesis R_push : forall x, keeps R (push x).
Hypothesis R_index : forall a, keeps R (amodify (set_index a)).
Hypothesis R_symbol : forall l v, keeps R (updateSymbol l v).
Hypothesis R_label : forall l a, keeps R (updateLabel l a).

Lemma keeps_ret {A} (a : A) : keeps R (aret a).
Proof using R_refl. intros s a' s' H. inversion H; subst. apply R_refl. Qed.

Lemma keeps_fail {A} (f : failure) : keeps R (@afail A f).
Proof using Type. intros s a s' H. discriminate. Qed.

Lemma keeps_get : keeps R aget.
Proof using R_refl. intros s a s' H. inversion H; subst. apply R_refl. Qed.

Lemma keeps_bind {A B} (m : Asm A) (k : A -> Asm B) :
  keeps R m -> (forall a, keeps R (k a)) -> keeps R (abind m k).
Proof using R_trans.
  intros Hm Hk s b s' H. unfold abind in H.
  destruct (m s) as [a s1|f] eqn:E; [|discriminate].
  eapply R_trans; [eapply Hm; eassumption | eapply Hk; eassumption].
Qed.

Ltac keeps_step :=
  match goal with
  | |- keeps _ (abind _ _) => apply keeps_bind; [| intros ?]
  | |- keeps _ (aret _) => apply keeps_ret
  | |- keeps _ (afail _) => apply keeps_fail
  | |- keeps _ (asmError _ _ _) => apply keeps_fail
  | |- keeps _ aget => apply keeps_get
  | |- keeps _ (push _) => apply R_push
  | |- keeps _ (amodify (set_index _)) => apply R_index
  | |- keeps _ (updateSymbol _ _) => apply R_symbol
  | |- keeps _ (updateLabel _ _) => apply R_label
  | |- keeps _ (if ?b then _ else _) => destruct b
  | |- keeps _ (match ?x with _ => _ end) => destruct x
  | |- keeps _ (let '(_, _) := ?x in _) => destruct x
  end.

Lemma keeps_Evaluate e : keeps R (Evaluate e).
Proof using R_refl R_trans.
  induction e as [l loc|v loc|lhs IHl op rhs IHr|op e IH]; simpl.
  - apply keeps_bind; [apply keeps_get|]. intros s.
    destruct (lookup_name s l) as [[v d] known]. repeat keeps_step.
  - apply keeps_ret.
  - apply keeps_bind; [exact IHl|]. intros l.
    apply keeps_bind; [exact IHr|]. intros r. repeat keeps_step.
  - apply keeps_bind; [exact IH|]. intros v. repeat keeps_step.
Qed.

Lemma keeps_checkLiteral e signed width :
  keeps R (checkLiteral (E:=Expression) e signed width).
Proof using R_refl R_trans.
  unfold checkLiteral. apply keeps_bind; [apply keeps_Evaluate|].
  intros v. repeat keeps_step.
Qed.

Lemma keeps_arg_at (args : list (Arg Expression)) i : keeps R (arg_at args i).
Proof using R_refl. unfold arg_at. repeat keeps_step. Qed.

Lemma keeps_non_nil {A} (e : option Expression) (k : Expression -> Asm A) :
  (forall e', keeps R (k e')) -> keeps R (non_nil e k).
Proof using Type. intros H. unfold non_nil. destruct e; [apply H|apply keeps_fail]. Qed.

Ltac keeps_enc :=
  repeat first
    [ apply keeps_arg_at
    | apply keeps_Evaluate
    | apply keeps_checkLiteral
    | apply keeps_non_nil; intros ?
    | keeps_step ].

Lemma keeps_opRI loc m n args : keeps R (opRI loc m n args).
Proof using All. unfold opRI. keeps_enc. Qed.

Lemma keeps_opRRR loc m n args : keeps R (opRRR loc m n args).
Proof using All. unfold opRRR. keeps_enc. Qed.

Lemma keeps_opRR loc m n args : keeps R (opRR loc m n args).
Proof using All. unfold opRR. keeps_enc. Qed.

Lemma keeps_opR loc m n args : keeps R (opR loc m n args).
Proof using All. unfold opR. keeps_enc. Qed.

Lemma keeps_opVoid loc m n : keeps R (opVoid loc m n).
Proof using All. unfold opVoid. keeps_enc. Qed.

Lemma keeps_opBranch loc m n args : keeps R (opBranch loc m n args).
Proof using All. unfold opBranch. keeps_enc. Qed.

Lemma keeps_opAddSub loc m args : keeps R (opAddSub loc m args).
Proof using All.
  unfold opAddSub.
  repeat match goal with
         | |- keeps _ (if ?b then _ else _) => destruct b
         end;
    first [apply keeps_opRI | apply keeps_opRRR | keeps_enc].
Qed.

Lemma keeps_opSWI loc m args : keeps R (opSWI loc m args).
Proof using All. unfold opSWI. keeps_enc. Qed.

Lemma keeps_table_arm {V} (tbl : list (string * V)) opcode args ks k m :
  (forall n, keeps R (k n)) ->
  table_arm tbl opcode args ks k = Some m -> keeps R m.
Proof using Type.
  unfold table_arm. intros Hk H.
  destruct (table_get tbl opcode); [|discriminate].
  destruct (kinds_are args ks); [|discriminate].
  inversion H; subst. apply Hk.
Qed.

Lemma keeps_special opcode f loc args :
  table_get specialInstructions opcode = Some f -> keeps R (f loc opcode args).
Proof using All.
  unfold specialInstructions; simpl. intros H.
  repeat match type of H with
         | (if ?b then _ else _) = _ => destruct b
         end;
    inversion H; subst; first [apply keeps_opAddSub | apply keeps_opSWI].
Qed.

Lemma keeps_Instruction opcode args loc :
  keeps R (Instruction_Assemble opcode args loc).
Proof using All.
  unfold Instruction_Assemble.
  repeat match goal with
         | |- keeps _ (match table_arm ?t ?o ?a ?ks ?k with _ => _ end) =>
             let E := fresh "E" in
             destruct (table_arm t o a ks k) eqn:E;
             [eapply keeps_table_arm; [|exact E]; intros ? | clear E]
         end;
    try first [apply keeps_opRRR | apply keeps_opRR | apply keeps_opR
              | apply keeps_opVoid | apply keeps_opRI | apply keeps_opBranch].
  destruct (table_get specialInstructions opcode) eqn:E.
  - by apply keeps_special.
  - apply keeps_fail.
Qed.

Lemma keeps_LoadStore st d b pl pr po : keeps R (LoadStore_Assemble st d b pl pr po).
Proof using All. unfold LoadStore_Assemble. keeps_enc. Qed.

Lemma keeps_StackOp regs st lrpc b : keeps R (StackOp_Assemble regs st lrpc b).
Proof using All. unfold StackOp_Assemble. keeps_enc. Qed.

Lemma keeps_push_times n v : keeps R (push_times n v).
Proof using All. induction n; simpl; keeps_enc. exact IHn. Qed.

Lemma keeps_push_values vs : keeps R (push_values vs).
Proof using All. induction vs; simpl; keeps_enc. exact IHvs. Qed.

Lemma keeps_Assemble l : keeps R (Assemble l).
Proof using All.
  destruct l; simpl;
    first [ apply keeps_push_values | apply keeps_Instruction
          | apply keeps_LoadStore | apply keeps_StackOp | idtac ].
  - apply keeps_fail.
  - keeps_enc.
  - keeps_enc.
  - apply keeps_bind; [apply keeps_Evaluate|]; intros ?.
    apply keeps_bind; [apply keeps_Evaluate|]; intros ?. apply keeps_push_times.
  - keeps_enc.
Qed.

Lemma keeps_assemble_lines lines : keeps R (assemble_lines lines).
Proof using All.
  induction lines; simpl; [apply keeps_ret|].
  apply keeps_bind; [apply keeps_Assemble|]. intros _. exact IHlines.
Qed.
End Frame.

(** *** Label names persist *)

Lemma push_labels x s s' : push x s = Done tt s' -> labels s' = labels s.
Proof. unfold push. destruct (used_at s (index s)); [discriminate|]. by intros [= <-]. Qed.

Lemma updateLabel_names l a : keeps same_names (updateLabel l a).
Proof.
  intros s [] s'. unfold updateLabel, same_names.
  destruct (labels s !! l) as [lr|] eqn:E; [|discriminate].
  assert (E' : is_Some (labels s !! l)) by eauto.
  intros [= <-]. simpl.
  assert (Hl : labels (if negb (defined lr) || negb (value lr =? a)
                       then set_dirty true s else s) = labels s)
    by (destruct (negb (defined lr) || negb (value lr =? a)); reflexivity).
  rewrite Hl, dom_insert_L.
  apply (proj2 (elem_of_dom _ _)) in E' as Hin. apply set_eq. intros k.
  rewrite elem_of_union, elem_of_singleton. split; [intros [->|]|]; auto.
Qed.

Lemma statements_keep_names lines : keeps same_names (assemble_lines lines).
Proof.
  apply keeps_assemble_lines.
  - reflexivity.
  - unfold same_names. intros s1 s2 s3 H12 H23. congruence.
  - intros x s [] s' H. unfold same_names. by rewrite (push_labels _ _ _ H).
  - intros a s [] s' [= <-]. reflexivity.
  - intros l v s [] s' [= <-]. reflexivity.
  - apply updateLabel_names.
Qed.

Lemma one_pass_names lines s s' :
  one_pass lines s = Done tt s' -> dom (labels s') = dom (labels s).
Proof. unfold one_pass. intros H. apply (statements_keep_names lines _ _ _ H). Qed.

Lemma after_passes_names n lines : forall s s',
  after_passes n lines s = Some s' -> dom (labels s') = dom (labels s).
Proof.
  induction n as [|n IH]; simpl; intros s s' H.
  - by inversion H.
  - destruct (one_pass lines s) as [[] s1|f] eqn:E; [|discriminate].
    rewrite (IH _ _ H). exact (one_pass_names lines _ _ E).
Qed.

(** C7. [reset] sets the per-pass fields to their start values (no symbol,
    no used address, cursor 0, not dirty, resolved) and leaves the label
    table as it was, names and entries alike; and since no statement adds
    or removes a label, the names in the table are the same after any
    number of completed passes. *)
Theorem reset_establishes_pass_start (s : AssemblyState) :
  symbols (reset s) = ∅ /\ used (reset s) = ∅ /\ index (reset s) = 0 /\
  dirty (reset s) = false /\ resolved (reset s) = true /\
  labels (reset s) = labels s /\
  (forall l : string, labels (reset s) !! l = labels s !! l) /\
  (forall n lines s', after_passes n lines s = Some s' ->
     dom (labels s') = dom (labels s)).
Proof.
  unfold reset; simpl. repeat split; try reflexivity.
  intros n lines s'. apply after_passes_names.
Qed.

(** Witness of C7: two passes over a label definition and a word. *)
Lemma reset_establishes_pass_start_witness :
  let s := addLabel "x" new_state in
  let prog := [DatBlock [Constant 7 "f:1:1"]; LabelDef "x"] in
  exists s', after_passes 2 prog s = Some s' /\
             labels (reset s') !! "x" = Some (mkLabelRef 1 true) /\
             dom (labels s') = dom (labels s).
Proof.
  intros s prog.
  destruct (after_passes 2 prog s) as [s'|] eqn:E; [|vm_compute in E; discriminate].
  exists s'. split; [reflexivity|]. split.
  - vm_compute in E. injection E as <-. reflexivity.
  - exact (proj2 (proj2 (proj2 (proj2 (proj2 (proj2 (proj2
             (reset_establishes_pass_start s))))))) 2%nat prog s' E).
Defined.

(** *** Emitting a word *)

Lemma push_used x s :
  used_at s (index s) = true ->
  push x s = Abort (GoPanic "overlapping regions at $%04x" [FInt (index s)]).
Proof. unfold push. by intros ->. Qed.

Lemma push_unused x s :
  used_at s (index s) = false ->
  push x s = Done tt (mkState (labels s) (symbols s) (resolved s) (dirty s)
                        (<[index s := x]> (rom s)) (u16 (index s + 1))
                        (<[index s := true]> (used s))).
Proof. unfold push. by intros ->. Qed.

(** Two blocks placed at the same origin collide on their first word. *)
Lemma org_blocks_collide s a v w l1 l2 l3 l4 :
  assemble_lines [Org (Constant a l1); DatBlock [Constant v l2];
                  Org (Constant a l3); DatBlock [Constant w l4]] (reset s)
  = Abort (GoPanic "overlapping regions at $%04x" [FInt a]).
Proof.
  unfold assemble_lines, Assemble, push_values, Evaluate, abind, aret, amodify,
    push, used_at, reset; simpl.
  rewrite lookup_empty; simpl.
  rewrite lookup_insert_eq. reflexivity.
Qed.

(** C5. [push] on an address already written in this pass stops with the
    "overlapping regions" panic; otherwise it marks the address used,
    stores the word there and moves the cursor one further (the cursor is
    a [uint16], so one past 65535 is 0), leaving every other address and
    field alone.  Hence two [.ORG] blocks that write a common address
    abort the pass. *)
Theorem push_writes_or_overlaps (x : Z) (s : AssemblyState) :
  (used_at s (index s) = true ->
     push x s = Abort (GoPanic "overlapping regions at $%04x" [FInt (index s)])) /\
  (used_at s (index s) = false ->
     exists s', push x s = Done tt s' /\
       used_at s' (index s) = true /\
       rom_at s' (index s) = x /\
       index s' = u16 (index s + 1) /\
       (0 <= index s < 65535 -> index s' = index s + 1) /\
       (forall a, a <> index s ->
          rom_at s' a = rom_at s a /\ used_at s' a = used_at s a) /\
       labels s' = labels s /\ symbols s' = symbols s /\
       resolved s' = resolved s /\ dirty s' = dirty s) /\
  (forall a v w l1 l2 l3 l4,
     assemble_lines [Org (Constant a l1); DatBlock [Constant v l2];
                     Org (Constant a l3); DatBlock [Constant w l4]] (reset s)
     = Abort (GoPanic "overlapping regions at $%04x" [FInt a])).
Proof.
  split; [apply push_used|]. split; [|intros; apply org_blocks_collide].
  intros Hfree. eexists. split; [by apply push_unused|].
  unfold used_at, rom_at; simpl.
  rewrite !lookup_insert_eq. repeat split; try reflexivity.
  - intros Hr. unfold u16. apply Z.mod_small. lia.
  - by rewrite lookup_insert_ne.
  - by rewrite lookup_insert_ne.
Qed.

(** Witness of C5: the first word of a pass, and a second block on top of it. *)
Lemma push_writes_or_overlaps_witness :
  (exists s', push 4660 (reset new_state) = Done tt s' /\
              rom_at s' 0 = 4660 /\ index s' = 1 /\ used_at s' 0 = true) /\
  push 1 (set_index 0 (mkState ∅ ∅ true false ∅ 1 {[0 := true]}))
  = Abort (GoPanic "overlapping regions at $%04x" [FInt 0]).
Proof.
  pose proof (push_writes_or_overlaps 4660 (reset new_state)) as (_ & Hfree & _).
  destruct (Hfree eq_refl) as (s' & Hp & Hu & Hr & _ & Hi & _).
  split.
  - exists s'. repeat split; try assumption. apply Hi. simpl. lia.
  - exact (proj1 (push_writes_or_overlaps 1
             (set_index 0 (mkState ∅ ∅ true false ∅ 1 {[0 := true]}))) eq_refl).
Defined.

(** *** Division by zero *)

(** C10. Evaluation can end in a runtime panic: whenever the right operand
    of a division evaluates to 0, [Evaluate] stops with Go's integer
    divide-by-zero panic, which is neither a value nor a located
    [asmError]; [1 / 0] is such an expression in every state. *)
Theorem division_by_zero_panics :
  (forall lhs rhs s l s1 s2,
     Evaluate lhs s = Done l s1 ->
     Evaluate rhs s1 = Done 0 s2 ->
     Evaluate (BinExpr lhs DIVIDE rhs) s
     = Abort (RuntimePanic "runtime error: integer divide by zero")) /\
  (exists s lhs rhs,
     Evaluate rhs s = Done 0 s /\
     Evaluate (BinExpr lhs DIVIDE rhs) s
     = Abort (RuntimePanic "runtime error: integer divide by zero") /\
     (forall v s', Evaluate (BinExpr lhs DIVIDE rhs) s <> Done v s') /\
     (forall loc msg args,
        Evaluate (BinExpr lhs DIVIDE rhs) s <> Abort (AsmError loc msg args))).
Proof.
  split.
  - intros lhs rhs s l s1 s2 Hl Hr. simpl. unfold abind. rewrite Hl, Hr. reflexivity.
  - exists new_state, (Constant 1 "expr:1:2"), (Constant 0 "expr:1:6").
    repeat split; try reflexivity; intros; discriminate.
Qed.

(** Witness of C10: the text [1 / 0] parses to a division whose evaluation panics. *)
Lemma division_by_zero_panics_witness :
  exists lhs rhs,
    parse_expr_text 4 "1 / 0" = Ret (BinExpr lhs DIVIDE rhs) /\
    Evaluate (BinExpr lhs DIVIDE rhs) new_state
    = Abort (RuntimePanic "runtime error: integer divide by zero").
Proof.
  exists (Constant 1 "expr:1:2"), (Constant 0 "expr:1:5").
  split; [vm_compute; reflexivity|].
  exact (proj1 division_by_zero_panics (Constant 1 "expr:1:2") (Constant 0 "expr:1:5")
           new_state 1 new_state new_state eq_refl eq_refl).
Defined.

(** *** Literal ranges *)

Lemma lor_ones_split v w :
  0 <= w -> Z.lor v (Z.ones w) = Z.shiftl (Z.shiftr v w) w + Z.ones w.
Proof.
  intros Hw.
  assert (Hdisj : Z.land (Z.shiftl (Z.shiftr v w) w) (Z.ones w) = 0).
  { apply Z.bits_inj'. intros n Hn. rewrite Z.land_spec, Z.bits_0.
    destruct (Z.ltb_spec n w).
    - rewrite Z.shiftl_spec_low by lia. reflexivity.
    - rewrite Z.ones_spec_high by lia. apply andb_false_r. }
  rewrite Z.add_nocarry_lxor, Z.lxor_lor by exact Hdisj.
  apply Z.bits_inj'. intros n Hn. rewrite !Z.lor_spec.
  destruct (Z.ltb_spec n w).
  - rewrite Z.ones_spec_low by lia. by rewrite !orb_true_r.
  - rewrite Z.ones_spec_high by lia. rewrite !orb_false_r.
    rewrite Z.shiftl_spec, Z.shiftr_spec by lia. f_equal. lia.
Qed.

Lemma shift_one_u16 w : 0 <= w < 16 -> u16 (Z.shiftl 1 w) = 2 ^ w.
Proof.
  intros Hw. rewrite Z.shiftl_1_l. unfold u16. apply Z.mod_small.
  assert (2 ^ w <= 2 ^ 15) by (apply Z.pow_le_mono_r; lia).
  assert (0 < 2 ^ w) by (apply Z.pow_pos_nonneg; lia).
  change (2 ^ 15) with 32768 in *. lia.
Qed.

Lemma signed_mask w : 0 <= w <= 16 -> u16 (u16 (Z.shiftl 1 w) - 1) = Z.ones w.
Proof.
  intros Hw. rewrite Z.ones_equiv.
  destruct (Z.eq_dec w 16) as [->|Hne]; [reflexivity|].
  rewrite shift_one_u16 by lia. unfold u16. rewrite Z.mod_small; [lia|].
  assert (2 ^ w <= 2 ^ 15) by (apply Z.pow_le_mono_r; lia).
  assert (0 < 2 ^ w) by (apply Z.pow_pos_nonneg; lia).
  change (2 ^ 15) with 32768 in *. lia.
Qed.

(** What the signed test of [checkLiteral] accepts: the values whose
    upper [16 - w] bits are all 0 or all 1. *)
Lemma signed_test_accepts w v :
  0 <= w <= 16 -> is_u16 v ->
  (Z.lor v (Z.ones w) =? Z.ones w) || (Z.lor v (Z.ones w) =? 65535) = true
  <-> upper_bits_uniform (16 - w) v.
Proof.
  intros Hw Hv. unfold upper_bits_uniform.
  replace (16 - (16 - w)) with w by lia.
  rewrite lor_ones_split by lia. rewrite Z.shiftl_mul_pow2 by lia.
  rewrite Z.ones_equiv.
  assert (Hp : 0 < 2 ^ w) by (apply Z.pow_pos_nonneg; lia).
  assert (Hq : 0 < 2 ^ (16 - w)) by (apply Z.pow_pos_nonneg; lia).
  assert (Hs : 2 ^ (16 - w) * 2 ^ w = 65536)
    by (rewrite <- Z.pow_add_r by lia; replace (16 - w + w) with 16 by lia; reflexivity).
  assert (Hn : 0 <= Z.shiftr v w) by (apply Z.shiftr_nonneg; unfold is_u16 in Hv; lia).
  rewrite orb_true_iff, !Z.eqb_eq. split.
  - intros [H|H]; [left; nia | right; nia].
  - intros [H|H]; rewrite H; [left; lia | right; nia].
Qed.

Section Literals.
Context {E : Type} `{ExpressionI E}.

(** The unsigned test accepts exactly the values below [2 ^ w]. *)
Lemma checkLiteral_unsigned (e : E) w s v s' :
  0 <= w < 16 -> evaluate e s = Done v s' ->
  (v < 2 ^ w -> checkLiteral e false w s = Done v s') /\
  (2 ^ w <= v ->
     checkLiteral e false w s
     = Abort (AsmError (location e)
                "Unsigned literal %d (0x%x) is too big for %d-bit literal"
                [FInt v; FInt v; FInt w])).
Proof using Type.
  intros Hw He. unfold checkLiteral, abind. rewrite He. simpl.
  rewrite shift_one_u16 by lia. split; intros Hv.
  - destruct (Z.ltb_spec v (2 ^ w)); [reflexivity|lia].
  - destruct (Z.ltb_spec v (2 ^ w)); [lia|reflexivity].
Qed.

(** The signed test accepts exactly the values whose upper [16 - w]
    bits are all 0 or all 1. *)
Lemma checkLiteral_signed (e : E) w s v s' :
  0 <= w <= 16 -> is_u16 v -> evaluate e s = Done v s' ->
  (upper_bits_uniform (16 - w) v -> checkLiteral e true w s = Done v s') /\
  (~ upper_bits_uniform (16 - w) v ->
     checkLiteral e true w s
     = Abort (AsmError (location e)
                "Signed literal %d (0x%x) doesn't fit in %d-bit literal"
                [FInt v; FInt v; FInt w])).
Proof using Type.
  intros Hw Hv He. unfold checkLiteral, abind. rewrite He. simpl.
  rewrite signed_mask by lia.
  pose proof (signed_test_accepts w v Hw Hv) as Hacc.
  destruct ((Z.lor v (Z.ones w) =? Z.ones w) || (Z.lor v (Z.ones w) =? 65535)).
  - split; [reflexivity|]. intros Hn. exfalso. apply Hn, Hacc. reflexivity.
  - split; [|reflexivity]. intros Hu. apply Hacc in Hu. discriminate.
Qed.
End Literals.


(** *** Branches, revision B *)

Lemma neg16_cases d :
  is_u16 d -> neg16 d = if d =? 0 then 0 else 65536 - d.
Proof.
  unfold is_u16, neg16, u16. intros Hd.
  destruct (Z.eqb_spec d 0) as [->|Hne]; [reflexivity|].
  replace (- d) with (65536 - d + (-1) * 65536) by lia.
  rewrite Z.mod_add by lia. apply Z.mod_small. lia.
Qed.









(** Revision A encodes branches otherwise: [B] has a ten-bit form and a
    next-word form with an opcode of its own, no reserved offset, and a
    distance of -1 is emitted in one word (with the product [diff * 0x3ff]
    where a mask was meant); the conditional branches have no long form. *)
Remark revA_branch_to_itself lookup2 loc s :
  RevA.opBranch lookup2 loc "B"
    [mkArg AT_LABEL 0 false None (Some (RevA.Constant (index s) loc))] s
  = push (28672 .| u16 (65535 * 1023)) s.
Proof.
  unfold RevA.opBranch. simpl. unfold abind, aret, aget. simpl.
  replace (u16 (index s - u16 (index s + 1))) with 65535.
  - reflexivity.
  - unfold u16. rewrite Zminus_mod_idemp_r.
    replace (index s - (index s + 1)) with (-1) by lia. reflexivity.
Qed.

(** *** The immediate format, revision A *)


(** Revision B has another immediate format (1-bit prefix, 4-bit
    operation): there the parsed [MOV r0, #5] is the word 0x0805 and
    [ADD r0, #1] the word 0x2001. *)
Remark revB_immediate_examples (n : nat) (s : AssemblyState) :
  (exists i1 i2, parse_text (4 + n) "f" (source ["MOV r0, #5"; "ADD r0, #1"])
                 = Ret [i1; i2] /\
                 Assemble i1 s = push 0x0805 s /\ Assemble i2 s = push 0x2001 s).
Proof.
  eexists _, _. split; [vm_compute; reflexivity|]. split; reflexivity.
Qed.

(** *** Expressions from text *)

Lemma neg16_is_complement v : neg16 v = u16 (65536 - v).
Proof.
  unfold neg16, u16. replace (65536 - v) with (- v + 1 * 65536) by lia.
  by rewrite Z.mod_add.
Qed.

(** C8. Parsed by [parseSimpleExpr] and then evaluated, [1 + 2 * 3] is 7,
    [(1 + 2) * 3] is 9, [~0] is 0xFFFF and [-1] is 0xFFFF, in every state
    and with any fuel from 4 on.  The multiplicative tier binds tighter
    than the additive one, a chain of one tier nests to the left, sums,
    differences and products wrap modulo 2^16, and the negation of [v] is
    [0x10000 - v] cut to 16 bits. *)
Theorem expression_precedence_examples (n : nat) (s : AssemblyState) :
  evaluate_text (4 + n) "1 + 2 * 3" s = Some (Done 7 s) /\
  evaluate_text (4 + n) "(1 + 2) * 3" s = Some (Done 9 s) /\
  evaluate_text (4 + n) "~0" s = Some (Done 0xFFFF s) /\
  evaluate_text (4 + n) "-1" s = Some (Done 0xFFFF s) /\
  parse_expr_text (4 + n) "1 + 2 * 3"
  = Ret (BinExpr (Constant 1 "expr:1:2") PLUS
           (BinExpr (Constant 2 "expr:1:6") TIMES (Constant 3 "expr:1:9"))) /\
  parse_expr_text (4 + n) "7 - 2 - 1"
  = Ret (BinExpr (BinExpr (Constant 7 "expr:1:2") MINUS (Constant 2 "expr:1:6"))
           MINUS (Constant 1 "expr:1:9")) /\
  evaluate_text (4 + n) "7 - 2 - 1" s = Some (Done 4 s) /\
  evaluate_text (4 + n) "0xffff + 2" s = Some (Done 1 s) /\
  evaluate_text (4 + n) "0 - 1" s = Some (Done 0xFFFF s) /\
  evaluate_text (4 + n) "0x100 * 0x100" s = Some (Done 0 s) /\
  (forall v loc, Evaluate (UnaryExpr MINUS (Constant v loc)) s
                 = Done (u16 (0x10000 - v)) s) /\
  (forall a b la lb,
     Evaluate (BinExpr (Constant a la) PLUS (Constant b lb)) s
     = Done ((a + b) mod 2 ^ 16) s /\
     Evaluate (BinExpr (Constant a la) MINUS (Constant b lb)) s
     = Done ((a - b) mod 2 ^ 16) s /\
     Evaluate (BinExpr (Constant a la) TIMES (Constant b lb)) s
     = Done ((a * b) mod 2 ^ 16) s).
Proof.
  do 10 (split; [vm_compute; reflexivity|]).
  split.
  - intros v loc. simpl. unfold abind, aret.
    change (u16 (- v)) with (neg16 v). by rewrite neg16_is_complement.
  - intros a b la lb. repeat split; reflexivity.
Qed.

(** *** [.RESERVE] *)

(** A block of length 0 emits nothing, whatever its value. *)
Lemma fill_of_length_zero s l0 l1 v :
  Assemble (FillBlock (Constant 0 l0) (Constant v l1)) s = Done tt s.
Proof. reflexivity. Qed.

(** C6 (the defect). [parseDirective] builds the block of [.RESERVE n]
    with its two fields swapped, length 0 and value [n]: assembling
    [.RESERVE 5] emits no word and leaves the state as it was, while
    [.FILL 0, 5] emits five words 0.  Both revisions of the parser do so. *)
Theorem reserve_emits_nothing (n : nat) (s : AssemblyState) :
  parse_text (4 + n) "f" (source [".RESERVE 5"])
  = Ret [FillBlock (Constant 0 "f:1:9") (Constant 5 "f:2:0")] /\
  Assemble (FillBlock (Constant 0 "f:1:9") (Constant 5 "f:2:0")) s = Done tt s /\
  (forall v l0 l1, Assemble (FillBlock (Constant 0 l0) (Constant v l1)) s = Done tt s) /\
  parse_text (4 + n) "f" (source [".FILL 0, 5"])
  = Ret [FillBlock (Constant 5 "f:2:0") (Constant 0 "f:1:8")] /\
  Assemble (FillBlock (Constant 5 "f:2:0") (Constant 0 "f:1:8")) s = push_times 5 0 s /\
  revA_directive_text (4 + n) (source [".RESERVE 5"])
  = Ret (RevA.FillBlock (RevA.Constant 0 "f:1:9") (RevA.Constant 5 "f:1:9")) /\
  (forall lookup2,
     RevA.Assemble lookup2
       (RevA.FillBlock (RevA.Constant 0 "f:1:9") (RevA.Constant 5 "f:1:9")) s
     = Done tt s) /\
  revA_directive_text (4 + n) (source [".FILL 0, 5"])
  = Ret (RevA.FillBlock (RevA.Constant 5 "f:1:8") (RevA.Constant 0 "f:1:6")).
Proof.
  split; [vm_compute; reflexivity|].
  split; [reflexivity|].
  split; [intros; apply fill_of_length_zero|].
  split; [vm_compute; reflexivity|].
  split; [reflexivity|].
  split; [vm_compute; reflexivity|].
  split; [reflexivity|].
  vm_compute; reflexivity.
Qed.

(** What [.FILL 0, 5] does from the start of a pass: five zero words at
    addresses 0 to 4 and the cursor at 5. *)
Remark fill_five_zeros :
  exists s', Assemble (FillBlock (Constant 5 "f:2:0") (Constant 0 "f:1:8")) (reset new_state)
             = Done tt s' /\
             index s' = 5 /\
             (forall a, 0 <= a < 5 -> used_at s' a = true /\ rom_at s' a = 0).
Proof.
  eexists. split; [vm_compute; reflexivity|]. split; [reflexivity|].
  intros a Ha.
  assert (a = 0 \/ a = 1 \/ a = 2 \/ a = 3 \/ a = 4) as [->|[->|[->|[->| ->]]]] by lia;
    split; reflexivity.
Qed.

(** *** Names that are not defined *)

Lemma Evaluate_pure e s v s' : Evaluate e s = Done v s' -> s' = s.
Proof.
  intros H.
  apply (keeps_Evaluate (fun s s' => s' = s)) in H; [exact H|reflexivity|].
  intros s1 s2 s3 H12 H23. congruence.
Qed.

Lemma unknown_name_aborts label loc s :
  unknown s label ->
  Evaluate (LabelUse label loc) s = Abort (AsmError loc "Unknown label '%s'" [FStr label]).
Proof.
  intros [Hl Hs]. simpl. unfold abind, aget, lookup_name. by rewrite Hl, Hs.
Qed.

Lemma mention_of_unknown_aborts e : forall s name,
  mentions name e -> unknown s name -> exists f, Evaluate e s = Abort f.
Proof.
  induction e as [l loc|v loc|lhs IHl op rhs IHr|op e IH]; simpl; intros s name Hm Hu.
  - subst. eexists. by apply unknown_name_aborts.
  - contradiction.
  - unfold abind.
    destruct (Evaluate lhs s) as [l s1|f] eqn:El; [|by eexists].
    pose proof (Evaluate_pure _ _ _ _ El) as ->.
    destruct Hm as [Hm|Hm].
    + destruct (IHl s name Hm Hu) as [f Hf]. congruence.
    + destruct (IHr s name Hm Hu) as [f Hf]. rewrite Hf. by eexists.
  - unfold abind. destruct (IH s name Hm Hu) as [f Hf]. rewrite Hf. by eexists.
Qed.

Lemma abort_stops_the_pass l rest s f :
  Assemble l s = Abort f -> assemble_lines (l :: rest) s = Abort f.
Proof. intros H. simpl. unfold abind. by rewrite H. Qed.

Lemma statements_keep_resolved lines :
  keeps (fun s s' => resolved s' = resolved s) (assemble_lines lines).
Proof.
  apply keeps_assemble_lines.
  - reflexivity.
  - intros s1 s2 s3 H12 H23. congruence.
  - intros x s [] s'. unfold push. destruct (used_at s (index s)); [discriminate|].
    by intros [= <-].
  - intros a s [] s' [= <-]. reflexivity.
  - intros l v s [] s' [= <-]. reflexivity.
  - intros l a s [] s'. unfold updateLabel.
    destruct (labels s !! l) as [lr|]; [|discriminate].
    intros [= <-]. simpl. by destruct (negb (defined lr) || negb (value lr =? a)).
Qed.

Lemma pass_ends_resolved lines s s' : one_pass lines s = Done tt s' -> resolved s' = true.
Proof.
  unfold one_pass. intros H. by rewrite (statements_keep_resolved lines _ _ _ H).
Qed.

Lemma first_definition_is_dirty label s v :
  labels s !! label = Some (mkLabelRef v false) ->
  exists s', Assemble (LabelDef label) s = Done tt s' /\ dirty s' = true /\
             labels s' !! label = Some (mkLabelRef (index s) true).
Proof.
  intros H. simpl. unfold abind, aget, updateLabel. rewrite H. simpl.
  eexists. split; [reflexivity|]. split; [reflexivity|]. simpl. apply lookup_insert_eq.
Qed.

(** C1, as the code has it.  Revision B, the one that builds: evaluating
    an expression never changes the state, so it never clears [resolved]
    (every completed pass ends with [resolved] true); a name that is in
    neither table is the fatal "Unknown label" error, any expression that
    mentions such a name stops, and a statement that stops ends the pass
    without running the statements after it; a label that is registered
    but not reached yet evaluates to its stored value, and it is its
    definition, later in the pass, that sets [dirty] and so asks for one
    more pass.  Revision A: a name whose lookup says "not defined" makes
    evaluation clear [resolved] and yield 0, and evaluation always
    returns. *)
Theorem undefined_name_handling :
  (forall e s v s', Evaluate e s = Done v s' -> s' = s) /\
  (forall lines s s', one_pass lines s = Done tt s' -> resolved s' = true) /\
  (forall label loc s,
     unknown s label ->
     Evaluate (LabelUse label loc) s
     = Abort (AsmError loc "Unknown label '%s'" [FStr label])) /\
  (forall e s name,
     mentions name e -> unknown s name -> exists f, Evaluate e s = Abort f) /\
  (forall l rest s f,
     Assemble l s = Abort f -> assemble_lines (l :: rest) s = Abort f) /\
  (forall label loc s v,
     labels s !! label = Some (mkLabelRef v false) ->
     Evaluate (LabelUse label loc) s = Done v s) /\
  (forall label s v,
     labels s !! label = Some (mkLabelRef v false) ->
     exists s', Assemble (LabelDef label) s = Done tt s' /\ dirty s' = true /\
                labels s' !! label = Some (mkLabelRef (index s) true)) /\
  (forall lookup2 label loc s,
     snd (lookup2 s label) = false ->
     RevA.Evaluate lookup2 (RevA.LabelUse label loc) s = Done 0 (set_resolved false s)) /\
  (forall lookup2 e s, exists v s', RevA.Evaluate lookup2 e s = Done v s').
Proof.
  split; [exact Evaluate_pure|].
  split; [exact pass_ends_resolved|].
  split; [exact unknown_name_aborts|].
  split; [exact mention_of_unknown_aborts|].
  split; [exact abort_stops_the_pass|].
  split.
  { intros label loc s v H. simpl. unfold abind, aget, lookup_name. by rewrite H. }
  split; [exact first_definition_is_dirty|].
  split.
  - intros lookup2 label loc s H. simpl. unfold abind, aget.
    destruct (lookup2 s label) as [v d]. simpl in H. subst d. reflexivity.
  - intros lookup2 [label loc|v loc] s; simpl.
    + unfold abind, aget. destruct (lookup2 s label) as [v []]; simpl; by eexists _, _.
    + by eexists _, _.
Qed.

(** Witness of C1: a name defined nowhere, a label registered but not
    reached, and revision A with a lookup that knows nothing. *)
Lemma undefined_name_handling_witness :
  Evaluate (LabelUse "nope" "f:1:6") (reset new_state)
  = Abort (AsmError "f:1:6" "Unknown label '%s'" [FStr "nope"]) /\
  Evaluate (LabelUse "x" "f:1:3") (reset (addLabel "x" new_state))
  = Done 0 (reset (addLabel "x" new_state)) /\
  RevA.Evaluate (fun _ _ => (0, false)) (RevA.LabelUse "x" "f:1:3") (reset new_state)
  = Done 0 (set_resolved false (reset new_state)).
Proof.
  destruct undefined_name_handling as (_ & _ & Hunk & _ & _ & Hfwd & _ & HrevA & _).
  split; [|split].
  - apply Hunk. split; reflexivity.
  - apply Hfwd. reflexivity.
  - apply HrevA. reflexivity.
Defined.

(** C1 as stated fails in revision B: with [nope] defined nowhere, its
    evaluation stops assembly with "Unknown label" and the statement after
    it never runs; and the label [x], registered but not reached, is
    evaluated without [resolved] being cleared. *)
Lemma undefined_name_counterexample :
  parse_text 4 "f" (source [".dat nope"; ".dat 1"])
  = Ret [DatBlock [LabelUse "nope" "f:2:0"]; DatBlock [Constant 1 "f:3:0"]] /\
  snd (fst (lookup_name (initial_state
                           [DatBlock [LabelUse "nope" "f:2:0"];
                            DatBlock [Constant 1 "f:3:0"]]) "nope")) = false /\
  assemble_program 1 [DatBlock [LabelUse "nope" "f:2:0"]; DatBlock [Constant 1 "f:3:0"]]
  = Failed (AsmError "f:2:0" "Unknown label '%s'" [FStr "nope"]) /\
  snd (fst (lookup_name (reset (addLabel "x" new_state)) "x")) = false /\
  Evaluate (LabelUse "x" "f:1:3") (reset (addLabel "x" new_state))
  = Done 0 (reset (addLabel "x" new_state)) /\
  resolved (reset (addLabel "x" new_state)) = true.
Proof. repeat split; vm_compute; reflexivity. Qed.

(** *** The pass driver *)

Lemma main_loop_finished fuel lines : forall s s',
  main_loop fuel lines s = Finished s' ->
  dirty s' = false /\ resolved s' = true /\
  exists k, (k < fuel)%nat /\ after_passes k lines s = Some s'.
Proof.
  induction fuel as [|fuel IH]; simpl; intros s s' H; [discriminate|].
  destruct (dirty s || negb (resolved s)) eqn:Ec.
  - destruct (one_pass lines s) as [[] s1|f] eqn:E; [|discriminate].
    destruct (IH _ _ H) as (Hd & Hr & k & Hk & Hp).
    split; [exact Hd|]. split; [exact Hr|].
    exists (S k). split; [lia|]. simpl. by rewrite E.
  - inversion H; subst. apply orb_false_iff in Ec as [Hd Hr].
    apply negb_false_iff in Hr.
    split; [exact Hd|]. split; [exact Hr|]. exists 0%nat. split; [lia|reflexivity].
Qed.

Lemma main_loop_failed fuel lines : forall s f,
  main_loop fuel lines s = Failed f ->
  exists k sk, (k < fuel)%nat /\ after_passes k lines s = Some sk /\
               one_pass lines sk = Abort f.
Proof.
  induction fuel as [|fuel IH]; simpl; intros s f H; [discriminate|].
  destruct (dirty s || negb (resolved s)) eqn:Ec; [|discriminate].
  destruct (one_pass lines s) as [[] s1|f'] eqn:E.
  - destruct (IH _ _ H) as (k & sk & Hk & Hp & Ha).
    exists (S k), sk. split; [lia|]. simpl. rewrite E. by split.
  - inversion H; subst. exists 0%nat, s. split; [lia|]. by split.
Qed.

Lemma oscillating_passes :
  one_pass oscillating (initial_state oscillating) = Done tt osc_at_1 /\
  one_pass oscillating osc_at_1 = Done tt osc_at_0 /\
  one_pass oscillating osc_at_0 = Done tt osc_at_1.
Proof. repeat split; vm_compute; reflexivity. Qed.

Lemma oscillating_runs_on fuel :
  (exists s, main_loop fuel oscillating osc_at_1 = StillRunning s) /\
  (exists s, main_loop fuel oscillating osc_at_0 = StillRunning s).
Proof.
  destruct oscillating_passes as (_ & H10 & H01).
  induction fuel as [|fuel [IH1 IH0]]; [split; by eexists|].
  split; simpl.
  - rewrite H10. exact IH0.
  - rewrite H01. exact IH1.
Qed.

Lemma oscillating_never_stops fuel :
  exists s, assemble_program fuel oscillating = StillRunning s.
Proof.
  destruct fuel as [|fuel]; [by eexists|].
  unfold assemble_program. cbn [main_loop].
  change (dirty (initial_state oscillating) || negb (resolved (initial_state oscillating)))
    with true. cbv iota.
  rewrite (proj1 oscillating_passes). apply oscillating_runs_on.
Qed.

(** C2, as the code has it.  The loop of the driver has no bound and no
    error of its own: it leaves only after a pass that ended clean
    ([dirty] false, [resolved] true), it fails only with the failure of a
    statement of some pass, and a name defined nowhere fails in the first
    pass with the "Unknown label" error of its evaluation; the program
    [.fill 0, 1 - b] followed by [:b] keeps it running for ever. *)
Theorem driver_has_no_bound :
  (forall fuel lines s s',
     main_loop fuel lines s = Finished s' ->
     dirty s' = false /\ resolved s' = true /\
     exists k, (k < fuel)%nat /\ after_passes k lines s = Some s') /\
  (forall fuel lines s f,
     main_loop fuel lines s = Failed f ->
     exists k sk, (k < fuel)%nat /\ after_passes k lines s = Some sk /\
                  one_pass lines sk = Abort f) /\
  (forall fuel name loc rest,
     assemble_program (S fuel) (DatBlock [LabelUse name loc] :: rest)
     = Failed (AsmError loc "Unknown label '%s'" [FStr name]) \/
     exists lr, labels (initial_state (DatBlock [LabelUse name loc] :: rest)) !! name
                = Some lr) /\
  parse_text 4 "f" (source [".fill 0, 1 - b"; ":b"]) = Ret oscillating /\
  (forall fuel, exists s, assemble_program fuel oscillating = StillRunning s).
Proof.
  split; [exact main_loop_finished|].
  split; [exact main_loop_failed|].
  split.
  - intros fuel name loc rest.
    destruct (labels (initial_state (DatBlock [LabelUse name loc] :: rest)) !! name)
      as [lr|] eqn:E; [right; by eexists|left].
    unfold assemble_program. cbn [main_loop].
    assert (Hd : dirty (initial_state (DatBlock [LabelUse name loc] :: rest)) = true)
      by reflexivity.
    rewrite Hd. cbn [orb]. unfold one_pass.
    rewrite (abort_stops_the_pass _ _ _ (AsmError loc "Unknown label '%s'" [FStr name]));
      [reflexivity|].
    cbn [Assemble push_values]. unfold abind at 1.
    rewrite unknown_name_aborts; [reflexivity|].
    split; [exact E|apply lookup_empty].
  - split; [vm_compute; reflexivity|exact oscillating_never_stops].
Qed.

(** Witness of C2: a forward branch over one instruction settles in three
    passes, and the loop is left clean. *)
Lemma driver_has_no_bound_witness :
  exists s', assemble_program 5
               [Instruction "B" [label_arg (LabelUse "x" "f:1:3")] "f:2:0";
                Instruction "MOV" [reg_arg 0; lit_arg (Constant 5 "f:3:0")] "f:3:0";
                LabelDef "x"] = Finished s' /\
             dirty s' = false /\ resolved s' = true /\
             labels s' !! "x" = Some (mkLabelRef 2 true).
Proof.
  destruct (assemble_program 5
              [Instruction "B" [label_arg (LabelUse "x" "f:1:3")] "f:2:0";
               Instruction "MOV" [reg_arg 0; lit_arg (Constant 5 "f:3:0")] "f:3:0";
               LabelDef "x"]) as [s'|f|s'] eqn:E;
    [|vm_compute in E; discriminate|vm_compute in E; discriminate].
  exists s'. split; [reflexivity|].
  destruct (proj1 driver_has_no_bound _ _ _ _ E) as (Hd & Hr & _).
  split; [exact Hd|]. split; [exact Hr|].
  vm_compute in E. injection E as <-. reflexivity.
Defined.

(** C2 as stated fails: no number of passes brings the driver to an end,
    by success or by failure, on [.fill 0, 1 - b] followed by [:b]. *)
Lemma driver_bound_counterexample :
  ~ (exists bound : nat,
       (exists s, assemble_program bound oscillating = Finished s) \/
       (exists f, assemble_program bound oscillating = Failed f)).
Proof.
  intros [bound [[s H]|[f H]]];
    destruct (oscillating_never_stops bound) as [s' Hs]; congruence.
Qed.

(** ** Further properties *)

(** *** Names: labels before symbols *)

(** X1. [lookup] reads the label table first: after [updateSymbol l v] the
    name [l] reads as [(v, true, true)] unless a label of that name
    exists, which then hides the symbol; other names read as before.  A
    [.DEFINE] is therefore seen by a later use in the same pass. *)
Theorem symbol_defined_then_read (l : string) (v : Z) (s : AssemblyState) :
  exists s', updateSymbol l v s = Done tt s' /\
    (labels s !! l = None -> lookup_name s' l = (v, true, true)) /\
    (forall lr, labels s !! l = Some lr ->
       lookup_name s' l = (value lr, defined lr, true)) /\
    (forall k, k <> l -> lookup_name s' k = lookup_name s k) /\
    (forall e loc, labels s !! l = None -> Evaluate e s = Done v s ->
       (run Assemble (SymbolDef l e); Evaluate (LabelUse l loc)) s = Done v s').
Proof.
  eexists. split; [reflexivity|]. unfold lookup_name; simpl.
  split; [|split; [|split]].
  - intros ->. by rewrite lookup_insert_eq.
  - by intros lr ->.
  - intros k Hk. by rewrite lookup_insert_ne.
  - intros e loc Hl He. unfold abind. rewrite He.
    unfold updateSymbol, amodify, aget, lookup_name; simpl.
    by rewrite Hl, lookup_insert_eq.
Qed.

Lemma symbol_defined_then_read_witness :
  (run Assemble (SymbolDef "n" (Constant 7 "f:1:9")); Evaluate (LabelUse "n" "f:2:5"))
    (reset new_state)
  = Done 7 (set_symbols {["n" := mkLabelRef 7 true]} (reset new_state)).
Proof.
  destruct (symbol_defined_then_read "n" 7 (reset new_state)) as (s' & Hs & _ & _ & _ & H).
  injection Hs as <-. apply H; reflexivity.
Defined.

(** *** Collecting labels *)

Lemma collect_labels_other lines : forall s,
  symbols (collect_labels lines s) = symbols s /\
  resolved (collect_labels lines s) = resolved s /\
  dirty (collect_labels lines s) = dirty s /\
  rom (collect_labels lines s) = rom s /\
  index (collect_labels lines s) = index s /\
  used (collect_labels lines s) = used s.
Proof.
  induction lines as [|l lines IH]; intros s; [by repeat split|].
  destruct l as [fn|oe|sn se|vs|fl fv|lbl|opc ags iloc|st d b pl pr po|rg st lr b]; simpl; try apply IH.
  destruct (IH (addLabel lbl s)) as (?&?&?&?&?&?). by repeat split.
Qed.

Lemma collect_labels_lookup lines l : forall s,
  labels (collect_labels lines s) !! l
  = (if defines l lines then Some (mkLabelRef 0 false) else labels s !! l).
Proof.
  induction lines as [|x lines IH]; intros s; [reflexivity|].
  destruct x as [fn|oe|sn se|vs|fl fv|lbl|opc ags iloc|st d b pl pr po|rg st lr b]; simpl; try apply IH.
  rewrite IH. unfold addLabel; simpl.
  destruct (String.eqb_spec lbl l) as [->|Hne]; simpl.
  - rewrite lookup_insert_eq. by destruct (defines l lines).
  - by rewrite lookup_insert_ne.
Qed.

(** X2. The pre-collection registers every label definition of the
    program as the entry [(0, false)], whether the name occurs once or
    several times and whatever entry the name had before; every other
    name and every other field of the state is left alone. *)
Theorem labels_collected (lines : list Assembled) (l : string) (s : AssemblyState) :
  labels (collect_labels lines s) !! l
  = (if defines l lines then Some (mkLabelRef 0 false) else labels s !! l) /\
  symbols (collect_labels lines s) = symbols s /\
  resolved (collect_labels lines s) = resolved s /\
  dirty (collect_labels lines s) = dirty s /\
  rom (collect_labels lines s) = rom s /\
  index (collect_labels lines s) = index s /\
  used (collect_labels lines s) = used s.
Proof. split; [apply collect_labels_lookup|apply collect_labels_other]. Qed.

(** *** Defining a label *)

(** X3. [updateLabel l a] on a registered label binds it to [a] as defined
    and raises [dirty] exactly when the label was undefined or had
    another value; done a second time with the same address it changes
    nothing more, and on a label already defined at [a] it changes nothing
    at all.  On a name that was never registered it panics. *)
Theorem label_update (l : string) (a : Z) (s : AssemblyState) :
  (labels s !! l = None ->
     updateLabel l a s = Abort (GoPanic "unknown label: '%s'" [FStr l])) /\
  (forall lr, labels s !! l = Some lr ->
     exists s', updateLabel l a s = Done tt s' /\
       labels s' = <[l := mkLabelRef a true]> (labels s) /\
       dirty s' = dirty s || (negb (defined lr) || negb (value lr =? a)) /\
       symbols s' = symbols s /\ resolved s' = resolved s /\ rom s' = rom s /\
       index s' = index s /\ used s' = used s /\
       updateLabel l a s' = Done tt s') /\
  (labels s !! l = Some (mkLabelRef a true) -> updateLabel l a s = Done tt s).
Proof.
  unfold updateLabel. split; [by intros ->|]. split.
  - intros lr Hl. rewrite Hl.
    destruct (negb (defined lr) || negb (value lr =? a)) eqn:Ec;
      (eexists; split; [reflexivity|]); simpl;
      rewrite lookup_insert_eq; simpl; rewrite Z.eqb_refl; simpl;
      unfold set_labels; simpl; rewrite insert_insert_eq;
      rewrite ?orb_true_r, ?orb_false_r; repeat split; reflexivity.
  - intros Hl. rewrite Hl. simpl. rewrite Z.eqb_refl. simpl.
    unfold set_labels. rewrite insert_id by exact Hl. by destruct s.
Qed.

Lemma label_update_witness :
  exists s', updateLabel "x" 3 (addLabel "x" (reset new_state)) = Done tt s' /\
             dirty s' = true /\ updateLabel "x" 3 s' = Done tt s'.
Proof.
  destruct (proj1 (proj2 (label_update "x" 3 (addLabel "x" (reset new_state))))
              (mkLabelRef 0 false) eq_refl) as (s' & H1 & _ & H2 & _ & _ & _ & _ & _ & H3).
  exists s'. split; [exact H1|]. split; [exact H2|exact H3].
Defined.

(** *** What an expression depends on *)

Lemma Evaluate_same_tables (e : Expression) (s1 s2 : AssemblyState) :
  same_tables s1 s2 -> result_of (Evaluate e s1) = result_of (Evaluate e s2).
Proof.
  intros [Hl Hs]. induction e as [l loc|v loc|lhs IHl op rhs IHr|op e IH]; simpl.
  - unfold abind, aget, lookup_name. rewrite Hl, Hs.
    destruct (labels s2 !! l) as [lr|]; [reflexivity|].
    destruct (symbols s2 !! l) as [lr|]; reflexivity.
  - reflexivity.
  - unfold abind.
    destruct (Evaluate lhs s1) as [l1 t1|f1] eqn:E1,
             (Evaluate lhs s2) as [l2 t2|f2] eqn:E2; simpl in IHl; try discriminate;
      [|exact IHl].
    injection IHl as <-.
    apply Evaluate_pure in E1 as ->. apply Evaluate_pure in E2 as ->.
    destruct (Evaluate rhs s1) as [r1 u1|g1] eqn:F1,
             (Evaluate rhs s2) as [r2 u2|g2] eqn:F2; simpl in IHr; try discriminate;
      [|exact IHr].
    injection IHr as <-.
    destruct op; try reflexivity. unfold afail, aret. by destruct (r1 =? 0).
  - unfold abind.
    destruct (Evaluate e s1) as [v1 t1|f1] eqn:E1,
             (Evaluate e s2) as [v2 t2|f2] eqn:E2; simpl in IH; try discriminate;
      [|exact IH].
    injection IH as <-. destruct op; reflexivity.
Qed.

(** X4. The value of an expression, or the failure it stops with, depends
    on the label and symbol tables only: two states that agree on both
    give the same result, whatever their cursor, flags, rom and used
    addresses. *)
Theorem value_depends_on_tables (e : Expression) (s1 s2 : AssemblyState) :
  same_tables s1 s2 -> result_of (Evaluate e s1) = result_of (Evaluate e s2).
Proof. apply Evaluate_same_tables. Qed.

Lemma value_depends_on_tables_witness :
  result_of (Evaluate (BinExpr (LabelUse "x" "f:1:1") PLUS (Constant 1 "f:1:5"))
               (addLabel "x" new_state))
  = result_of (Evaluate (BinExpr (LabelUse "x" "f:1:1") PLUS (Constant 1 "f:1:5"))
                 (set_index 9 (set_dirty true (addLabel "x" new_state)))).
Proof.
  apply value_depends_on_tables. split; reflexivity.
Defined.

Lemma Evaluate_transport e s1 s2 v :
  same_tables s1 s2 -> Evaluate e s1 = Done v s1 -> Evaluate e s2 = Done v s2.
Proof.
  intros Ht He. pose proof (Evaluate_same_tables e s1 s2 Ht) as H.
  rewrite He in H. simpl in H.
  destruct (Evaluate e s2) as [v2 t2|f] eqn:E; [|discriminate].
  injection H as <-. by apply Evaluate_pure in E as ->.
Qed.

(** *** Blocks of words *)

Lemma push_frame x s s' :
  push x s = Done tt s' ->
  labels s' = labels s /\ symbols s' = symbols s /\
  resolved s' = resolved s /\ dirty s' = dirty s.
Proof.
  unfold push. destruct (used_at s (index s)); [discriminate|].
  intros [= <-]. by repeat split.
Qed.

Lemma push_list_writes ws : forall s,
  is_u16 (index s) -> index s + Z.of_nat (length ws) <= 65536 ->
  free_from s (index s) (Z.of_nat (length ws)) ->
  exists s', push_list ws s = Done tt s' /\
    index s' = u16 (index s + Z.of_nat (length ws)) /\
    (forall (i : nat) w, ws !! i = Some w ->
       rom_at s' (index s + Z.of_nat i) = w /\
       used_at s' (index s + Z.of_nat i) = true) /\
    (forall a, ~ (index s <= a < index s + Z.of_nat (length ws)) ->
       rom_at s' a = rom_at s a /\ used_at s' a = used_at s a) /\
    labels s' = labels s /\ symbols s' = symbols s /\
    resolved s' = resolved s /\ dirty s' = dirty s.
Proof.
  induction ws as [|w ws IH]; intros s Hi Hlen Hfree.
  - exists s. simpl. rewrite Z.add_0_r, u16_small by exact Hi.
    split; [reflexivity|]. split; [reflexivity|].
    split; [intros j w H; by destruct j|]. split; [by intros|by repeat split].
  - simpl length in *. rewrite Nat2Z.inj_succ in *.
    assert (Hu : used_at s (index s) = false) by (apply Hfree; lia).
    unfold is_u16 in Hi.
    simpl. unfold abind. rewrite (push_unused w s Hu).
    set (s1 := mkState (labels s) (symbols s) (resolved s) (dirty s)
                 (<[index s := w]> (rom s)) (u16 (index s + 1))
                 (<[index s := true]> (used s))).
    destruct ws as [|w2 ws].
    + exists s1. simpl. split; [reflexivity|]. split; [reflexivity|].
      split; [|split; [|by repeat split]].
      * intros [|i] w' H; [|by destruct i]. injection H as <-.
        rewrite Z.add_0_r. unfold rom_at, used_at; simpl. by rewrite !lookup_insert_eq.
      * intros a Ha. unfold rom_at, used_at; simpl.
        rewrite !lookup_insert_ne by lia. by split.
    + assert (Hix : index s1 = index s + 1).
      { unfold s1; simpl. apply u16_small. unfold is_u16. simpl length in Hlen.
        rewrite Nat2Z.inj_succ in Hlen. lia. }
      destruct (IH s1) as (s' & Hp & Hidx & Hw & Ho & Hl & Hs & Hr & Hd).
      * unfold is_u16. simpl length in Hlen. rewrite Nat2Z.inj_succ in Hlen. lia.
      * rewrite Hix. lia.
      * intros k Hk. rewrite Hix in Hk. unfold used_at, s1; simpl.
        rewrite lookup_insert_ne by lia. apply Hfree. lia.
      * exists s'. split; [exact Hp|]. split.
        { rewrite Hidx, Hix. f_equal. lia. }
        split; [|split; [|by repeat split]].
        -- intros [|i] w' H.
           ++ injection H as <-. rewrite Z.add_0_r.
              destruct (Ho (index s)) as [Hr1 Hu1]; [rewrite Hix; lia|].
              rewrite Hr1, Hu1. unfold rom_at, used_at, s1; simpl.
              by rewrite !lookup_insert_eq.
           ++ simpl in H. destruct (Hw i w' H) as [Hr1 Hu1].
              rewrite Hix in Hr1, Hu1.
              replace (index s + Z.of_nat (S i)) with (index s + 1 + Z.of_nat i) by lia.
              by split.
        -- intros a Ha. destruct (Ho a) as [Hr1 Hu1]; [rewrite Hix; lia|].
           rewrite Hr1, Hu1. unfold rom_at, used_at, s1; simpl.
           rewrite !lookup_insert_ne by lia. by split.
Qed.

Lemma push_list_overlaps ws : forall s (k : nat),
  0 <= index s -> index s + Z.of_nat k < 65536 ->
  (k < length ws)%nat ->
  free_from s (index s) (Z.of_nat k) ->
  used_at s (index s + Z.of_nat k) = true ->
  push_list ws s
  = Abort (GoPanic "overlapping regions at $%04x" [FInt (index s + Z.of_nat k)]).
Proof.
  induction ws as [|w ws IH]; intros s k Hi Hk Hlen Hfree Hused; [simpl in Hlen; lia|].
  simpl. unfold abind. destruct k as [|k].
  - rewrite Z.add_0_r in *. by rewrite (push_used w s Hused).
  - assert (Hu : used_at s (index s) = false) by (apply Hfree; lia).
    rewrite (push_unused w s Hu).
    assert (Hw : u16 (index s + 1) = index s + 1) by (apply u16_small; unfold is_u16; lia).
    set (s1 := mkState _ _ _ _ _ _ _).
    assert (Hix : index s1 = index s + 1) by exact Hw.
    replace (index s + Z.of_nat (S k)) with (index s1 + Z.of_nat k) by lia.
    apply IH.
    + lia.
    + lia.
    + simpl in Hlen. lia.
    + intros j Hj. unfold used_at, s1; simpl. rewrite lookup_insert_ne by lia.
      apply Hfree. lia.
    + rewrite Hix. unfold used_at in *. unfold s1; simpl.
      rewrite lookup_insert_ne by lia.
      replace (index s + 1 + Z.of_nat k) with (index s + Z.of_nat (S k)) by lia.
      exact Hused.
Qed.

Lemma push_times_as_list n v : push_times n v = push_list (replicate n v).
Proof. induction n as [|n IH]; simpl; [reflexivity|]. by rewrite IH. Qed.

Lemma push_values_as_list es : forall vs s,
  Forall2 (fun e v => Evaluate e s = Done v s) es vs ->
  push_values es s = push_list vs s.
Proof.
  induction es as [|e es IH]; intros vs s H; inversion H as [|? v ? vs' He Hrest]; subst;
    [reflexivity|].
  simpl. unfold abind at 1. rewrite He. unfold abind.
  destruct (push v s) as [[] s1|f] eqn:Ep; [|reflexivity].
  apply IH. destruct (push_frame _ _ _ Ep) as (Hl & Hs & _).
  eapply Forall2_impl; [exact Hrest|]. intros e' v' He'. simpl in He'.
  apply (Evaluate_transport e' s s1 v'); [split; congruence|exact He'].
Qed.

Lemma block_writes ws s :
  is_u16 (index s) -> index s + Z.of_nat (length ws) <= 65536 ->
  free_from s (index s) (Z.of_nat (length ws)) ->
  exists s', push_list ws s = Done tt s' /\
    index s' = u16 (index s + Z.of_nat (length ws)) /\
    (forall (i : nat) w, ws !! i = Some w ->
       rom_at s' (index s + Z.of_nat i) = w /\
       used_at s' (index s + Z.of_nat i) = true) /\
    (forall a, ~ (index s <= a < index s + Z.of_nat (length ws)) ->
       rom_at s' a = rom_at s a /\ used_at s' a = used_at s a) /\
    labels s' = labels s /\ symbols s' = symbols s /\
    resolved s' = resolved s /\ dirty s' = dirty s.
Proof. apply push_list_writes. Qed.

(** X5. A [.FILL] whose length evaluates to [n] and whose value evaluates
    to [v], placed where [n] free addresses follow the cursor without
    passing the end of the rom, writes [v] to each of them, marks them
    used, moves the cursor by [n] and changes nothing else; if the first
    used address lies [k < n] words after the cursor, the block stops
    there with the overlap panic. *)
Theorem fill_block_writes (len val : Expression) (n v : Z) (s : AssemblyState) :
  Evaluate len s = Done n s -> Evaluate val s = Done v s ->
  0 <= n -> is_u16 (index s) ->
  (index s + n <= 65536 -> free_from s (index s) n ->
   exists s', Assemble (FillBlock len val) s = Done tt s' /\
     index s' = u16 (index s + n) /\
     (forall a, index s <= a < index s + n -> rom_at s' a = v /\ used_at s' a = true) /\
     (forall a, ~ (index s <= a < index s + n) ->
        rom_at s' a = rom_at s a /\ used_at s' a = used_at s a) /\
     labels s' = labels s /\ symbols s' = symbols s /\
     resolved s' = resolved s /\ dirty s' = dirty s) /\
  (forall k, 0 <= k < n -> index s + k < 65536 ->
     free_from s (index s) k -> used_at s (index s + k) = true ->
     Assemble (FillBlock len val) s
     = Abort (GoPanic "overlapping regions at $%04x" [FInt (index s + k)])).
Proof.
  intros Hlen Hval Hn Hi.
  assert (Hrun : Assemble (FillBlock len val) s = push_list (replicate (Z.to_nat n) v) s).
  { simpl. unfold abind. rewrite Hlen, Hval. by rewrite push_times_as_list. }
  rewrite Hrun. split.
  - intros Hend Hfree.
    destruct (block_writes (replicate (Z.to_nat n) v) s) as
      (s' & Hp & Hidx & Hw & Ho & Hrest); rewrite ?length_replicate, ?Z2Nat.id by lia;
      try assumption.
    rewrite length_replicate, Z2Nat.id in * by lia.
    exists s'. split; [exact Hp|]. split; [exact Hidx|]. split; [|split; [exact Ho|exact Hrest]].
    intros a Ha. replace a with (index s + Z.of_nat (Z.to_nat (a - index s))) by lia.
    apply Hw. apply lookup_replicate_2. lia.
  - intros k Hk Hend Hfree Hused.
    replace k with (Z.of_nat (Z.to_nat k)) in * by lia.
    apply push_list_overlaps; try assumption; try lia.
    + unfold is_u16 in Hi. lia.
    + rewrite length_replicate. lia.
Qed.

Lemma fill_block_writes_witness :
  exists s', Assemble (FillBlock (Constant 3 "f:1:12") (Constant 9 "f:1:8")) (reset new_state)
             = Done tt s' /\
             index s' = 3 /\ rom_at s' 2 = 9 /\ used_at s' 3 = false.
Proof.
  destruct (fill_block_writes (Constant 3 "f:1:12") (Constant 9 "f:1:8") 3 9
              (reset new_state) eq_refl eq_refl) as [Hok _].
  - lia.
  - unfold is_u16; simpl; lia.
  - destruct Hok as (s' & Hp & Hidx & Hw & Ho & _).
    + simpl; lia.
    + intros k _. reflexivity.
    + exists s'. split; [exact Hp|]. split; [exact Hidx|]. split.
      * apply Hw. simpl; lia.
      * rewrite (proj2 (Ho 3 ltac:(simpl; lia))). reflexivity.
Defined.

(** X6. A [.DAT] whose expressions evaluate to the words [vs], placed
    where as many free addresses follow the cursor, writes the words in
    order to consecutive addresses, moves the cursor past them and
    changes nothing else. *)
Theorem dat_block_writes (es : list Expression) (vs : list Z) (s : AssemblyState) :
  Forall2 (fun e v => Evaluate e s = Done v s) es vs ->
  is_u16 (index s) -> index s + Z.of_nat (length vs) <= 65536 ->
  free_from s (index s) (Z.of_nat (length vs)) ->
  exists s', Assemble (DatBlock es) s = Done tt s' /\
    index s' = u16 (index s + Z.of_nat (length vs)) /\
    (forall (i : nat) w, vs !! i = Some w ->
       rom_at s' (index s + Z.of_nat i) = w /\
       used_at s' (index s + Z.of_nat i) = true) /\
    (forall a, ~ (index s <= a < index s + Z.of_nat (length vs)) ->
       rom_at s' a = rom_at s a /\ used_at s' a = used_at s a) /\
    labels s' = labels s /\ symbols s' = symbols s /\
    resolved s' = resolved s /\ dirty s' = dirty s.
Proof.
  intros Hall Hi Hend Hfree. simpl. rewrite (push_values_as_list es vs s Hall).
  by apply block_writes.
Qed.

Lemma dat_block_writes_witness :
  exists s', Assemble (DatBlock [Constant 57005 "f:1:5"; Constant 48879 "f:1:13"])
               (reset new_state) = Done tt s' /\
             rom_at s' 0 = 57005 /\ rom_at s' 1 = 48879 /\ index s' = 2.
Proof.
  destruct (dat_block_writes [Constant 57005 "f:1:5"; Constant 48879 "f:1:13"]
              [57005; 48879] (reset new_state)) as (s' & Hp & Hidx & Hw & _).
  - repeat constructor.
  - unfold is_u16; simpl; lia.
  - simpl; lia.
  - intros k _. reflexivity.
  - exists s'. split; [exact Hp|].
    split; [exact (proj1 (Hw 0%nat 57005 eq_refl))|].
    split; [exact (proj1 (Hw 1%nat 48879 eq_refl))|exact Hidx].
Defined.




(** *** The size of an instruction *)

Lemma pure_refl : forall s : AssemblyState, s = s.
Proof. reflexivity. Qed.

Lemma pure_trans : forall s1 s2 s3 : AssemblyState, s2 = s1 -> s3 = s2 -> s3 = s1.
Proof. congruence. Qed.

Lemma pure_Evaluate e : pure (Evaluate e).
Proof. apply keeps_Evaluate; [reflexivity|exact pure_trans]. Qed.

Lemma pure_checkLiteral e signed width :
  pure (checkLiteral (E:=Expression) e signed width).
Proof. apply keeps_checkLiteral; [reflexivity|exact pure_trans]. Qed.

Lemma pure_arg_at (args : list (Arg Expression)) i : pure (arg_at args i).
Proof. apply keeps_arg_at. reflexivity. Qed.

Lemma pure_non_nil {A} (e : option Expression) (k : Expression -> Asm A) :
  (forall e', pure (k e')) -> pure (non_nil e k).
Proof. apply keeps_non_nil. Qed.

Lemma pure_aget : pure aget.
Proof. apply keeps_get. reflexivity. Qed.

Lemma pure_aret {A} (a : A) : pure (aret a).
Proof. apply keeps_ret. reflexivity. Qed.

Lemma emits_fail {A} lo hi (f : failure) : emits_in lo hi (@afail A f).
Proof. intros s a s' H. discriminate. Qed.

Lemma emits_pure_bind {A B} lo hi (m : Asm A) (k : A -> Asm B) :
  pure m -> (forall a, emits_in lo hi (k a)) -> emits_in lo hi (abind m k).
Proof.
  intros Hm Hk s b s' H. unfold abind in H.
  destruct (m s) as [a s1|f] eqn:E; [|discriminate].
  apply Hm in E as ->. by apply (Hk a s b s').
Qed.

Lemma emits_push lo hi x : (lo <= 1 <= hi)%nat -> emits_in lo hi (push x).
Proof.
  intros Hb s [] s' H. exists [x]. split; [simpl; lia|].
  simpl. unfold abind. by rewrite H.
Qed.

Lemma emits_push_bind {B} lo hi x (k : unit -> Asm B) :
  emits_in lo hi (k tt) -> emits_in (S lo) (S hi) (abind (push x) k).
Proof.
  intros Hk s b s' H. unfold abind in H.
  destruct (push x s) as [[] s1|f] eqn:E; [|discriminate].
  destruct (Hk s1 b s' H) as (ws & Hlen & Hws).
  exists (x :: ws). split; [simpl; lia|]. simpl. unfold abind. by rewrite E.
Qed.

Ltac pure_tac :=
  repeat first
    [ apply pure_arg_at | apply pure_Evaluate | apply pure_checkLiteral
    | apply pure_aget | apply pure_aret
    | apply pure_non_nil; intros ?
    | match goal with
      | |- pure (match ?x with _ => _ end) => destruct x
      end ].

Ltac emits_tac :=
  repeat first
    [ apply emits_fail
    | apply emits_push; lia
    | apply emits_push_bind; cbv beta
    | apply emits_pure_bind; [pure_tac | intros ?]
    | match goal with
      | |- emits_in _ _ (asmError _ _ _) => apply emits_fail
      | |- emits_in _ _ (if ?b then _ else _) => destruct b
      | |- emits_in _ _ (match ?x with _ => _ end) => destruct x
      end ].

Lemma emits_opRI loc m n args : emits_in 1 2 (opRI loc m n args).
Proof. unfold opRI. emits_tac. Qed.

Lemma emits_opRRR loc m n args : emits_in 1 2 (opRRR loc m n args).
Proof. unfold opRRR. emits_tac. Qed.

Lemma emits_opRR loc m n args : emits_in 1 2 (opRR loc m n args).
Proof. unfold opRR. emits_tac. Qed.

Lemma emits_opR loc m n args : emits_in 1 2 (opR loc m n args).
Proof. unfold opR. emits_tac. Qed.

Lemma emits_opVoid loc m n : emits_in 1 2 (opVoid loc m n).
Proof. unfold opVoid. emits_tac. Qed.

Lemma emits_opBranch loc m n args : emits_in 1 2 (opBranch loc m n args).
Proof. unfold opBranch. emits_tac. Qed.

Lemma emits_opAddSub loc m args : emits_in 1 2 (opAddSub loc m args).
Proof.
  unfold opAddSub.
  repeat match goal with
         | |- emits_in _ _ (if ?b then _ else _) => destruct b
         end;
    first [apply emits_opRI | apply emits_opRRR | emits_tac].
Qed.

Lemma emits_opSWI loc m args : emits_in 1 2 (opSWI loc m args).
Proof. unfold opSWI. emits_tac. Qed.

Lemma emits_table_arm {V} (tbl : list (string * V)) opcode args ks k m :
  (forall n, emits_in 1 2 (k n)) ->
  table_arm tbl opcode args ks k = Some m -> emits_in 1 2 m.
Proof.
  unfold table_arm. intros Hk H.
  destruct (table_get tbl opcode); [|discriminate].
  destruct (kinds_are args ks); [|discriminate].
  inversion H; subst. apply Hk.
Qed.

Lemma emits_special opcode f loc args :
  table_get specialInstructions opcode = Some f -> emits_in 1 2 (f loc opcode args).
Proof.
  unfold specialInstructions; cbn [table_get]. intros H.
  repeat match type of H with
         | (if ?b then _ else _) = _ => destruct b
         end;
    inversion H; subst; first [apply emits_opAddSub | apply emits_opSWI].
Qed.

Lemma emits_Instruction opcode args loc :
  emits_in 1 2 (Instruction_Assemble opcode args loc).
Proof.
  unfold Instruction_Assemble.
  repeat match goal with
         | |- emits_in _ _ (match table_arm ?t ?o ?a ?ks ?k with _ => _ end) =>
             let E := fresh "E" in
             destruct (table_arm t o a ks k) eqn:E;
             [eapply emits_table_arm; [|exact E]; intros ? | clear E]
         end;
    try first [apply emits_opRRR | apply emits_opRR | apply emits_opR
              | apply emits_opVoid | apply emits_opRI | apply emits_opBranch].
  destruct (table_get specialInstructions opcode) eqn:E.
  - by apply emits_special.
  - apply emits_fail.
Qed.

Lemma emits_LoadStore st d b pl pr po : emits_in 1 2 (LoadStore_Assemble st d b pl pr po).
Proof. unfold LoadStore_Assemble. emits_tac. Qed.

Lemma emits_StackOp regs st lrpc b : emits_in 1 2 (StackOp_Assemble regs st lrpc b).
Proof. unfold StackOp_Assemble. emits_tac. Qed.

Lemma push_list_frame ws : forall s s',
  push_list ws s = Done tt s' ->
  labels s' = labels s /\ symbols s' = symbols s /\
  resolved s' = resolved s /\ dirty s' = dirty s /\
  index s' = Nat.iter (length ws) (fun i => u16 (i + 1)) (index s).
Proof.
  induction ws as [|w ws IH]; simpl; intros s s' H.
  - injection H as <-. by repeat split.
  - unfold abind in H. destruct (push w s) as [[] s1|f] eqn:E; [|discriminate].
    destruct (IH _ _ H) as (Hl & Hs & Hr & Hd & Hi).
    destruct (push_frame _ _ _ E) as (Hl1 & Hs1 & Hr1 & Hd1).
    assert (Hi1 : index s1 = u16 (index s + 1)).
    { unfold push in E. destruct (used_at s (index s)); [discriminate|].
      by injection E as <-. }
    repeat split; try congruence.
    rewrite Hi, Hi1. clear. induction (length ws) as [|n IHn]; simpl; [reflexivity|].
    by rewrite IHn.
Qed.

Lemma one_word_LoadStore st d b pl pr po : emits_in 1 1 (LoadStore_Assemble st d b pl pr po).
Proof. unfold LoadStore_Assemble. emits_tac. Qed.

Lemma one_word_StackOp regs st lrpc b : emits_in 1 1 (StackOp_Assemble regs st lrpc b).
Proof. unfold StackOp_Assemble. emits_tac. Qed.

Lemma cursor_after_words n i :
  Nat.iter n (fun i => u16 (i + 1)) (u16 i) = u16 (i + Z.of_nat n).
Proof.
  induction n as [|n IH]; simpl.
  - by rewrite Z.add_0_r.
  - rewrite IH. unfold u16. rewrite Zplus_mod_idemp_l. f_equal. lia.
Qed.

(** X8. A statement that stands for a machine instruction (an
    [Instruction], a [LoadStore] or a [StackOp]), when it assembles, has
    done nothing but emit one or two words at the cursor: the labels, the
    symbols and both flags are as before and the cursor has moved by the
    number of words; loads, stores and stack operations emit exactly one. *)
Theorem instruction_size (l : Assembled) (s s' : AssemblyState) :
  is_instruction l = true -> Assemble l s = Done tt s' ->
  exists ws, (length ws = 1 \/ length ws = 2)%nat /\
    push_list ws s = Done tt s' /\
    labels s' = labels s /\ symbols s' = symbols s /\
    resolved s' = resolved s /\ dirty s' = dirty s /\
    (is_u16 (index s) -> index s' = u16 (index s + Z.of_nat (length ws))) /\
    (match l with Instruction _ _ _ => True | _ => length ws = 1%nat end).
Proof.
  intros Hl H.
  assert (Hfin : forall ws, (1 <= length ws <= 2)%nat -> push_list ws s = Done tt s' ->
            (match l with Instruction _ _ _ => True | _ => length ws = 1%nat end) ->
            exists ws, (length ws = 1 \/ length ws = 2)%nat /\
              push_list ws s = Done tt s' /\
              labels s' = labels s /\ symbols s' = symbols s /\
              resolved s' = resolved s /\ dirty s' = dirty s /\
              (is_u16 (index s) -> index s' = u16 (index s + Z.of_nat (length ws))) /\
              (match l with Instruction _ _ _ => True | _ => length ws = 1%nat end)).
  { intros ws Hlen Hws Hone. exists ws.
    destruct (push_list_frame ws s s' Hws) as (H1 & H2 & H3 & H4 & H5).
    split; [lia|]. split; [exact Hws|]. repeat (split; [assumption|]).
    split; [|exact Hone]. intros Hi. rewrite H5.
    rewrite <- (u16_small (index s) Hi) at 1. apply cursor_after_words. }
  destruct l; try discriminate; simpl in H.
  - destruct (emits_Instruction _ _ _ _ _ _ H) as (ws & Hlen & Hws). by apply (Hfin ws).
  - destruct (one_word_LoadStore _ _ _ _ _ _ _ _ _ H) as (ws & Hlen & Hws).
    apply (Hfin ws); [lia|exact Hws|lia].
  - destruct (one_word_StackOp _ _ _ _ _ _ _ H) as (ws & Hlen & Hws).
    apply (Hfin ws); [lia|exact Hws|lia].
Qed.

Lemma instruction_size_witness :
  exists s' ws,
    Assemble (Instruction "MOV" [reg_arg 1; lit_arg (Constant 4660 "f:1:10")] "f:2:0")
      (reset new_state) = Done tt s' /\
    (length ws = 1 \/ length ws = 2)%nat /\
    push_list ws (reset new_state) = Done tt s' /\
    dirty s' = false /\ index s' = u16 (0 + Z.of_nat (length ws)).
Proof.
  destruct (Assemble (Instruction "MOV" [reg_arg 1; lit_arg (Constant 4660 "f:1:10")] "f:2:0")
              (reset new_state)) as [[] s'|f] eqn:E; [|vm_compute in E; discriminate].
  destruct (instruction_size
              (Instruction "MOV" [reg_arg 1; lit_arg (Constant 4660 "f:1:10")] "f:2:0")
              (reset new_state) s' eq_refl E)
    as (ws & Hlen & Hws & _ & _ & _ & Hd & Hi & _).
  exists s', ws. split; [reflexivity|]. split; [exact Hlen|]. split; [exact Hws|].
  split; [exact Hd|]. apply Hi. unfold is_u16; simpl; lia.
Defined.

(** *** Values stay within 16 bits *)

Lemma u16_fixed z : is_u16 z <-> z mod 65536 = z.
Proof.
  unfold is_u16. split; intros H.
  - apply Z.mod_small. lia.
  - rewrite <- H. apply Z.mod_pos_bound. lia.
Qed.

Lemma as_low16 z : z mod 65536 = Z.land z (Z.ones 16).
Proof. by rewrite Z.land_ones by lia. Qed.

Lemma land_u16 a b : is_u16 a -> is_u16 b -> is_u16 (Z.land a b).
Proof.
  rewrite !u16_fixed, !as_low16. intros Ha Hb.
  by rewrite <- Z.land_assoc, Hb.
Qed.

Lemma lor_u16 a b : is_u16 a -> is_u16 b -> is_u16 (Z.lor a b).
Proof.
  rewrite !u16_fixed, !as_low16. intros Ha Hb.
  by rewrite Z.land_lor_distr_l, Ha, Hb.
Qed.

Lemma lxor_u16 a b : is_u16 a -> is_u16 b -> is_u16 (Z.lxor a b).
Proof.
  rewrite !u16_fixed, !as_low16. intros Ha Hb.
  rewrite <- Ha, <- Hb at 2. apply Z.bits_inj'. intros n Hn.
  rewrite !Z.land_spec, !Z.lxor_spec, !Z.land_spec.
  by destruct (Z.testbit a n), (Z.testbit b n), (Z.testbit (Z.ones 16) n).
Qed.

Lemma div_u16 a b : is_u16 a -> is_u16 b -> b <> 0 -> is_u16 (a / b).
Proof.
  unfold is_u16. intros Ha Hb Hne. split.
  - apply Z.div_pos; lia.
  - apply Z.le_lt_trans with a; [|lia]. apply Z.div_le_upper_bound; [lia|]. nia.
Qed.

Lemma complement_u16 v : is_u16 v -> Z.lxor 65535 v = 65535 - v.
Proof.
  intros Hv. apply u16_fixed in Hv. rewrite as_low16 in Hv.
  assert (Hdisj : Z.land v (Z.lxor 65535 v) = 0).
  { apply Z.bits_inj'. intros n Hn.
    rewrite Z.land_spec, Z.lxor_spec, Z.bits_0.
    rewrite <- Hv. rewrite Z.land_spec. change 65535 with (Z.ones 16).
    by destruct (Z.testbit v n), (Z.testbit (Z.ones 16) n). }
  apply Z.add_nocarry_lxor in Hdisj.
  rewrite (Z.lxor_comm 65535 v) in *.
  rewrite <- Z.lxor_assoc, Z.lxor_nilpotent, Z.lxor_0_l in Hdisj. lia.
Qed.

Lemma Evaluate_in_range e : forall s v s',
  wf_expr e -> wf_tables s -> Evaluate e s = Done v s' -> is_u16 v.
Proof.
  induction e as [l loc|c loc|lhs IHl op rhs IHr|op e IH]; simpl; intros s v s' He Hs H.
  - unfold abind, aget, lookup_name in H. destruct Hs as [Hl Hy].
    destruct (labels s !! l) as [lr|] eqn:El.
    + injection H as <- <-. by apply (Hl l).
    + destruct (symbols s !! l) as [lr|] eqn:Ey; [|discriminate].
      injection H as <- <-. by apply (Hy l).
  - injection H as <- <-. exact He.
  - destruct He as [Hel Her]. unfold abind in H.
    destruct (Evaluate lhs s) as [l s1|f] eqn:E1; [|discriminate].
    pose proof (IHl _ _ _ Hel Hs E1) as Hlv.
    apply Evaluate_pure in E1 as ->.
    destruct (Evaluate rhs s) as [r s2|f] eqn:E2; [|discriminate].
    pose proof (IHr _ _ _ Her Hs E2) as Hrv.
    destruct op; try discriminate; unfold aret in H;
      try (injection H as <- <-; first [apply u16_range | by apply land_u16
                                       | by apply lor_u16 | by apply lxor_u16]).
    destruct (Z.eqb_spec r 0); [discriminate|].
    injection H as <- <-. by apply div_u16.
  - unfold abind in H.
    destruct (Evaluate e s) as [x s1|f] eqn:E1; [|discriminate].
    pose proof (IH _ _ _ He Hs E1) as Hx.
    destruct op; try discriminate; injection H as <- <-.
    + exact Hx.
    + apply u16_range.
    + apply lxor_u16; [unfold is_u16; lia|exact Hx].
Qed.

(** X9. Evaluation stays within 16 bits: when every constant of an
    expression and every value in the two tables is below 2^16, any value
    the expression evaluates to is below 2^16 too; sums, differences,
    products and negations wrap, quotients and the bitwise operations
    cannot leave the range. *)
Theorem evaluation_in_range (e : Expression) (s s' : AssemblyState) (v : Z) :
  wf_expr e -> wf_tables s -> Evaluate e s = Done v s' -> 0 <= v < 65536.
Proof. apply Evaluate_in_range. Qed.

Lemma evaluation_in_range_witness :
  exists v, Evaluate (BinExpr (UnaryExpr NOT (Constant 1 "f:1:2")) TIMES
                        (Constant 65535 "f:1:6")) (reset new_state)
            = Done v (reset new_state) /\ 0 <= v < 65536.
Proof.
  exists 2. split; [reflexivity|].
  apply (evaluation_in_range
           (BinExpr (UnaryExpr NOT (Constant 1 "f:1:2")) TIMES (Constant 65535 "f:1:6"))
           (reset new_state) (reset new_state) 2).
  - simpl. unfold is_u16. lia.
  - split; intros l lr H; unfold reset, new_state in H; simpl in H;
      rewrite lookup_empty in H; discriminate.
  - reflexivity.
Defined.

(** X10. Two's complement on 16 bits, as [UnaryExpr.Evaluate] computes it:
    for an operand with the 16-bit value [v], [~e] is [0xFFFF - v], [-e]
    is [~e + 1] cut to 16 bits, and negating or complementing twice gives
    [v] back; [+e] is [v]. *)
Theorem unary_operators (e : Expression) (s : AssemblyState) (v : Z) :
  Evaluate e s = Done v s -> 0 <= v < 65536 ->
  Evaluate (UnaryExpr PLUS e) s = Done v s /\
  Evaluate (UnaryExpr NOT e) s = Done (65535 - v) s /\
  Evaluate (UnaryExpr MINUS e) s = Done (u16 (65535 - v + 1)) s /\
  Evaluate (UnaryExpr NOT (UnaryExpr NOT e)) s = Done v s /\
  Evaluate (UnaryExpr MINUS (UnaryExpr MINUS e)) s = Done v s /\
  Evaluate (BinExpr e PLUS (UnaryExpr MINUS e)) s = Done 0 s.
Proof.
  intros He Hv. fold (is_u16 v) in Hv. simpl. unfold abind, aret. rewrite He. simpl.
  assert (Hc : is_u16 (65535 - v)) by (unfold is_u16 in *; lia).
  rewrite !complement_u16 by (try exact Hv; rewrite ?complement_u16; assumption).
  rewrite He. simpl.
  assert (Hneg : u16 (- v) = u16 (65535 - v + 1)).
  { unfold u16. replace (65535 - v + 1) with (- v + 1 * 65536) by lia.
    by rewrite Z.mod_add. }
  assert (Hnn : u16 (- u16 (- v)) = v).
  { change (u16 (- v)) with (neg16 v). rewrite (neg16_cases v Hv).
    unfold u16, is_u16 in *. destruct (Z.eqb_spec v 0) as [->|Hne]; [reflexivity|].
    replace (- (65536 - v)) with (v + (-1) * 65536) by lia.
    rewrite Z.mod_add by lia. apply Z.mod_small. lia. }
  assert (Hz : u16 (v + u16 (- v)) = 0).
  { unfold u16. rewrite Zplus_mod_idemp_r. replace (v + - v) with 0 by lia. reflexivity. }
  repeat split; try reflexivity.
  - by rewrite Hneg.
  - do 2 f_equal. lia.
  - by rewrite Hnn.
  - by rewrite Hz.
Qed.

Lemma unary_operators_witness :
  Evaluate (UnaryExpr MINUS (UnaryExpr MINUS (Constant 5 "f:1:3"))) new_state
  = Done 5 new_state /\
  Evaluate (UnaryExpr NOT (Constant 5 "f:1:3")) new_state = Done 65530 new_state.
Proof.
  destruct (unary_operators (Constant 5 "f:1:3") new_state 5 eq_refl ltac:(lia))
    as (_ & Hnot & _ & _ & Hneg & _).
  split; [exact Hneg|exact Hnot].
Defined.

(** *** Instruction words, revision B *)

Lemma lor_add_low a b k : 0 <= k -> 0 <= b < 2 ^ k -> Z.lor (a * 2 ^ k) b = a * 2 ^ k + b.
Proof.
  intros Hk Hb.
  assert (Hdisj : Z.land (a * 2 ^ k) b = 0).
  { apply Z.bits_inj'. intros n Hn. rewrite Z.land_spec, Z.bits_0.
    destruct (Z.ltb_spec n k).
    - rewrite Z.mul_pow2_bits_low by lia. reflexivity.
    - rewrite <- (Z.mod_small b (2 ^ k)) by lia.
      rewrite Z.mod_pow2_bits_high by lia. apply andb_false_r. }
  rewrite Z.add_nocarry_lxor, Z.lxor_lor by exact Hdisj. reflexivity.
Qed.

Lemma shl16_small a k : 0 <= k -> 0 <= a -> a * 2 ^ k < 65536 -> shl16 a k = a * 2 ^ k.
Proof.
  intros Hk Ha Hlt. unfold shl16, u16. rewrite Z.shiftl_mul_pow2 by lia.
  apply Z.mod_small. split; [|lia].
  apply Z.mul_nonneg_nonneg; [lia|]. apply Z.pow_nonneg. lia.
Qed.

Ltac pow2 :=
  change (2 ^ 11) with 2048 in *; change (2 ^ 10) with 1024 in *;
  change (2 ^ 9) with 512 in *; change (2 ^ 8) with 256 in *;
  change (2 ^ 7) with 128 in *; change (2 ^ 6) with 64 in *;
  change (2 ^ 4) with 16 in *; change (2 ^ 3) with 8 in *.

(** The word of the immediate format: operation, register, literal. *)
Lemma ri_word n r v :
  0 <= n < 16 -> 0 <= r < 8 -> 0 <= v < 256 ->
  shl16 n 11 .| shl16 r 8 .| v = 2048 * n + 256 * r + v.
Proof.
  intros Hn Hr Hv.
  rewrite !shl16_small by (pow2; lia).
  rewrite (lor_add_low n (r * 2 ^ 8) 11) by (pow2; lia).
  replace (n * 2 ^ 11 + r * 2 ^ 8) with ((n * 8 + r) * 2 ^ 8) by (pow2; lia).
  rewrite lor_add_low by (pow2; lia).
  pow2. lia.
Qed.

Lemma table_arm_shape {V} (tbl : list (string * V)) opcode args ks k :
  kinds_are args ks = false -> table_arm tbl opcode args ks k = None.
Proof. intros H. unfold table_arm. rewrite H. by destruct (table_get tbl opcode). Qed.

Lemma table_arm_hit {V} (tbl : list (string * V)) opcode args ks k n :
  table_get tbl opcode = Some n -> kinds_are args ks = true ->
  table_arm tbl opcode args ks k = Some (k n).
Proof. intros H1 H2. unfold table_arm. by rewrite H1, H2. Qed.

Lemma ri_dispatch m n r e loc :
  table_get riInstructions m = Some n ->
  Instruction_Assemble m [reg_arg r; lit_arg e] loc = opRI loc m n [reg_arg r; lit_arg e].
Proof.
  intros H. unfold Instruction_Assemble.
  rewrite !table_arm_shape by reflexivity.
  by rewrite (table_arm_hit riInstructions m [reg_arg r; lit_arg e]
                [AT_REG; AT_LITERAL] _ n H eq_refl).
Qed.

Lemma ri_opcode_range m n : table_get riInstructions m = Some n -> 1 <= n < 16.
Proof.
  unfold riInstructions; simpl. intros H.
  repeat match type of H with
         | (if ?b then _ else _) = _ => destruct b
         end; inversion H; lia.
Qed.

Lemma push_list_two a b s : push_list [a; b] s = (run push a; push b) s.
Proof.
  unfold push_list, abind, aret. destruct (push a s) as [[] s1|]; [|reflexivity].
  by destruct (push b s1) as [[] s2|].
Qed.

(** X11. [MOV Rd, #v] accepts every 16-bit value.  Up to 255 it is one
    word of the immediate format with operation 1; above 0xff00 it is one
    word with operation 2 ([NEG]) and the literal [65536 - v]; in between
    it is two words, operation 1 with the low byte and operation 15
    ([MVH]) with the high byte. *)
Theorem mov_immediate_forms (r v : Z) (e : Expression) (loc : string) (s : AssemblyState) :
  0 <= r < 8 -> is_u16 v -> Evaluate e s = Done v s ->
  (v <= 255 ->
     Assemble (Instruction "MOV" [reg_arg r; lit_arg e] loc) s
     = push (2048 * 1 + 256 * r + v) s) /\
  (65280 < v ->
     Assemble (Instruction "MOV" [reg_arg r; lit_arg e] loc) s
     = push (2048 * 2 + 256 * r + (65536 - v)) s) /\
  (255 < v <= 65280 ->
     Assemble (Instruction "MOV" [reg_arg r; lit_arg e] loc) s
     = push_list [2048 * 1 + 256 * r + v mod 256; 2048 * 15 + 256 * r + v / 256] s).
Proof.
  intros Hr Hv He. pose proof Hv as Hv'. unfold is_u16 in Hv.
  assert (Hrun : Assemble (Instruction "MOV" [reg_arg r; lit_arg e] loc) s
                 = if v <=? 255 then push (shl16 1 11 .| shl16 r 8 .| v) s
                   else if v >? 65280 then push (shl16 2 11 .| shl16 r 8 .| neg16 v) s
                   else push_list [shl16 1 11 .| shl16 r 8 .| Z.land v 255;
                                   shl16 15 11 .| shl16 r 8 .| Z.shiftr v 8] s).
  { cbn [Assemble]. rewrite (ri_dispatch "MOV" 1 r e loc eq_refl).
    unfold opRI.
    cbn [String.eqb Ascii.eqb Bool.eqb arg_at lookup list_lookup lit reg reg_arg lit_arg non_nil].
    unfold abind at 1 2. unfold aret at 1. cbn [lit lit_arg non_nil]. rewrite He.
    destruct (v <=? 255); [reflexivity|]. destruct (v >? 65280); [reflexivity|].
    rewrite push_list_two. reflexivity. }
  rewrite Hrun. split; [|split]; intros Hc.
  - destruct (Z.leb_spec v 255); [|lia]. by rewrite ri_word by lia.
  - destruct (Z.leb_spec v 255); [lia|]. destruct (Z.gtb_spec v 65280); [|lia].
    rewrite (neg16_cases v Hv'). destruct (Z.eqb_spec v 0); [lia|].
    by rewrite ri_word by lia.
  - destruct (Z.leb_spec v 255); [lia|]. destruct (Z.gtb_spec v 65280); [lia|].
    change 255 with (Z.ones 8). rewrite Z.land_ones by lia.
    rewrite Z.shiftr_div_pow2 by lia. pow2.
    assert (0 <= v mod 256 < 256) by (apply Z.mod_pos_bound; lia).
    assert (0 <= v / 256 < 256) by (split; [apply Z.div_pos; lia | apply Z.div_lt_upper_bound; lia]).
    by rewrite !ri_word by lia.
Qed.

(** [MOV r3, #5], [MOV r3, #0xfff0] and [MOV r3, #0x1234] at address 0. *)
Lemma mov_immediate_forms_witness :
  Assemble (Instruction "MOV" [reg_arg 3; lit_arg (Constant 5 "f:1:9")] "f:2:0")
    (reset new_state) = push 0x0b05 (reset new_state) /\
  Assemble (Instruction "MOV" [reg_arg 3; lit_arg (Constant 0xfff0 "f:1:9")] "f:2:0")
    (reset new_state) = push 0x1310 (reset new_state) /\
  Assemble (Instruction "MOV" [reg_arg 3; lit_arg (Constant 0x1234 "f:1:9")] "f:2:0")
    (reset new_state) = push_list [0x0b34; 0x7b12] (reset new_state).
Proof.
  split; [|split].
  - pose proof (mov_immediate_forms 3 5 (Constant 5 "f:1:9") "f:2:0" (reset new_state)
                  ltac:(lia) ltac:(unfold is_u16; lia) eq_refl) as (H & _ & _).
    exact (H ltac:(lia)).
  - pose proof (mov_immediate_forms 3 0xfff0 (Constant 0xfff0 "f:1:9") "f:2:0"
                  (reset new_state) ltac:(lia) ltac:(unfold is_u16; lia) eq_refl)
      as (_ & H & _).
    exact (H ltac:(lia)).
  - pose proof (mov_immediate_forms 3 0x1234 (Constant 0x1234 "f:1:9") "f:2:0"
                  (reset new_state) ltac:(lia) ltac:(unfold is_u16; lia) eq_refl)
      as (_ & _ & H).
    exact (H ltac:(lia)).
Defined.

(** X12. The other instructions of the immediate format ([NEG], [CMP],
    [ADD], [SUB], [MUL], the shifts, [AND], [ORR], [XOR], [MVH]) take a
    literal below 256: the word is then [2048 * n + 256 * r + v] with [n]
    the operation number, so that the three fields read back from it and
    its top bit is clear.  A literal from 256 on is the range error,
    reported at the place of the literal. *)
Theorem immediate_format (m : string) (n r v : Z) (e : Expression) (loc : string)
  (s : AssemblyState) :
  table_get riInstructions m = Some n -> m <> "MOV" ->
  0 <= r < 8 -> 0 <= v -> Evaluate e s = Done v s ->
  let w := 2048 * n + 256 * r + v in
  (v < 256 ->
     Assemble (Instruction m [reg_arg r; lit_arg e] loc) s = push w s /\
     w / 2048 = n /\ (w / 256) mod 8 = r /\ w mod 256 = v /\ w < 32768) /\
  (256 <= v ->
     Assemble (Instruction m [reg_arg r; lit_arg e] loc) s
     = Abort (AsmError (ExprLocation e)
                "Unsigned literal %d (0x%x) is too big for %d-bit literal"
                [FInt v; FInt v; FInt 8])).
Proof.
  intros Ht Hm Hr Hv He w.
  pose proof (ri_opcode_range m n Ht) as Hn.
  assert (Hrun : Assemble (Instruction m [reg_arg r; lit_arg e] loc) s
                 = (do x <- checkLiteral e false 8;
                    push (shl16 n 11 .| shl16 r 8 .| x)) s).
  { cbn [Assemble]. rewrite (ri_dispatch m n r e loc Ht). unfold opRI.
    destruct (String.eqb_spec m "MOV") as [->|_]; [contradiction|]. reflexivity. }
  rewrite Hrun.
  destruct (@checkLiteral_unsigned Expression Expression_I e 8 s v s ltac:(lia) He)
    as [Hok Hbad].
  change (2 ^ 8) with 256 in *. split; intros Hc.
  - unfold abind. rewrite (Hok Hc). rewrite ri_word by lia. fold w.
    split; [reflexivity|]. unfold w.
    assert (Hq : (2048 * n + 256 * r + v) / 256 = 8 * n + r)
      by (symmetry; apply (Z.div_unique _ _ _ v); lia).
    rewrite Hq. repeat split.
    + symmetry. apply (Z.div_unique _ _ _ (256 * r + v)); lia.
    + symmetry. apply (Z.mod_unique _ _ n); lia.
    + symmetry. apply (Z.mod_unique _ _ (8 * n + r)); lia.
    + lia.
  - unfold abind. rewrite (Hbad Hc). reflexivity.
Qed.

(** [ADD r2, #7] and [ADD r2, #256] at address 0. *)
Lemma immediate_format_witness :
  Assemble (Instruction "ADD" [reg_arg 2; lit_arg (Constant 7 "f:1:9")] "f:2:0")
    (reset new_state) = push 0x2207 (reset new_state) /\
  Assemble (Instruction "ADD" [reg_arg 2; lit_arg (Constant 256 "f:1:9")] "f:2:0")
    (reset new_state)
  = Abort (AsmError "f:1:9" "Unsigned literal %d (0x%x) is too big for %d-bit literal"
             [FInt 256; FInt 256; FInt 8]).
Proof.
  split.
  - pose proof (immediate_format "ADD" 4 2 7 (Constant 7 "f:1:9") "f:2:0" (reset new_state)
                  eq_refl ltac:(discriminate) ltac:(lia) ltac:(lia) eq_refl) as H.
    cbv zeta in H. destruct H as [H _]. destruct (H ltac:(lia)) as [Hrun _]. exact Hrun.
  - pose proof (immediate_format "ADD" 4 2 256 (Constant 256 "f:1:9") "f:2:0"
                  (reset new_state)
                  eq_refl ltac:(discriminate) ltac:(lia) ltac:(lia) eq_refl) as H.
    cbv zeta in H. destruct H as [_ H]. exact (H ltac:(lia)).
Defined.

Lemma rrr_word n a b c :
  0 <= n < 16 -> 0 <= a < 8 -> 0 <= b < 8 -> 0 <= c < 8 ->
  32768 .| shl16 n 9 .| shl16 c 6 .| shl16 b 3 .| a
  = 32768 + 512 * n + 64 * c + 8 * b + a.
Proof.
  intros Hn Ha Hb Hc.
  rewrite !shl16_small by (pow2; lia).
  change 32768 with (1 * 2 ^ 15).
  rewrite (lor_add_low 1 (n * 2 ^ 9) 15) by (pow2; lia).
  replace (1 * 2 ^ 15 + n * 2 ^ 9) with ((64 + n) * 2 ^ 9) by (pow2; lia).
  rewrite (lor_add_low _ (c * 2 ^ 6) 9) by (pow2; lia).
  replace ((64 + n) * 2 ^ 9 + c * 2 ^ 6) with ((512 + 8 * n + c) * 2 ^ 6) by (pow2; lia).
  rewrite (lor_add_low _ (b * 2 ^ 3) 6) by (pow2; lia).
  replace ((512 + 8 * n + c) * 2 ^ 6 + b * 2 ^ 3)
    with ((4096 + 64 * n + 8 * c + b) * 2 ^ 3) by (pow2; lia).
  rewrite (lor_add_low _ a 3) by (pow2; lia).
  pow2. lia.
Qed.

Lemma rr_word n a b :
  0 <= n < 8 -> 0 <= a < 8 -> 0 <= b < 8 ->
  32768 .| shl16 n 6 .| shl16 b 3 .| a = 32768 + 64 * n + 8 * b + a.
Proof.
  intros Hn Ha Hb.
  rewrite !shl16_small by (pow2; lia).
  change 32768 with (64 * 2 ^ 9).
  rewrite (lor_add_low 64 (n * 2 ^ 6) 9) by (pow2; lia).
  replace (64 * 2 ^ 9 + n * 2 ^ 6) with ((512 + n) * 2 ^ 6) by (pow2; lia).
  rewrite (lor_add_low _ (b * 2 ^ 3) 6) by (pow2; lia).
  replace ((512 + n) * 2 ^ 6 + b * 2 ^ 3) with ((4096 + 8 * n + b) * 2 ^ 3) by (pow2; lia).
  rewrite (lor_add_low _ a 3) by (pow2; lia).
  pow2. lia.
Qed.

Lemma r_word n a :
  0 <= n < 8 -> 0 <= a < 8 -> 32768 .| shl16 n 3 .| a = 32768 + 8 * n + a.
Proof.
  intros Hn Ha.
  rewrite !shl16_small by (pow2; lia).
  change 32768 with (512 * 2 ^ 6).
  rewrite (lor_add_low 512 (n * 2 ^ 3) 6) by (pow2; lia).
  replace (512 * 2 ^ 6 + n * 2 ^ 3) with ((4096 + n) * 2 ^ 3) by (pow2; lia).
  rewrite (lor_add_low _ a 3) by (pow2; lia).
  pow2. lia.
Qed.

Lemma void_word n : 0 <= n < 8 -> 32768 .| n = 32768 + n.
Proof.
  intros Hn. change 32768 with (4096 * 2 ^ 3).
  rewrite (lor_add_low _ n 3) by (pow2; lia). reflexivity.
Qed.

Ltac table_range H :=
  simpl in H;
  repeat match type of H with
         | (if ?b then _ else _) = _ => destruct b
         end; inversion H; lia.

Lemma rrr_opcode_range m n : table_get rrrInstructions m = Some n -> 1 <= n < 12.
Proof. unfold rrrInstructions. intros H. table_range H. Qed.

Lemma rr_opcode_range m n : table_get rrInstructions m = Some n -> 1 <= n < 8.
Proof. unfold rrInstructions. intros H. table_range H. Qed.

Lemma r_opcode_range m n : table_get rInstructions m = Some n -> 1 <= n < 8.
Proof. unfold rInstructions. intros H. table_range H. Qed.

Lemma void_opcode_range m n : table_get voidInstructions m = Some n -> 0 <= n < 6.
Proof. unfold voidInstructions. intros H. table_range H. Qed.

(** X13. The register formats.  An instruction of the three-register
    table with three registers, of the two-register table with two, of
    the one-register table with one and of the table without operands
    with none is one word, [0x8000] plus the operation number and the
    register numbers at their places.  The operation numbers of the first
    three tables start at 1, so the four formats fill disjoint ranges of
    words and the word tells the format. *)
Theorem register_formats (m : string) (n a b c : Z) (loc : string) (s : AssemblyState) :
  0 <= a < 8 -> 0 <= b < 8 -> 0 <= c < 8 ->
  (table_get rrrInstructions m = Some n ->
     Assemble (Instruction m [reg_arg a; reg_arg b; reg_arg c] loc) s
     = push (32768 + 512 * n + 64 * c + 8 * b + a) s /\
     512 <= 512 * n + 64 * c + 8 * b + a < 6144) /\
  (table_get rrInstructions m = Some n ->
     Assemble (Instruction m [reg_arg a; reg_arg b] loc) s
     = push (32768 + 64 * n + 8 * b + a) s /\
     64 <= 64 * n + 8 * b + a < 512) /\
  (table_get rInstructions m = Some n ->
     Assemble (Instruction m [reg_arg a] loc) s = push (32768 + 8 * n + a) s /\
     8 <= 8 * n + a < 64) /\
  (table_get voidInstructions m = Some n ->
     Assemble (Instruction m [] loc) s = push (32768 + n) s /\ 0 <= n < 8).
Proof.
  intros Ha Hb Hc. cbn [Assemble]. unfold Instruction_Assemble.
  split; [|split; [|split]]; intros Ht.
  - pose proof (rrr_opcode_range m n Ht) as Hn.
    rewrite (table_arm_hit rrrInstructions m [reg_arg a; reg_arg b; reg_arg c]
               [AT_REG; AT_REG; AT_REG] _ n Ht eq_refl).
    unfold opRRR, abind; simpl. rewrite rrr_word by lia. split; [reflexivity|lia].
  - pose proof (rr_opcode_range m n Ht) as Hn.
    rewrite !table_arm_shape by reflexivity.
    rewrite (table_arm_hit rrInstructions m [reg_arg a; reg_arg b]
               [AT_REG; AT_REG] _ n Ht eq_refl).
    unfold opRR, abind; simpl. rewrite rr_word by lia. split; [reflexivity|lia].
  - pose proof (r_opcode_range m n Ht) as Hn.
    rewrite !table_arm_shape by reflexivity.
    rewrite (table_arm_hit rInstructions m [reg_arg a] [AT_REG] _ n Ht eq_refl).
    unfold opR, abind; simpl. rewrite r_word by lia. split; [reflexivity|lia].
  - pose proof (void_opcode_range m n Ht) as Hn.
    rewrite !table_arm_shape by reflexivity.
    rewrite (table_arm_hit voidInstructions m [] [] _ n Ht eq_refl).
    unfold opVoid. rewrite void_word by lia. split; [reflexivity|lia].
Qed.

(** [SUB r1, r2, r3], [CMP r1, r2], [BX r1] and [RET]. *)
Lemma register_formats_witness :
  Assemble (Instruction "SUB" [reg_arg 1; reg_arg 2; reg_arg 3] "f:2:0") (reset new_state)
  = push 0x86d1 (reset new_state) /\
  Assemble (Instruction "CMP" [reg_arg 1; reg_arg 2] "f:2:0") (reset new_state)
  = push 0x8091 (reset new_state) /\
  Assemble (Instruction "BX" [reg_arg 1] "f:2:0") (reset new_state)
  = push 0x8009 (reset new_state) /\
  Assemble (Instruction "RET" [] "f:2:0") (reset new_state)
  = push 0x8003 (reset new_state).
Proof.
  pose proof (register_formats "SUB" 3 1 2 3 "f:2:0" (reset new_state)
                ltac:(lia) ltac:(lia) ltac:(lia)) as (H1 & _).
  pose proof (register_formats "CMP" 2 1 2 0 "f:2:0" (reset new_state)
                ltac:(lia) ltac:(lia) ltac:(lia)) as (_ & H2 & _).
  pose proof (register_formats "BX" 1 1 0 0 "f:2:0" (reset new_state)
                ltac:(lia) ltac:(lia) ltac:(lia)) as (_ & _ & H3 & _).
  pose proof (register_formats "RET" 3 0 0 0 "f:2:0" (reset new_state)
                ltac:(lia) ltac:(lia) ltac:(lia)) as (_ & _ & _ & H4).
  destruct (H1 eq_refl) as [E1 _]. destruct (H2 eq_refl) as [E2 _].
  destruct (H3 eq_refl) as [E3 _]. destruct (H4 eq_refl) as [E4 _].
  repeat split; assumption.
Defined.

(** *** The passes of the driver *)

Lemma assemble_lines_app a : forall b s,
  assemble_lines (a ++ b)%list s = (run assemble_lines a; assemble_lines b) s.
Proof.
  induction a as [|l a IH]; intros b s; [reflexivity|].
  simpl. unfold abind. destruct (Assemble l s) as [[] s1|f]; [|reflexivity].
  rewrite IH. reflexivity.
Qed.

Lemma push_values_frame es : forall s s',
  push_values es s = Done tt s' -> labels s' = labels s /\ dirty s' = dirty s.
Proof.
  induction es as [|e es IH]; simpl; intros s s' H.
  - by injection H as <-.
  - unfold abind in H. destruct (Evaluate e s) as [v s1|f] eqn:Ee; [|discriminate].
    apply Evaluate_pure in Ee as ->.
    destruct (push v s) as [[] s2|f] eqn:Ep; [|discriminate].
    destruct (push_frame _ _ _ Ep) as (Hl & _ & _ & Hd).
    destruct (IH _ _ H) as [Hl' Hd']. split; congruence.
Qed.

(** A statement other than a label definition leaves the label table and
    the [dirty] flag alone. *)
Lemma Assemble_label_free l s s' :
  is_label_def l = false -> Assemble l s = Done tt s' ->
  labels s' = labels s /\ dirty s' = dirty s.
Proof.
  intros Hl H. destruct l as [fn|oe|sn se|vs|fl fv|lbl|opc ags iloc|st d b pl pr po|rg st lr b]; try discriminate; simpl in H.
  - unfold abind in H. destruct (Evaluate oe s) as [v s1|f] eqn:Ee; [|discriminate].
    apply Evaluate_pure in Ee as ->. by injection H as <-.
  - unfold abind in H. destruct (Evaluate se s) as [v s1|f] eqn:Ee; [|discriminate].
    apply Evaluate_pure in Ee as ->. by injection H as <-.
  - exact (push_values_frame _ _ _ H).
  - unfold abind in H. destruct (Evaluate fl s) as [n s1|f] eqn:E1; [|discriminate].
    apply Evaluate_pure in E1 as ->.
    destruct (Evaluate fv s) as [v s1|f] eqn:E2; [|discriminate].
    apply Evaluate_pure in E2 as ->.
    rewrite push_times_as_list in H.
    destruct (push_list_frame _ _ _ H) as (H1 & _ & _ & H2 & _). by split.
  - destruct (emits_Instruction _ _ _ _ _ _ H) as (ws & _ & Hws).
    destruct (push_list_frame _ _ _ Hws) as (H1 & _ & _ & H2 & _). by split.
  - destruct (emits_LoadStore _ _ _ _ _ _ _ _ _ H) as (ws & _ & Hws).
    destruct (push_list_frame _ _ _ Hws) as (H1 & _ & _ & H2 & _). by split.
  - destruct (emits_StackOp _ _ _ _ _ _ _ H) as (ws & _ & Hws).
    destruct (push_list_frame _ _ _ Hws) as (H1 & _ & _ & H2 & _). by split.
Qed.

Lemma label_free_lines lines : forall s s',
  existsb is_label_def lines = false -> assemble_lines lines s = Done tt s' ->
  labels s' = labels s /\ dirty s' = dirty s.
Proof.
  induction lines as [|l lines IH]; simpl; intros s s' Hl H.
  - by injection H as <-.
  - apply orb_false_iff in Hl as [Hl1 Hl2]. unfold abind in H.
    destruct (Assemble l s) as [[] s1|f] eqn:E; [|discriminate].
    destruct (Assemble_label_free _ _ _ Hl1 E) as [H1 H2].
    destruct (IH _ _ Hl2 H) as [H3 H4]. split; congruence.
Qed.

(** Within a pass [dirty] is only ever raised. *)
Lemma dirty_stays lines :
  keeps (fun s s' => dirty s = true -> dirty s' = true) (assemble_lines lines).
Proof.
  apply keeps_assemble_lines.
  - auto.
  - auto.
  - intros x s [] s' H. destruct (push_frame _ _ _ H) as (_ & _ & _ & Hd). congruence.
  - intros a s [] s' [= <-]. auto.
  - intros l v s [] s' [= <-]. auto.
  - intros l a s [] s'. unfold updateLabel.
    destruct (labels s !! l) as [lr|]; [|discriminate].
    intros [= <-] Hd. simpl.
    destruct (negb (defined lr) || negb (value lr =? a)); simpl; [reflexivity|exact Hd].
Qed.

(** Statements that end with [dirty] false began with it false and left
    the label table as it was. *)
Lemma clean_lines lines :
  keeps (fun s s' => dirty s' = false -> labels s' = labels s /\ dirty s = false)
    (assemble_lines lines).
Proof.
  apply keeps_assemble_lines.
  - auto.
  - intros s1 s2 s3 H12 H23 Hd. destruct (H23 Hd) as [Hl Hd2].
    destruct (H12 Hd2) as [Hl' Hd1]. split; congruence.
  - intros x s [] s' H Hd. destruct (push_frame _ _ _ H) as (Hl & _ & _ & Hd'). split; congruence.
  - intros a s [] s' [= <-]. auto.
  - intros l v s [] s' [= <-]. auto.
  - intros l a s [] s'. unfold updateLabel.
    destruct (labels s !! l) as [lr|] eqn:El; [|discriminate].
    intros [= <-]. simpl.
    destruct (negb (defined lr) || negb (value lr =? a)) eqn:Ec; simpl; [discriminate|].
    intros Hd. split; [|exact Hd].
    apply orb_false_iff in Ec as [Hdef Hval].
    apply negb_false_iff in Hdef. apply negb_false_iff, Z.eqb_eq in Hval.
    apply insert_id. rewrite El. destruct lr; simpl in *. congruence.
Qed.

Lemma after_passes_last n lines : forall s s',
  after_passes (S n) lines s = Some s' ->
  exists s0, after_passes n lines s = Some s0 /\ one_pass lines s0 = Done tt s'.
Proof.
  induction n as [|n IH]; intros s s' H.
  - simpl in H. destruct (one_pass lines s) as [[] s1|f] eqn:E; [|discriminate].
    injection H as <-. by exists s.
  - cbn [after_passes] in H. destruct (one_pass lines s) as [[] s1|f] eqn:E; [|discriminate].
    destruct (IH s1 s' H) as (s0 & H0 & H1).
    exists s0. split; [|exact H1]. cbn [after_passes]. by rewrite E.
Qed.

Lemma initial_state_fields lines :
  dirty (initial_state lines) = true /\ resolved (initial_state lines) = true /\
  symbols (initial_state lines) = ∅ /\ index (initial_state lines) = 0 /\
  used (initial_state lines) = ∅ /\ rom (initial_state lines) = ∅.
Proof.
  unfold initial_state.
  destruct (collect_labels_other lines (reset new_state)) as (H1 & H2 & H3 & H4 & H5 & H6).
  simpl. by rewrite H1, H2, H4, H5, H6.
Qed.

(** The last pass of a run that finished. *)
Lemma last_pass fuel lines s :
  assemble_program fuel lines = Finished s ->
  dirty s = false /\
  exists s0, one_pass lines s0 = Done tt s /\ labels s0 = labels s.
Proof.
  intros H. unfold assemble_program in H.
  destruct (main_loop_finished _ _ _ _ H) as (Hd & _ & k & _ & Hk).
  split; [exact Hd|]. destruct k as [|k].
  - injection Hk as <-. destruct (initial_state_fields lines) as [Hi _]. congruence.
  - destruct (after_passes_last _ _ _ _ Hk) as (s0 & _ & Hp).
    exists s0. split; [exact Hp|]. unfold one_pass in Hp.
    destruct (clean_lines _ _ _ _ Hp Hd) as [Hl _]. by rewrite Hl.
Qed.

(** In statements that ended clean, a label holds the cursor at which
    its definition was reached. *)
Lemma clean_label pre l post t s :
  assemble_lines (pre ++ LabelDef l :: post)%list t = Done tt s -> dirty s = false ->
  exists s1, assemble_lines pre t = Done tt s1 /\
             labels s !! l = Some (mkLabelRef (index s1) true).
Proof.
  intros Hp Hd. rewrite assemble_lines_app in Hp. unfold abind in Hp.
  destruct (assemble_lines pre t) as [[] s1|f] eqn:E1; [|discriminate].
  cbn [assemble_lines Assemble] in Hp. unfold abind at 1 2 in Hp.
  unfold aget at 1 in Hp.
  destruct (updateLabel l (index s1) s1) as [[] s2|f] eqn:E2; [|discriminate].
  destruct (clean_lines _ _ _ _ Hp Hd) as [Hl2 _].
  exists s1. split; [reflexivity|].
  rewrite Hl2. unfold updateLabel in E2.
  destruct (labels s1 !! l) as [lr|]; [|discriminate].
  injection E2 as <-. simpl. apply lookup_insert_eq.
Qed.

(** X14. When the driver finishes, its last pass began with the label
    table it ended with, and every label holds, marked as defined, the
    cursor at which that pass reached its definition. *)
Theorem labels_at_fixed_point (fuel : nat) (pre post : list Assembled) (l : string)
  (s : AssemblyState) :
  assemble_program fuel (pre ++ LabelDef l :: post)%list = Finished s ->
  exists s0 s1,
    one_pass (pre ++ LabelDef l :: post)%list s0 = Done tt s /\
    labels s0 = labels s /\
    assemble_lines pre (reset s0) = Done tt s1 /\
    labels s !! l = Some (mkLabelRef (index s1) true).
Proof.
  intros H. destruct (last_pass _ _ _ H) as (Hd & s0 & Hp & Hl).
  destruct (clean_label pre l post (reset s0) s Hp Hd) as (s1 & H1 & H2).
  by exists s0, s1.
Qed.

(** The program [.dat 7], [:x], [.dat x]. *)
Lemma labels_at_fixed_point_witness :
  exists s s0 s1,
    assemble_program 3 ([DatBlock [Constant 7 "f:1:6"]]
                        ++ LabelDef "x" :: [DatBlock [LabelUse "x" "f:3:6"]])%list
    = Finished s /\
    labels s0 = labels s /\
    assemble_lines [DatBlock [Constant 7 "f:1:6"]] (reset s0) = Done tt s1 /\
    labels s !! "x" = Some (mkLabelRef (index s1) true).
Proof.
  assert (Hrun : exists s,
            assemble_program 3 ([DatBlock [Constant 7 "f:1:6"]]
                                ++ LabelDef "x" :: [DatBlock [LabelUse "x" "f:3:6"]])%list
            = Finished s) by (vm_compute; eexists; reflexivity).
  destruct Hrun as [s Hs].
  destruct (labels_at_fixed_point 3 [DatBlock [Constant 7 "f:1:6"]]
              [DatBlock [LabelUse "x" "f:3:6"]] "x" s Hs) as (s0 & s1 & _ & H1 & H2 & H3).
  exists s, s0, s1. split; [exact Hs|]. split; [exact H1|]. split; [exact H2|exact H3].
Defined.

Lemma first_label_def lines :
  existsb is_label_def lines = true ->
  exists pre l post, lines = (pre ++ LabelDef l :: post)%list /\
                     existsb is_label_def pre = false.
Proof.
  induction lines as [|x lines IH]; [discriminate|]. simpl. intros H.
  destruct (is_label_def x) eqn:Ex.
  - destruct x as [fn|oe|sn se|vs|fl fv|lbl|opc ags iloc|st d b pl pr po|rg st lr b]; try discriminate. by exists [], lbl, lines.
  - destruct (IH H) as (pre & l & post & -> & Hpre).
    exists (x :: pre), l, post. split; [reflexivity|]. simpl. by rewrite Ex.
Qed.

Lemma defines_middle pre l post : defines l (pre ++ LabelDef l :: post)%list = true.
Proof.
  induction pre as [|x pre IH]; simpl.
  - by rewrite String.eqb_refl.
  - destruct x; try exact IH. rewrite IH. apply orb_true_r.
Qed.

Lemma first_pass_ends_dirty lines s1 :
  existsb is_label_def lines = true ->
  one_pass lines (initial_state lines) = Done tt s1 -> dirty s1 = true.
Proof.
  intros Hl H. destruct (first_label_def lines Hl) as (pre & l & post & Hlines & Hpre).
  unfold one_pass in H. rewrite Hlines in H at 1.
  rewrite assemble_lines_app in H. unfold abind in H.
  destruct (assemble_lines pre (reset (initial_state lines))) as [[] s2|f] eqn:E1;
    [|discriminate].
  destruct (label_free_lines _ _ _ Hpre E1) as [Hlab _].
  cbn [assemble_lines Assemble] in H. unfold abind at 1 2 in H. unfold aget at 1 in H.
  destruct (updateLabel l (index s2) s2) as [[] s3|f] eqn:E2; [|discriminate].
  apply (dirty_stays _ _ _ _ H).
  unfold updateLabel in E2. rewrite Hlab in E2. simpl in E2.
  unfold initial_state in E2. simpl in E2.
  rewrite collect_labels_lookup in E2. rewrite Hlines in E2 at 1.
  rewrite defines_middle in E2. simpl in E2. by injection E2 as <-.
Qed.

Lemma first_pass_ends_clean lines s1 :
  existsb is_label_def lines = false ->
  one_pass lines (initial_state lines) = Done tt s1 -> dirty s1 = false.
Proof.
  intros Hl H. unfold one_pass in H.
  destruct (label_free_lines _ _ _ Hl H) as [_ Hd]. by rewrite Hd.
Qed.

(** X15. The first pass ends dirty exactly when the program has a label
    definition.  A program without one is finished after its first pass;
    a program with one is never finished before its second. *)
Theorem passes_needed (lines : list Assembled) (s1 : AssemblyState) :
  one_pass lines (initial_state lines) = Done tt s1 ->
  (existsb is_label_def lines = false ->
     dirty s1 = false /\ forall n, assemble_program (2 + n) lines = Finished s1) /\
  (existsb is_label_def lines = true ->
     dirty s1 = true /\
     forall fuel s, assemble_program fuel lines = Finished s ->
       exists k, (2 <= k < fuel)%nat /\
                 after_passes k lines (initial_state lines) = Some s).
Proof.
  intros H. destruct (initial_state_fields lines) as (Hd0 & _).
  split; intros Hl.
  - pose proof (first_pass_ends_clean lines s1 Hl H) as Hd.
    split; [exact Hd|]. intros n. unfold assemble_program. cbn [Nat.add main_loop].
    rewrite Hd0. cbn [orb]. rewrite H.
    by rewrite Hd, (pass_ends_resolved _ _ _ H).
  - pose proof (first_pass_ends_dirty lines s1 Hl H) as Hd.
    split; [exact Hd|]. intros fuel s Hf. unfold assemble_program in Hf.
    destruct (main_loop_finished _ _ _ _ Hf) as (Hds & _ & k & Hk & Hp).
    exists k. split; [|exact Hp].
    destruct k as [|[|k]]; [| |lia].
    + injection Hp as <-. congruence.
    + simpl in Hp. rewrite H in Hp. injection Hp as <-. congruence.
Qed.

(** The programs [.dat 7] and [:x], [.dat x]. *)
Lemma passes_needed_witness :
  (exists s1, assemble_program 2 [DatBlock [Constant 7 "f:1:6"]] = Finished s1) /\
  (exists s1, one_pass [LabelDef "x"; DatBlock [LabelUse "x" "f:2:6"]]
                (initial_state [LabelDef "x"; DatBlock [LabelUse "x" "f:2:6"]])
              = Done tt s1 /\ dirty s1 = true).
Proof.
  split.
  - assert (Hrun : exists s1, one_pass [DatBlock [Constant 7 "f:1:6"]]
                                (initial_state [DatBlock [Constant 7 "f:1:6"]])
                              = Done tt s1) by (vm_compute; eexists; reflexivity).
    destruct Hrun as [s1 H1]. exists s1.
    destruct (passes_needed _ _ H1) as [Hfree _].
    destruct (Hfree eq_refl) as [_ Hfin]. exact (Hfin 0%nat).
  - assert (Hrun : exists s1, one_pass [LabelDef "x"; DatBlock [LabelUse "x" "f:2:6"]]
                                (initial_state [LabelDef "x"; DatBlock [LabelUse "x" "f:2:6"]])
                              = Done tt s1) by (vm_compute; eexists; reflexivity).
    destruct Hrun as [s1 H1]. exists s1. split; [exact H1|].
    destruct (passes_needed _ _ H1) as [_ Hlab].
    by destruct (Hlab eq_refl) as [Hd _].
Defined.

(** *** How a program can fail *)

Section Failures.
Variable P : failure -> Prop.

Lemma fails_ret {A} (a : A) : fails_only P (aret a).
Proof using Type. intros s f H. discriminate. Qed.

Lemma fails_get : fails_only P aget.
Proof using Type. intros s f H. discriminate. Qed.

Lemma fails_modify g : fails_only P (amodify g).
Proof using Type. intros s f H. discriminate. Qed.

Lemma fails_fail {A} f : P f -> fails_only P (@afail A f).
Proof using Type. intros Hf s f' H. by injection H as <-. Qed.

Lemma fails_bind {A B} (m : Asm A) (k : A -> Asm B) :
  fails_only P m -> (forall a, fails_only P (k a)) -> fails_only P (abind m k).
Proof using Type.
  intros Hm Hk s f H. unfold abind in H.
  destruct (m s) as [a s1|f'] eqn:E.
  - exact (Hk a s1 f H).
  - injection H as <-. exact (Hm s f' E).
Qed.
End Failures.

Lemma not_unknown_label_asm loc msg args : ~ unknown_label_panic (AsmError loc msg args).
Proof. intros [l H]. discriminate. Qed.

Lemma not_unknown_label_runtime what : ~ unknown_label_panic (RuntimePanic what).
Proof. intros [l H]. discriminate. Qed.

Ltac other_failure :=
  first [ apply not_unknown_label_asm | apply not_unknown_label_runtime
        | let l := fresh in let H := fresh in intros [l H]; discriminate H ].

Lemma fails_push x : fails_only (fun f => ~ unknown_label_panic f) (push x).
Proof.
  intros s f. unfold push. destruct (used_at s (index s)); [|discriminate].
  intros [= <-]. other_failure.
Qed.

Ltac fails_step :=
  match goal with
  | |- fails_only _ (abind _ _) => apply fails_bind; [| intros ?]
  | |- fails_only _ (aret _) => apply fails_ret
  | |- fails_only _ aget => apply fails_get
  | |- fails_only _ (amodify _) => apply fails_modify
  | |- fails_only _ (updateSymbol _ _) => apply fails_modify
  | |- fails_only _ (afail _) => apply fails_fail; other_failure
  | |- fails_only _ (asmError _ _ _) => apply fails_fail; other_failure
  | |- fails_only _ (push _) => apply fails_push
  | |- fails_only _ (if ?b then _ else _) => destruct b
  | |- fails_only _ (match ?x with _ => _ end) => destruct x
  | |- fails_only _ (let '(_, _) := ?x in _) => destruct x
  end.

Lemma fails_Evaluate e : fails_only (fun f => ~ unknown_label_panic f) (Evaluate e).
Proof.
  induction e as [l loc|v loc|lhs IHl op rhs IHr|op e IH]; simpl.
  - apply fails_bind; [apply fails_get|]. intros s.
    destruct (lookup_name s l) as [[v d] known]. repeat fails_step.
  - apply fails_ret.
  - apply fails_bind; [exact IHl|]. intros l.
    apply fails_bind; [exact IHr|]. intros r. repeat fails_step.
  - apply fails_bind; [exact IH|]. intros v. repeat fails_step.
Qed.

Lemma fails_checkLiteral e signed width :
  fails_only (fun f => ~ unknown_label_panic f)
    (checkLiteral (E:=Expression) e signed width).
Proof.
  unfold checkLiteral. apply fails_bind; [apply fails_Evaluate|].
  intros v. repeat fails_step.
Qed.

Ltac fails_enc :=
  repeat first
    [ apply fails_Evaluate
    | apply fails_checkLiteral
    | match goal with
      | |- fails_only _ (non_nil ?e _) => unfold non_nil
      | |- fails_only _ (arg_at _ _) => unfold arg_at
      end
    | fails_step ].

Lemma fails_opAddSub loc m args :
  fails_only (fun f => ~ unknown_label_panic f) (opAddSub loc m args).
Proof. unfold opAddSub, opRI, opRRR. fails_enc. Qed.

Lemma fails_table_arm {V} (tbl : list (string * V)) opcode args ks k m :
  (forall n, fails_only (fun f => ~ unknown_label_panic f) (k n)) ->
  table_arm tbl opcode args ks k = Some m ->
  fails_only (fun f => ~ unknown_label_panic f) m.
Proof.
  unfold table_arm. intros Hk H.
  destruct (table_get tbl opcode); [|discriminate].
  destruct (kinds_are args ks); [|discriminate].
  inversion H; subst. apply Hk.
Qed.

Lemma fails_special opcode f loc args :
  table_get specialInstructions opcode = Some f ->
  fails_only (fun f => ~ unknown_label_panic f) (f loc opcode args).
Proof.
  unfold specialInstructions; cbn [table_get]. intros H.
  repeat match type of H with
         | (if ?b then _ else _) = _ => destruct b
         end;
    inversion H; subst; first [apply fails_opAddSub | unfold opSWI; fails_enc].
Qed.

Lemma fails_Instruction opcode args loc :
  fails_only (fun f => ~ unknown_label_panic f) (Instruction_Assemble opcode args loc).
Proof.
  unfold Instruction_Assemble.
  repeat match goal with
         | |- fails_only _ (match table_arm ?t ?o ?a ?ks ?k with _ => _ end) =>
             let E := fresh "E" in
             destruct (table_arm t o a ks k) eqn:E;
             [eapply fails_table_arm; [|exact E]; intros ?;
              unfold opRRR, opRR, opR, opVoid, opRI, opBranch; fails_enc | clear E]
         end.
  destruct (table_get specialInstructions opcode) eqn:E.
  - by apply fails_special.
  - apply fails_fail. other_failure.
Qed.

Lemma fails_push_times n v :
  fails_only (fun f => ~ unknown_label_panic f) (push_times n v).
Proof. induction n; simpl; fails_enc. exact IHn. Qed.

Lemma fails_push_values vs :
  fails_only (fun f => ~ unknown_label_panic f) (push_values vs).
Proof. induction vs; simpl; fails_enc. exact IHvs. Qed.

Lemma fails_Assemble l :
  is_label_def l = false -> fails_only (fun f => ~ unknown_label_panic f) (Assemble l).
Proof.
  intros Hl. destruct l; try discriminate; cbn [Assemble].
  - apply fails_fail. other_failure.
  - fails_enc.
  - fails_enc.
  - apply fails_push_values.
  - apply fails_bind; [apply fails_Evaluate|]. intros n.
    apply fails_bind; [apply fails_Evaluate|]. intros v. apply fails_push_times.
  - apply fails_Instruction.
  - unfold LoadStore_Assemble. fails_enc.
  - unfold StackOp_Assemble. fails_enc.
Qed.

Lemma Assemble_names l : keeps same_names (Assemble l).
Proof.
  apply keeps_Assemble.
  - reflexivity.
  - unfold same_names. intros s1 s2 s3 H12 H23. congruence.
  - intros x s [] s' H. unfold same_names. by rewrite (push_labels _ _ _ H).
  - intros a s [] s' [= <-]. reflexivity.
  - intros k v s [] s' [= <-]. reflexivity.
  - apply updateLabel_names.
Qed.

Lemma lines_failure_gen (P : failure -> Prop) lines : forall s f,
  Forall (fun l => is_label_def l = false -> fails_only P (Assemble l)) lines ->
  (forall x, defines x lines = true -> is_Some (labels s !! x)) ->
  assemble_lines lines s = Abort f -> P f.
Proof.
  induction lines as [|l lines IH]; simpl; intros s f Hall Hdef H; [discriminate|].
  inversion Hall as [|? ? Hl Hrest]; subst.
  unfold abind in H. destruct (Assemble l s) as [[] s1|f'] eqn:E.
  - apply (IH s1 f Hrest); [|exact H]. intros x Hx.
    pose proof (Assemble_names l _ _ _ E) as Hn. unfold same_names in Hn.
    apply elem_of_dom. rewrite Hn. apply elem_of_dom. apply Hdef.
    destruct l; try exact Hx. rewrite Hx. apply orb_true_r.
  - injection H as <-. destruct (is_label_def l) eqn:El.
    + destruct l as [fn|oe|sn se|vs|fl fv|lbl|opc ags iloc|st d b pl pr po|rg st lr b]; try discriminate. simpl in E.
      unfold abind, aget, updateLabel in E.
      destruct (Hdef lbl) as [lr Hlr]; [simpl; by rewrite String.eqb_refl|].
      rewrite Hlr in E. discriminate.
    + exact (Hl eq_refl s f' E).
Qed.

Lemma program_failure_gen (P : failure -> Prop) fuel lines f :
  Forall (fun l => is_label_def l = false -> fails_only P (Assemble l)) lines ->
  assemble_program fuel lines = Failed f -> P f.
Proof.
  intros Hall H. unfold assemble_program in H.
  destruct (main_loop_failed _ _ _ _ H) as (k & sk & _ & Hk & Hp).
  apply (lines_failure_gen P lines (reset sk) f Hall); [|exact Hp].
  intros x Hx. apply elem_of_dom. change (labels (reset sk)) with (labels sk).
  rewrite (after_passes_names _ _ _ _ Hk). apply elem_of_dom.
  unfold initial_state. simpl. rewrite collect_labels_lookup, Hx. by eexists.
Qed.

(** X16. The driver registers every label definition before the first
    pass and no pass removes a name, so the panic of [updateLabel],
    "unknown label", is never the failure of a program. *)
Theorem unknown_label_panic_unreachable (fuel : nat) (lines : list Assembled)
  (f : failure) (l : string) :
  assemble_program fuel lines = Failed f -> f <> GoPanic "unknown label: '%s'" [FStr l].
Proof.
  intros H Hf.
  apply (program_failure_gen (fun f => ~ unknown_label_panic f) fuel lines f);
    [|exact H|by exists l].
  apply Forall_forall. intros x _. apply fails_Assemble.
Qed.

(** The program [.dat 1 / 0] fails, with the division panic. *)
Lemma unknown_label_panic_unreachable_witness :
  assemble_program 2
    [DatBlock [BinExpr (Constant 1 "f:1:6") DIVIDE (Constant 0 "f:1:10")]]
  = Failed (RuntimePanic "runtime error: integer divide by zero") /\
  RuntimePanic "runtime error: integer divide by zero"
  <> GoPanic "unknown label: '%s'" [FStr "x"].
Proof.
  split; [vm_compute; reflexivity|].
  apply (unknown_label_panic_unreachable 2
           [DatBlock [BinExpr (Constant 1 "f:1:6") DIVIDE (Constant 0 "f:1:10")]]).
  vm_compute. reflexivity.
Defined.

(** *** The output file *)

Lemma flat_pairs_length {A} (g h : A -> Z) (l : list A) :
  length (flat_map (fun i => [g i; h i]) l) = (2 * length l)%nat.
Proof. induction l as [|x l IH]; simpl; [reflexivity|]. rewrite IH. lia. Qed.

Lemma flat_pairs_lookup {A} (g h : A -> Z) (l : list A) : forall (i : nat) x,
  l !! i = Some x ->
  flat_map (fun i => [g i; h i]) l !! (2 * i)%nat = Some (g x) /\
  flat_map (fun i => [g i; h i]) l !! S (2 * i) = Some (h x).
Proof.
  induction l as [|y l IH]; intros i x H; [by destruct i|].
  destruct i as [|i].
  - injection H as <-. by split.
  - simpl in H. destruct (IH i x H) as [H1 H2].
    replace (2 * S i)%nat with (S (S (2 * i))) by lia. by split.
Qed.

(** X17. The output holds the words below the final cursor and nothing
    else, two bytes a word, the high byte first: it has twice as many
    bytes as the cursor says, and for a 16-bit word the two bytes give the
    word back.  Words at or above the cursor are not written, wherever
    they were placed. *)
Theorem output_big_endian (s : AssemblyState) :
  0 <= index s ->
  length (output_bytes s) = Z.to_nat (2 * index s) /\
  (forall i, 0 <= i < index s ->
     exists hi lo,
       output_bytes s !! Z.to_nat (2 * i) = Some hi /\
       output_bytes s !! Z.to_nat (2 * i + 1) = Some lo /\
       hi = (rom_at s i / 256) mod 256 /\ lo = rom_at s i mod 256 /\
       (is_u16 (rom_at s i) -> 256 * hi + lo = rom_at s i)) /\
  (forall s', index s' = index s ->
     (forall i, 0 <= i < index s -> rom_at s' i = rom_at s i) ->
     output_bytes s' = output_bytes s).
Proof.
  intros Hi. unfold output_bytes. split; [|split].
  - rewrite flat_pairs_length, length_seqZ. lia.
  - intros i Hlt.
    assert (Hl : seqZ 0 (index s) !! Z.to_nat i = Some i).
    { rewrite lookup_seqZ. split; lia. }
    destruct (flat_pairs_lookup (fun i => u8 (Z.shiftr (rom_at s i) 8))
                (fun i => u8 (Z.land (rom_at s i) 255)) _ _ _ Hl) as [H1 H2].
    eexists _, _.
    replace (Z.to_nat (2 * i)) with (2 * Z.to_nat i)%nat by lia.
    replace (Z.to_nat (2 * i + 1)) with (S (2 * Z.to_nat i)) by lia.
    split; [exact H1|]. split; [exact H2|].
    unfold u8. rewrite Z.shiftr_div_pow2 by lia. change (2 ^ 8) with 256.
    change 255 with (Z.ones 8). rewrite Z.land_ones by lia. change (2 ^ 8) with 256.
    rewrite Z.mod_mod by lia.
    split; [reflexivity|]. split; [reflexivity|].
    unfold is_u16. intros Hw.
    rewrite (Z.mod_small (rom_at s i / 256))
      by (split; [apply Z.div_pos; lia | apply Z.div_lt_upper_bound; lia]).
    symmetry. apply Z.div_mod. lia.
  - intros s' Hidx Hrom. rewrite Hidx.
    assert (Hall : forall l : list Z, Forall (fun i => 0 <= i < index s) l ->
              flat_map (fun i => [u8 (Z.shiftr (rom_at s' i) 8);
                                  u8 (Z.land (rom_at s' i) 255)]) l
              = flat_map (fun i => [u8 (Z.shiftr (rom_at s i) 8);
                                    u8 (Z.land (rom_at s i) 255)]) l).
    { induction 1 as [|x l Hx _ IH]; simpl; [reflexivity|]. by rewrite IH, (Hrom x Hx). }
    apply Hall. apply Forall_forall. intros x Hx. apply elem_of_seqZ in Hx. lia.
Qed.

(** One word, 0x1234, below the cursor and one above it. *)
Lemma output_big_endian_witness :
  output_bytes (mkState ∅ ∅ true false {[0 := 0x1234; 1 := 0x5678]} 1 {[0 := true]})
  !! Z.to_nat (2 * 0) = Some ((0x1234 / 256) mod 256) /\
  length (output_bytes
            (mkState ∅ ∅ true false {[0 := 0x1234; 1 := 0x5678]} 1 {[0 := true]}))
  = 2%nat.
Proof.
  destruct (output_big_endian
              (mkState ∅ ∅ true false {[0 := 0x1234; 1 := 0x5678]} 1 {[0 := true]})
              ltac:(simpl; lia)) as (Hlen & Hbytes & _).
  split; [|exact Hlen].
  destruct (Hbytes 0 ltac:(simpl; lia)) as (hi & lo & H1 & _ & Hhi & _).
  rewrite H1, Hhi. reflexivity.
Defined.

(** *** The scanner consumes its input *)


Lemma rest_unread_read s : r_rest (unread (snd (read s))) = r_rest s.
Proof.
  unfold read. destruct (r_rest s) as [|ch rest] eqn:E; [reflexivity|].
  destruct (noCount s =? 0)%N; [destruct (rune_eqb ch "010")|]; reflexivity.
Qed.



Lemma read_at_end s : r_rest s = EmptyString -> fst (read s) = eof.
Proof. unfold read. by intros ->. Qed.

Lemma read_not_end s : fst (read s) <> eof -> r_rest s <> EmptyString.
Proof. intros H E. by apply H, read_at_end. Qed.











(** *** Identifiers, keywords and comments *)

Lemma append_cons c (t u : string) : String c t +:+ u = String c (t +:+ u).
Proof. reflexivity. Qed.

Lemma append_nil_l (u : string) : EmptyString +:+ u = u.
Proof. reflexivity. Qed.

Lemma append_nil_r (t : string) : t +:+ EmptyString = t.
Proof. induction t as [|c t IH]; [reflexivity|]. by rewrite append_cons, IH. Qed.

Lemma append_snoc (buf : string) c t : snoc buf c +:+ t = buf +:+ String c t.
Proof.
  unfold snoc. induction buf as [|d buf IH]; [reflexivity|].
  by rewrite !append_cons, IH.
Qed.

Lemma read_cons s c t :
  r_rest s = String c t ->
  exists s1, read s = (c, s1) /\ r_rest s1 = t /\ r_last s1 = Some c.
Proof.
  intros H. unfold read. rewrite H.
  destruct (noCount s =? 0)%N; [destruct (rune_eqb c "010")|]; by eexists.
Qed.

Lemma read_nil s :
  r_rest s = EmptyString -> exists s1, read s = (eof, s1) /\ r_rest s1 = EmptyString.
Proof. intros H. unfold read. rewrite H. by eexists. Qed.

Lemma unread_last s c : r_last s = Some c -> r_rest (unread s) = String c (r_rest s).
Proof. intros H. unfold unread. by rewrite H. Qed.

(** The loop of [scanWhile] takes the longest run of characters that
    satisfy the predicate and leaves the rest. *)
Lemma scanWhile_loop_run p a : forall n buf s b,
  r_rest s = a +:+ b ->
  all_chars (fun c => p c && negb (rune_eqb c eof)) a = true -> stops p b = true ->
  (String.length a < n)%nat ->
  exists s', scanWhile_loop n p buf s = Some (buf +:+ a, s') /\ r_rest s' = b.
Proof.
  induction a as [|c a IH]; intros n buf s b Hr Ha Hb Hn.
  - destruct n as [|n]; [simpl in Hn; lia|]. rewrite append_nil_l in Hr.
    simpl scanWhile_loop. destruct b as [|c t].
    + destruct (read_nil s Hr) as (s1 & -> & Hr1). exists s1.
      by rewrite append_nil_r.
    + destruct (read_cons s c t Hr) as (s1 & -> & Hr1 & Hl1).
      simpl in Hb. apply andb_true_iff in Hb as [Hp He].
      apply negb_true_iff in He. rewrite He, Hp.
      exists (unread s1). rewrite append_nil_r. split; [reflexivity|].
      by rewrite (unread_last _ _ Hl1), Hr1.
  - destruct n as [|n]; [simpl in Hn; lia|]. rewrite append_cons in Hr.
    simpl in Ha, Hn. simpl scanWhile_loop.
    destruct (read_cons s c _ Hr) as (s1 & -> & Hr1 & _).
    apply andb_true_iff in Ha as [Hc Ha]. apply andb_true_iff in Hc as [Hp He].
    apply negb_true_iff in He. rewrite He, Hp. simpl.
    destruct (IH n (snoc buf c) s1 b Hr1 Ha Hb ltac:(lia)) as (s' & Hs & Hr').
    exists s'. split; [|exact Hr']. by rewrite Hs, append_snoc.
Qed.

(** The loop of [scanIdent] is the loop of [scanWhile] for the
    characters of an identifier. *)
Lemma scanIdent_loop_as_scanWhile : forall n buf s,
  scanIdent_loop n buf s = scanWhile_loop n isIdentChar buf s.
Proof.
  induction n as [|n IH]; intros buf s; [reflexivity|]. simpl.
  destruct (read s) as [ch s1]. destruct (rune_eqb ch eof); [reflexivity|].
  unfold isIdentChar. rewrite !negb_orb. rewrite IH. reflexivity.
Qed.

Lemma letter_not_space c :
  isLetter c || rune_eqb c "_" = true -> isWhitespace c = false.
Proof. destruct c as [[] [] [] [] [] [] [] []]; vm_compute; congruence. Qed.

Lemma ident_char_not_eof c : isIdentChar c = true -> rune_eqb c eof = false.
Proof. destruct c as [[] [] [] [] [] [] [] []]; vm_compute; congruence. Qed.

Lemma ident_chars_not_eof t :
  all_chars isIdentChar t = true ->
  all_chars (fun c => isIdentChar c && negb (rune_eqb c eof)) t = true.
Proof.
  induction t as [|c t IH]; simpl; [reflexivity|]. intros H.
  apply andb_true_iff in H as [Hc Ht]. by rewrite Hc, (ident_char_not_eof c Hc), IH.
Qed.

(** X19. An identifier is scanned whole: when the text begins with a
    letter or an underscore followed by letters, digits and underscores,
    and then ends or goes on with another character, the token's literal
    is that run of characters, as written, and the scanner is left at
    what follows.  The token is the keyword's ([PC], [SP], [LR], a
    register for [R0] to [R7]) when the upper-cased literal is in the
    keyword table, and [IDENT] otherwise. *)
Theorem identifier_scanned_whole (s : Scanner) (c : ascii) (cs rest : string) :
  r_rest s = String c (cs +:+ rest) ->
  isLetter c || rune_eqb c "_" = true ->
  all_chars isIdentChar cs = true -> stops isIdentChar rest = true ->
  exists s',
    Scan s = Some (default IDENT (table_get keywords (ToUpper (String c cs))),
                   String c cs, s') /\
    r_rest s' = rest.
Proof.
  intros Hr Hc Hcs Hrest. unfold Scan, innerScan.
  pose proof (rest_unread_read s) as Hun.
  destruct (read_cons s c _ Hr) as (s1 & Hread & Hr1 & Hl1). rewrite Hread in *.
  cbn [snd] in Hun. rewrite (letter_not_space c Hc), Hc.
  unfold scanIdent. rewrite Hr in Hun.
  destruct (read_cons (unread s1) c _ Hun) as (s2 & -> & Hr2 & _).
  rewrite scanIdent_loop_as_scanWhile.
  destruct (scanWhile_loop_run isIdentChar cs (rounds s2) (String c EmptyString) s2 rest
              Hr2 (ident_chars_not_eof cs Hcs) Hrest) as (s' & -> & Hr').
  { unfold rounds. rewrite Hr2. clear. induction cs; simpl; lia. }
  exists s'. split; [|exact Hr']. rewrite append_cons, append_nil_l.
  destruct (table_get keywords (ToUpper (String c cs))); reflexivity.
Qed.

(** [loop:], [r3] and [Pc]. *)
Lemma identifier_scanned_whole_witness :
  (exists s', Scan (NewScanner "f" "loop: b") = Some (IDENT, "loop", s') /\
              r_rest s' = ": b") /\
  (exists s', Scan (NewScanner "f" "r3, #1") = Some (REGISTER, "r3", s') /\
              r_rest s' = ", #1") /\
  (exists s', Scan (NewScanner "f" "Pc") = Some (PC, "Pc", s') /\
              r_rest s' = EmptyString).
Proof.
  split; [|split].
  - exact (identifier_scanned_whole (NewScanner "f" "loop: b") "l" "oop" ": b"
             eq_refl eq_refl eq_refl eq_refl).
  - exact (identifier_scanned_whole (NewScanner "f" "r3, #1") "r" "3" ", #1"
             eq_refl eq_refl eq_refl eq_refl).
  - exact (identifier_scanned_whole (NewScanner "f" "Pc") "P" "c" EmptyString
             eq_refl eq_refl eq_refl eq_refl).
Defined.




(** *** What the parser returns *)






































(** *** The failures of a parsed program *)

























(** *** Words of earlier passes *)

(** A pass marks more and more addresses as used and leaves the word at
    every address it has not marked. *)
Lemma unused_words_kept lines :
  keeps (fun s s' => (forall a, used_at s a = true -> used_at s' a = true) /\
                     (forall a, used_at s' a = false -> rom_at s' a = rom_at s a))
    (assemble_lines lines).
Proof.
  apply keeps_assemble_lines.
  - by intros s.
  - intros s1 s2 s3 [Hu12 Hr12] [Hu23 Hr23]. split; [by auto|].
    intros a Ha. rewrite (Hr23 a Ha). apply Hr12.
    destruct (used_at s2 a) eqn:E; [|reflexivity]. apply Hu23 in E. congruence.
  - intros x s [] s'. unfold push. destruct (used_at s (index s)) eqn:E; [discriminate|].
    intros [= <-]. unfold used_at, rom_at in *; simpl. split; intros a Ha.
    + destruct (Z.eq_dec (index s) a) as [->|Hne];
        [by rewrite lookup_insert_eq|by rewrite lookup_insert_ne].
    + destruct (Z.eq_dec (index s) a) as [Heq|Hne].
      * rewrite Heq in Ha. by rewrite lookup_insert_eq in Ha.
      * by rewrite lookup_insert_ne.
  - intros a s [] s' [= <-]. by split.
  - intros l v s [] s' [= <-]. by split.
  - intros l a s [] s'. unfold updateLabel.
    destruct (labels s !! l) as [lr|]; [|discriminate].
    intros [= <-]. destruct (negb (defined lr) || negb (value lr =? a)); by split.
Qed.

(** X23. [reset] does not clear the rom.  An address that a pass does
    not write holds afterwards what it held before the pass, so a word
    that an earlier pass placed somewhere else is still there when the
    driver finishes, and it is written to the output when it lies below
    the final cursor: the program [.org x + 1], [.dat 7], [.org 4], [:x],
    [.dat 9] finishes with the 7 of its first pass at address 1, an
    address that its last pass did not use. *)
Theorem stale_words_survive :
  (forall s, rom (reset s) = rom s) /\
  (forall lines s s' a,
     one_pass lines s = Done tt s' -> used_at s' a = false ->
     rom_at s' a = rom_at s a) /\
  (exists s, assemble_program 3 moving_block = Finished s /\
             index s = 5 /\ used_at s 1 = false /\ rom_at s 1 = 7 /\
             rom_at s 5 = 7 /\ used_at s 5 = true /\
             output_bytes s = [0; 0; 0; 7; 0; 0; 0; 0; 0; 9]).
Proof.
  split; [reflexivity|]. split.
  - intros lines s s' a H Ha. unfold one_pass in H.
    destruct (unused_words_kept lines _ _ _ H) as [_ Hr]. exact (Hr a Ha).
  - eexists. split; [vm_compute; reflexivity|]. repeat split; vm_compute; reflexivity.
Qed.

Lemma stale_words_survive_witness :
  exists s',
    one_pass [DatBlock [Constant 9 "f:1:6"]] (mkState ∅ ∅ true false {[3 := 5]} 0 ∅)
    = Done tt s' /\
    rom_at s' 3 = 5.
Proof.
  assert (Hrun : exists s',
            one_pass [DatBlock [Constant 9 "f:1:6"]]
              (mkState ∅ ∅ true false {[3 := 5]} 0 ∅) = Done tt s' /\
            used_at s' 3 = false) by (eexists; split; vm_compute; reflexivity).
  destruct Hrun as (s' & Hp & Hu). exists s'. split; [exact Hp|].
  rewrite (proj1 (proj2 stale_words_survive) _ _ _ _ Hp Hu). reflexivity.
Defined.

(** *** The special forms of [ADD], [SUB] and [SWI] *)

Lemma special_word n r v :
  0 <= n < 16 -> 0 <= r < 8 -> 0 <= v < 256 ->
  shl16 n 11 .| shl16 r 8 .| v = 2048 * n + 256 * r + v.
Proof. apply ri_word. Qed.

Lemma low_word n v : 0 <= n < 4 -> 0 <= v < 256 -> n * 256 .| v = 256 * n + v.
Proof.
  intros Hn Hv. change 256 with (2 ^ 8) at 1.
  rewrite lor_add_low by (pow2; lia). pow2. lia.
Qed.

Ltac run_lit H :=
  unfold abind, aret; cbv beta iota; cbn [lit lit_arg non_nil];
  rewrite H; cbv beta iota; cbn [reg reg_arg].

(** X24. The forms of [ADD], [SUB] and [SWI] that the tables do not
    cover, with a literal below 256: [ADD Rd, PC, #v] and [ADD Rd, SP, #v]
    are words of the immediate format with the operation numbers 13 and
    14, which no mnemonic of the immediate table has; [ADD SP, #v],
    [SUB SP, #v] and [SWI #v] are the words [v], [256 + v] and [512 + v],
    below every word of the immediate format.  [SUB] has no form with
    [PC] or [SP] in the middle: it is an assembly error. *)
Theorem special_forms (r v : Z) (e : Expression) (loc : string) (s : AssemblyState) :
  0 <= r < 8 -> 0 <= v < 256 -> Evaluate e s = Done v s ->
  Assemble (Instruction "ADD" [reg_arg r; kind_arg AT_PC; lit_arg e] loc) s
  = push (2048 * 13 + 256 * r + v) s /\
  Assemble (Instruction "ADD" [reg_arg r; kind_arg AT_SP; lit_arg e] loc) s
  = push (2048 * 14 + 256 * r + v) s /\
  Assemble (Instruction "ADD" [kind_arg AT_SP; lit_arg e] loc) s = push v s /\
  Assemble (Instruction "SUB" [kind_arg AT_SP; lit_arg e] loc) s = push (256 + v) s /\
  Assemble (Instruction "SWI" [lit_arg e] loc) s = push (512 + v) s /\
  Assemble (Instruction "SUB" [reg_arg r; kind_arg AT_PC; lit_arg e] loc) s
  = Abort (AsmError loc "Unrecognized arguments to %s: %s"
             [FStr "SUB"; FStr (showArgs [reg_arg r; kind_arg AT_PC; lit_arg e])]) /\
  (forall m n, table_get riInstructions m = Some n -> 1 <= n <= 12 \/ n = 15).
Proof.
  intros Hr Hv He.
  assert (Hlit : checkLiteral e false 8 s = Done v s).
  { destruct (@checkLiteral_unsigned Expression Expression_I e 8 s v s ltac:(lia) He)
      as [Hok _]. apply Hok. pow2. lia. }
  cbn [Assemble]. unfold Instruction_Assemble.
  split; [|split; [|split; [|split; [|split; [|split]]]]].
  - rewrite !table_arm_shape by reflexivity. cbn [table_get specialInstructions String.eqb
      Ascii.eqb Bool.eqb]. unfold opAddSub.
    cbn [kinds_are kind reg_arg kind_arg lit_arg ArgKind_eqb andb String.eqb Ascii.eqb
         Bool.eqb arg_at lookup list_lookup lit reg non_nil].
    run_lit Hlit. by rewrite special_word by lia.
  - rewrite !table_arm_shape by reflexivity. cbn [table_get specialInstructions String.eqb
      Ascii.eqb Bool.eqb]. unfold opAddSub.
    cbn [kinds_are kind reg_arg kind_arg lit_arg ArgKind_eqb andb String.eqb Ascii.eqb
         Bool.eqb arg_at lookup list_lookup lit reg non_nil].
    run_lit Hlit. by rewrite special_word by lia.
  - rewrite !table_arm_shape by reflexivity. cbn [table_get specialInstructions String.eqb
      Ascii.eqb Bool.eqb]. unfold opAddSub.
    cbn [kinds_are kind reg_arg kind_arg lit_arg ArgKind_eqb andb String.eqb Ascii.eqb
         Bool.eqb arg_at lookup list_lookup lit reg non_nil].
    run_lit Hlit. change (shl16 0 8) with (0 * 256).
    by rewrite low_word by lia.
  - rewrite !table_arm_shape by reflexivity. cbn [table_get specialInstructions String.eqb
      Ascii.eqb Bool.eqb]. unfold opAddSub.
    cbn [kinds_are kind reg_arg kind_arg lit_arg ArgKind_eqb andb String.eqb Ascii.eqb
         Bool.eqb arg_at lookup list_lookup lit reg non_nil].
    run_lit Hlit. change (shl16 1 8) with (1 * 256).
    by rewrite low_word by lia.
  - rewrite !table_arm_shape by reflexivity. cbn [table_get specialInstructions String.eqb
      Ascii.eqb Bool.eqb]. unfold opSWI.
    cbn [kinds_are kind reg_arg kind_arg lit_arg ArgKind_eqb andb String.eqb Ascii.eqb
         Bool.eqb arg_at lookup list_lookup lit reg non_nil].
    run_lit Hlit. change 512 with (2 * 256) at 1.
    by rewrite low_word by lia.
  - rewrite !table_arm_shape by reflexivity. reflexivity.
  - intros m n H. pose proof (ri_opcode_range m n H) as Hn.
    unfold riInstructions in H. table_range H.
Qed.

(** [ADD r1, PC, #4] and [SWI #9] at address 0. *)
Lemma special_forms_witness :
  Assemble (Instruction "ADD" [reg_arg 1; kind_arg AT_PC; lit_arg (Constant 4 "f:1:14")]
              "f:2:0") (reset new_state) = push 0x6904 (reset new_state) /\
  Assemble (Instruction "SWI" [lit_arg (Constant 9 "f:1:6")] "f:2:0") (reset new_state)
  = push 0x0209 (reset new_state).
Proof.
  split.
  - pose proof (special_forms 1 4 (Constant 4 "f:1:14") "f:2:0" (reset new_state)
                  ltac:(lia) ltac:(lia) eq_refl) as (H & _). exact H.
  - pose proof (special_forms 1 9 (Constant 9 "f:1:6") "f:2:0" (reset new_state)
                  ltac:(lia) ltac:(lia) eq_refl) as (_ & _ & _ & _ & H & _). exact H.
Defined.

(** *** Loads, stores and the stack *)

Lemma ls_word op d b v :
  0 <= op < 8 -> 0 <= d < 8 -> 0 <= b < 8 -> 0 <= v < 16 ->
  49152 .| shl16 op 10 .| shl16 d 7 .| shl16 b 4 .| v
  = 49152 + 1024 * op + 128 * d + 16 * b + v.
Proof.
  intros Ho Hd Hb Hv.
  rewrite !shl16_small by (pow2; lia).
  change 49152 with (6 * 2 ^ 13).
  rewrite (lor_add_low 6 (op * 2 ^ 10) 13) by (change (2 ^ 13) with 8192; pow2; lia).
  replace (6 * 2 ^ 13 + op * 2 ^ 10) with ((48 + op) * 2 ^ 10)
    by (change (2 ^ 13) with 8192; pow2; lia).
  rewrite (lor_add_low _ (d * 2 ^ 7) 10) by (pow2; lia).
  replace ((48 + op) * 2 ^ 10 + d * 2 ^ 7) with ((384 + 8 * op + d) * 2 ^ 7) by (pow2; lia).
  rewrite (lor_add_low _ (b * 2 ^ 4) 7) by (pow2; lia).
  replace ((384 + 8 * op + d) * 2 ^ 7 + b * 2 ^ 4)
    with ((3072 + 64 * op + 8 * d + b) * 2 ^ 4) by (pow2; lia).
  rewrite (lor_add_low _ v 4) by (pow2; lia).
  pow2. lia.
Qed.

Lemma ls_word_sp op d v :
  0 <= op < 8 -> 0 <= d < 8 -> 0 <= v < 16 ->
  49152 .| shl16 op 10 .| shl16 d 7 .| v = 49152 + 1024 * op + 128 * d + v.
Proof.
  intros Ho Hd Hv. pose proof (ls_word op d 0 v Ho Hd ltac:(lia) Hv) as H.
  change (shl16 0 4) with 0 in H. rewrite Z.lor_0_r in H. lia.
Qed.

(** X25. [LDR] and [STR].  With [st] 1 for a store and 0 for a load,
    the word is [0xc000 + 1024 * op + 128 * dest + 16 * base + low]: for a
    base of [SP] (no base register) the operation is [6 + st] and the low
    bits are the literal; with an index register it is [4 + st] and the
    register; with a literal before the bracket closes it is [2 + st];
    otherwise it is [st] with the literal after the bracket, or 0.  The
    literal must be below 16.  A literal after the bracket is dropped
    without a word of warning when there is an index register or a
    literal inside the bracket. *)
Theorem load_store_forms (st : bool) (d b pr v : Z) (e : Expression)
  (pl po : option Expression) (s : AssemblyState) :
  0 <= d < 8 -> 0 <= b < 8 -> 0 <= pr < 8 -> Evaluate e s = Done v s -> 0 <= v ->
  let n := if st then 1 else 0 in
  (v < 16 ->
     Assemble (LoadStore st d 65535 (Some e) pr po) s
     = push (49152 + 1024 * (6 + n) + 128 * d + v) s /\
     Assemble (LoadStore st d b (Some e) 65535 po) s
     = push (49152 + 1024 * (2 + n) + 128 * d + 16 * b + v) s /\
     Assemble (LoadStore st d b None 65535 (Some e)) s
     = push (49152 + 1024 * n + 128 * d + 16 * b + v) s) /\
  (16 <= v ->
     Assemble (LoadStore st d b (Some e) 65535 po) s
     = Abort (AsmError (ExprLocation e)
                "Unsigned literal %d (0x%x) is too big for %d-bit literal"
                [FInt v; FInt v; FInt 4])) /\
  Assemble (LoadStore st d b pl pr po) s
  = push (49152 + 1024 * (4 + n) + 128 * d + 16 * b + pr) s /\
  Assemble (LoadStore st d b None 65535 None) s
  = push (49152 + 1024 * n + 128 * d + 16 * b) s.
Proof.
  intros Hd Hb Hpr He Hv n.
  destruct (@checkLiteral_unsigned Expression Expression_I e 4 s v s ltac:(lia) He)
    as [Hok Hbad]. pow2.
  assert (Hb' : (b =? 65535) = false) by (apply Z.eqb_neq; lia).
  assert (Hpr' : (pr =? 65535) = false) by (apply Z.eqb_neq; lia).
  cbn [Assemble]. unfold LoadStore_Assemble. rewrite Hb'.
  change (65535 =? 65535) with true. cbn [negb]. rewrite Hpr'. cbn [negb].
  split; [|split; [|split]].
  - intros Hlt. unfold abind, aret. rewrite (Hok Hlt).
    destruct st; unfold n; rewrite ?ls_word, ?ls_word_sp by lia; repeat split; f_equal; lia.
  - intros Hge. unfold abind. by rewrite (Hbad Hge).
  - destruct st; unfold n; rewrite ls_word by lia; f_equal; lia.
  - unfold abind, aret. destruct st; unfold n; rewrite ls_word by lia; f_equal; lia.
Qed.

(** [LDR r1, [r2, #3]] and [LDR r1, [r2, r3], #4] at address 0. *)
Lemma load_store_forms_witness :
  Assemble (LoadStore false 1 2 (Some (Constant 3 "f:1:15")) 65535 None) (reset new_state)
  = push 0xc8a3 (reset new_state) /\
  Assemble (LoadStore false 1 2 None 3 (Some (Constant 4 "f:1:20"))) (reset new_state)
  = push 0xd0a3 (reset new_state).
Proof.
  pose proof (load_store_forms false 1 2 3 3 (Constant 3 "f:1:15") None None
                (reset new_state) ltac:(lia) ltac:(lia) ltac:(lia) eq_refl ltac:(lia)) as H1.
  pose proof (load_store_forms false 1 2 3 3 (Constant 3 "f:1:15") None
                (Some (Constant 4 "f:1:20"))
                (reset new_state) ltac:(lia) ltac:(lia) ltac:(lia) eq_refl ltac:(lia)) as H2.
  cbv zeta in H1, H2. destruct H1 as (H1 & _). destruct H2 as (_ & _ & H2 & _).
  destruct (H1 ltac:(lia)) as (_ & H1' & _). split; [exact H1'|exact H2].
Defined.

(** *** A label defined twice *)

Lemma assemble_lines_prefix a b t s :
  assemble_lines (a ++ b)%list t = Done tt s -> exists s1, assemble_lines a t = Done tt s1.
Proof.
  rewrite assemble_lines_app. unfold abind.
  destruct (assemble_lines a t) as [[] s1|f]; [|discriminate]. by exists s1.
Qed.

Lemma push_index x s s' : push x s = Done tt s' -> index s' = u16 (index s + 1).
Proof.
  unfold push. destruct (used_at s (index s)); [discriminate|]. by intros [= <-].
Qed.

Lemma updateLabel_index l a s s' : updateLabel l a s = Done tt s' -> index s' = index s.
Proof.
  unfold updateLabel. destruct (labels s !! l) as [lr|]; [|discriminate].
  intros [= <-]. by destruct (negb (defined lr) || negb (value lr =? a)).
Qed.

(** X26. Nothing rejects a second definition of a label, but the driver
    finishes only if its last pass reached both definitions with the same
    cursor; so with a word between the two, as in [:a], [.dat 1], [:a],
    every pass ends dirty and the driver runs for ever. *)
Theorem label_defined_twice :
  (forall fuel pre mid post l s,
     assemble_program fuel (pre ++ LabelDef l :: mid ++ LabelDef l :: post)%list
     = Finished s ->
     exists s0 s1 s2,
       assemble_lines pre (reset s0) = Done tt s1 /\
       assemble_lines (pre ++ LabelDef l :: mid)%list (reset s0) = Done tt s2 /\
       index s1 = index s2) /\
  (forall fuel s,
     assemble_program fuel [LabelDef "a"; DatBlock [Constant 1 "f:2:6"]; LabelDef "a"]
     <> Finished s).
Proof.
  assert (Hgen : forall fuel pre mid post l s,
            assemble_program fuel (pre ++ LabelDef l :: mid ++ LabelDef l :: post)%list
            = Finished s ->
            exists s0 s1 s2,
              assemble_lines pre (reset s0) = Done tt s1 /\
              assemble_lines (pre ++ LabelDef l :: mid)%list (reset s0) = Done tt s2 /\
              index s1 = index s2).
  { intros fuel pre mid post l s H.
    destruct (last_pass _ _ _ H) as (Hd & s0 & Hp & _). unfold one_pass in Hp.
    destruct (clean_label pre l _ (reset s0) s Hp Hd) as (s1 & H1 & Hv1).
    assert (Hp' : assemble_lines ((pre ++ LabelDef l :: mid) ++ LabelDef l :: post)%list
                    (reset s0) = Done tt s).
    { rewrite <- Hp. f_equal. rewrite <- app_assoc. reflexivity. }
    destruct (clean_label _ l _ (reset s0) s Hp' Hd) as (s2 & H2 & Hv2).
    exists s0, s1, s2. split; [exact H1|]. split; [exact H2|]. congruence. }
  split; [exact Hgen|].
  intros fuel s H.
  destruct (Hgen fuel [] [DatBlock [Constant 1 "f:2:6"]] [] "a" s H)
    as (s0 & s1 & s2 & H1 & H2 & Hi).
  injection H1 as <-.
  change ([] ++ LabelDef "a" :: [DatBlock [Constant 1 "f:2:6"]])%list
    with [LabelDef "a"; DatBlock [Constant 1 "f:2:6"]] in H2.
  cbn [assemble_lines Assemble push_values Evaluate] in H2.
  unfold abind, aget, aret in H2.
  destruct (updateLabel "a" (index (reset s0)) (reset s0)) as [[] t1|f] eqn:E1;
    [|discriminate].
  destruct (push 1 t1) as [[] t2|f] eqn:E2; [|discriminate].
  injection H2 as <-.
  rewrite (push_index _ _ _ E2), (updateLabel_index _ _ _ _ E1) in Hi.
  discriminate Hi.
Qed.

(** The program [:a], [:a], with nothing in between, finishes. *)
Lemma label_defined_twice_witness :
  exists s s0 s1 s2,
    assemble_program 3 ([] ++ LabelDef "a" :: [] ++ LabelDef "a" :: [])%list = Finished s /\
    assemble_lines [] (reset s0) = Done tt s1 /\
    assemble_lines ([] ++ LabelDef "a" :: [])%list (reset s0) = Done tt s2 /\
    index s1 = index s2.
Proof.
  assert (Hrun : exists s,
            assemble_program 3 ([] ++ LabelDef "a" :: [] ++ LabelDef "a" :: [])%list
            = Finished s) by (vm_compute; eexists; reflexivity).
  destruct Hrun as [s Hs].
  destruct (proj1 label_defined_twice 3%nat [] [] [] "a" s Hs) as (s0 & s1 & s2 & H1 & H2 & H3).
  exists s, s0, s1, s2. split; [exact Hs|]. split; [exact H1|]. split; [exact H2|exact H3].
Defined.

(** *** Conditional branches, revision A *)

Lemma revA_cond_dispatch m op :
  table_get RevA.conditions m = Some op ->
  0 <= op < 14 /\
  RevA.table_or_zero RevA.conditions m = op /\
  forall lookup2 args loc,
    RevA.Instruction_Assemble lookup2 m args loc = RevA.opCondBranch lookup2 loc m args.
Proof.
  unfold RevA.table_or_zero. intros H. rewrite H. simpl.
  unfold RevA.conditions in H; cbn [table_get] in H.
  repeat match type of H with
         | (if String.eqb ?a ?b then _ else _) = _ =>
             destruct (String.eqb_spec a b) as [<-|]
         end; inversion H; subst; (split; [lia|]); (split; [reflexivity|]);
    intros; reflexivity.
Qed.

Lemma cond_word op d :
  0 <= op < 16 -> 0 <= d < 128 -> 24576 .| shl16 op 8 .| d = 24576 + 256 * op + d.
Proof.
  intros Ho Hd. rewrite shl16_small by (pow2; lia).
  change 24576 with (6 * 2 ^ 12).
  rewrite (lor_add_low 6 (op * 2 ^ 8) 12) by (change (2 ^ 12) with 4096; pow2; lia).
  replace (6 * 2 ^ 12 + op * 2 ^ 8) with ((96 + op) * 2 ^ 8)
    by (change (2 ^ 12) with 4096; pow2; lia).
  rewrite (lor_add_low _ d 8) by (pow2; lia). pow2. lia.
Qed.

(** A distance whose upper nine bits are all ones swallows the opcode
    and the condition. *)
Lemma cond_word_backward op d :
  0 <= op < 16 -> 65408 <= d < 65536 -> 24576 .| shl16 op 8 .| d = d.
Proof.
  intros Ho Hd. rewrite shl16_small by (pow2; lia).
  change 24576 with (6 * 2 ^ 12).
  rewrite (lor_add_low 6 (op * 2 ^ 8) 12) by (change (2 ^ 12) with 4096; pow2; lia).
  replace (6 * 2 ^ 12 + op * 2 ^ 8) with ((192 + 2 * op) * 2 ^ 7)
    by (change (2 ^ 12) with 4096; pow2; lia).
  apply Z.bits_inj'. intros n Hn. rewrite Z.lor_spec.
  destruct (Z.ltb_spec n 7) as [H7|H7].
  - by rewrite Z.mul_pow2_bits_low by lia.
  - destruct (Z.ltb_spec n 16) as [H16|H16].
    + assert (Hbit : Z.testbit d n = true).
      { replace n with ((n - 7) + 7) by lia. rewrite <- Z.div_pow2_bits by lia.
        replace (d / 2 ^ 7) with 511
          by (apply (Z.div_unique _ _ _ (d - 65408)); pow2; lia).
        change 511 with (Z.ones 9). apply Z.ones_spec_low. lia. }
      rewrite Hbit. apply orb_true_r.
    + rewrite <- (Z.mod_small ((192 + 2 * op) * 2 ^ 7) (2 ^ 16))
        by (change (2 ^ 16) with 65536; pow2; lia).
      by rewrite Z.mod_pow2_bits_high by lia.
Qed.

(** X27. The conditional branches of revision A have one word and no
    long form.  With [diff] the distance from the address after the
    branch: a forward distance below 128 gives the word
    [0x6000 + 256 * condition + diff]; a backward distance of up to 128
    is or-ed into the word unmasked, which leaves the distance itself,
    so that the condition is lost and every conditional branch to that
    target is the same word; any other distance is an assembly error. *)
Theorem revA_conditional_branch (lookup2 : AssemblyState -> string -> Z * bool)
  (m : string) (op : Z) (e : RevA.Expression) (loc : string)
  (s s1 : AssemblyState) (target : Z) :
  table_get RevA.conditions m = Some op ->
  RevA.Evaluate lookup2 e s = Done target s1 ->
  let diff := u16 (target - u16 (index s1 + 1)) in
  let branch := RevA.Assemble lookup2
                  (RevA.Instruction m [mkArg AT_LABEL 0 false None (Some e)] loc) s in
  (diff < 128 -> branch = push (24576 + 256 * op + diff) s1) /\
  (65408 <= diff -> branch = push diff s1) /\
  (128 <= diff < 65408 ->
     branch = Abort (AsmError loc "Conditional branch target is out of range" [])).
Proof.
  intros Ht He diff branch.
  destruct (revA_cond_dispatch m op Ht) as (Hop & Hz & Hd).
  pose proof (u16_range (target - u16 (index s1 + 1))) as Hr. fold diff in Hr.
  unfold is_u16 in Hr.
  assert (Hrun : branch = if (diff <? 128) || (65408 <=? diff)
                          then push (24576 .| shl16 op 8 .| diff) s1
                          else Abort (AsmError loc
                                 "Conditional branch target is out of range" [])).
  { unfold branch. cbn [RevA.Assemble]. rewrite Hd. unfold RevA.opCondBranch.
    cbn [kinds_are kind ArgKind_eqb andb arg_at lookup list_lookup]. rewrite Hz.
    unfold abind at 1. unfold aret at 1. cbn [label non_nil].
    unfold abind at 1. rewrite He. unfold abind, aget. fold diff.
    destruct ((diff <? 128) || (65408 <=? diff)); reflexivity. }
  rewrite Hrun. split; [|split]; intros Hc.
  - destruct (Z.ltb_spec diff 128); [|lia]. cbn [orb]. by rewrite cond_word by lia.
  - destruct (Z.ltb_spec diff 128); [lia|]. destruct (Z.leb_spec 65408 diff); [|lia].
    cbn [orb]. by rewrite cond_word_backward by lia.
  - destruct (Z.ltb_spec diff 128); [lia|]. destruct (Z.leb_spec 65408 diff); [lia|].
    reflexivity.
Qed.

(** [BEQ] and [BNE] from address 16 back to address 10 are both the word
    0xfff9. *)
Lemma revA_conditional_branch_witness :
  RevA.Assemble (fun _ _ => (0, false))
    (RevA.Instruction "BEQ"
       [mkArg AT_LABEL 0 false None (Some (RevA.Constant 10 "f:1:5"))] "f:2:0")
    (set_index 16 (reset new_state))
  = push 0xfff9 (set_index 16 (reset new_state)) /\
  RevA.Assemble (fun _ _ => (0, false))
    (RevA.Instruction "BNE"
       [mkArg AT_LABEL 0 false None (Some (RevA.Constant 10 "f:1:5"))] "f:2:0")
    (set_index 16 (reset new_state))
  = push 0xfff9 (set_index 16 (reset new_state)).
Proof.
  split.
  - pose proof (revA_conditional_branch (fun _ _ => (0, false)) "BEQ" 0
                  (RevA.Constant 10 "f:1:5") "f:2:0"
                  (set_index 16 (reset new_state)) (set_index 16 (reset new_state)) 10
                  eq_refl eq_refl) as H.
    cbv zeta in H. destruct H as (_ & H & _). apply H. vm_compute. discriminate.
  - pose proof (revA_conditional_branch (fun _ _ => (0, false)) "BNE" 1
                  (RevA.Constant 10 "f:1:5") "f:2:0"
                  (set_index 16 (reset new_state)) (set_index 16 (reset new_state)) 10
                  eq_refl eq_refl) as H.
    cbv zeta in H. destruct H as (_ & H & _). apply H. vm_compute. discriminate.
Defined.
